(** * vectorstock-search: reconciliation and subset selection

    A shallow embedding of the two "Option B" scripts

      - [process-OptionB-search_results.py]  (module [Process]): merging the
        per-folder search results into a table of unique artworks and a
        table of the folders each art id appeared in; (module [ProcessOut])
        the choice of the folders, the two files written and [main];
      - [prune-OptionB-search_results.py]    (module [Prune]): the four-step
        selection of a subset of art ids from the exported CSV mapping;
        (module [Subset]) the subset of the catalog and the files read.

    Python values are modelled as follows: [int] as [Z]; [str] as the
    [string] of its UTF-8 bytes; [list] as [list]; [set] of ints as [gset Z]; a [dict] whose iteration
    order is never observed as [gmap]; the insertion-ordered
    [defaultdict(list)] that step 4 iterates over as an association list;
    [float] as an IEEE-754 binary64 value ([spec_float] at precision 53);
    the module-level generator of [random] as a state of an abstract
    generator type.  Exceptions are results of the sum type [result]. *)

From Stdlib Require Import ZArith String Ascii.
From Stdlib Require Import Floats.SpecFloat.
From stdpp Require Import base list gmap strings sorting.

Local Open Scope Z_scope.

(** ** Python runtime: exceptions, sequences, strings, floats, random *)

Module Py.

Inductive exn := ValueError | OverflowError | ZeroDivisionError | KeyError.

Inductive result (A : Type) :=
  | Ok (a : A)
  | Raise (e : exn).
Arguments Ok {A} a.
Arguments Raise {A} e.

Definition bind {A B} (m : result A) (k : A -> result B) : result B :=
  match m with
  | Ok a => k a
  | Raise e => Raise e
  end.

Notation "'let!' x ':=' m 'in' k" := (bind m (fun x => k))
  (at level 10, x pattern, m at level 200, k at level 200).

(** [for x in xs: s = body x s], stopping at the first exception. *)
Fixpoint for_each {X S} (body : X -> S -> result S) (xs : list X) (s : S)
  : result S :=
  match xs with
  | [] => Ok s
  | x :: xs' => let! s' := body x s in for_each body xs' s'
  end.

(** [len(l)] *)
Definition len {A} (l : list A) : Z := Z.of_nat (length l).

(** [l[:n]]: the first [n] elements, and for negative [n] all but the last
    [-n]. *)
Definition slice_to {A} (l : list A) (n : Z) : list A :=
  if n <? 0 then take (Z.to_nat (len l + n)) l else take (Z.to_nat n) l.

(** *** Strings

    A [str] is modelled by its UTF-8 encoding, one [ascii] per byte; the
    separator [";"] and the characters of ["search_"] are single bytes that
    occur in no longer encoding, so [in], [split] and [startswith] act on
    the bytes as they do on the characters. *)

(** [c in s] for a one-character [c]. *)
Fixpoint contains (c : ascii) (s : string) : bool :=
  match s with
  | EmptyString => false
  | String c' s' => Ascii.eqb c' c || contains c s'
  end.

(** [s.split(c)] for a one-character separator. *)
Fixpoint split (sep : ascii) (s : string) : list string :=
  match s with
  | EmptyString => [EmptyString]
  | String c s' =>
      if Ascii.eqb c sep then EmptyString :: split sep s'
      else match split sep s' with
           | [] => [String c EmptyString]
           | w :: ws => String c w :: ws
           end
  end.

(** The characters [str.strip()] removes are those [str.isspace()] accepts.
    In ASCII: tab, newline, vertical tab, form feed, carriage return, the
    four separators 28 to 31, and space. *)
Definition is_space (c : ascii) : bool :=
  let n := nat_of_ascii c in
  ((9 <=? n)%nat && (n <=? 13)%nat) || ((28 <=? n)%nat && (n <=? 32)%nat).

(** With two bytes: U+0085 (C2 85) and U+00A0 (C2 A0). *)
Definition is_space2 (c d : ascii) : bool :=
  let m := nat_of_ascii c in
  let n := nat_of_ascii d in
  (m =? 194)%nat && ((n =? 133)%nat || (n =? 160)%nat).

(** With three bytes: U+1680 (E1 9A 80), U+2000 to U+200A (E2 80 80 to
    E2 80 8A), U+2028 and U+2029 (E2 80 A8, E2 80 A9), U+202F (E2 80 AF),
    U+205F (E2 81 9F) and U+3000 (E3 80 80). *)
Definition is_space3 (c d e : ascii) : bool :=
  let m := nat_of_ascii c in
  let n := nat_of_ascii d in
  let k := nat_of_ascii e in
  ((m =? 225)%nat && (n =? 154)%nat && (k =? 128)%nat)
  || ((m =? 226)%nat && (n =? 128)%nat
      && (((128 <=? k)%nat && (k <=? 138)%nat)
          || (k =? 168)%nat || (k =? 169)%nat || (k =? 175)%nat))
  || ((m =? 226)%nat && (n =? 129)%nat && (k =? 159)%nat)
  || ((m =? 227)%nat && (n =? 128)%nat && (k =? 128)%nat).

(** [s.lstrip()] on the bytes. *)
Fixpoint lstrip_chars (l : list ascii) : list ascii :=
  match l with
  | [] => []
  | c :: l1 =>
      if is_space c then lstrip_chars l1
      else
        match l1 with
        | [] => l
        | d :: l2 =>
            if is_space2 c d then lstrip_chars l2
            else
              match l2 with
              | [] => l
              | e :: l3 => if is_space3 c d e then lstrip_chars l3 else l
              end
        end
  end.

(** [s.rstrip()] on the bytes in reverse order: the last byte comes
    first, so an encoding is met from its last byte on. *)
Fixpoint rstrip_chars (l : list ascii) : list ascii :=
  match l with
  | [] => []
  | c :: l1 =>
      if is_space c then rstrip_chars l1
      else
        match l1 with
        | [] => l
        | d :: l2 =>
            if is_space2 d c then rstrip_chars l2
            else
              match l2 with
              | [] => l
              | e :: l3 => if is_space3 e d c then rstrip_chars l3 else l
              end
        end
  end.

(** [s.strip()] *)
Definition strip (s : string) : string :=
  string_of_list_ascii
    (rev (rstrip_chars (rev (lstrip_chars (list_ascii_of_string s))))).

(** *** Floats (IEEE-754 binary64) *)

Definition prec : Z := 53.
Definition emax : Z := 1024.

Abbreviation float := spec_float.

(** [float(n)] for an [int]: the nearest double, ties to even;
    [OverflowError] when that is beyond the largest finite double. *)
Definition float_of_int (n : Z) : result float :=
  if 2 ^ 1024 - 2 ^ 970 <=? Z.abs n then Raise OverflowError
  else Ok (binary_normalize prec emax n 0 false).

(** [a / b] on two [int]s (true division): the exact quotient rounded once
    to the nearest double; [ZeroDivisionError] for [b = 0], [OverflowError]
    when the rounded quotient is not finite. *)
Definition truediv (a b : Z) : result float :=
  if b =? 0 then Raise ZeroDivisionError
  else if a =? 0 then Ok (S754_zero (b <? 0))
  else
    let x := SFdiv prec emax
               (S754_finite (a <? 0) (Z.to_pos (Z.abs a)) 0)
               (S754_finite (b <? 0) (Z.to_pos (Z.abs b)) 0) in
    match x with
    | S754_infinity _ => Raise OverflowError
    | _ => Ok x
    end.

(** [n * x] for an [int] [n] and a [float] [x]. *)
Definition int_mul_float (n : Z) (x : float) : result float :=
  let! fn := float_of_int n in
  Ok (SFmul prec emax fn x).

(** [int(x)]: truncation towards zero. *)
Definition int_of_float (x : float) : result Z :=
  match x with
  | S754_zero _ => Ok 0
  | S754_finite s m e =>
      let a := if 0 <=? e then Z.pos m * 2 ^ e else Z.pos m / 2 ^ (- e) in
      Ok (if s then - a else a)
  | S754_infinity _ => Raise OverflowError
  | S754_nan => Raise ValueError
  end.

(** The literal [1.0]. *)
Definition one : float := S754_finite false 4503599627370496 (-52).

(** [x % 1]: the remainder of the floored division by one, which lies in
    [[0, 1)]; it is exact for [x >= 0], and [1 - frac] rounded for a
    negative [x] with fractional part [frac]. *)
Definition mod1 (x : float) : float :=
  match x with
  | S754_zero _ => S754_zero false
  | S754_finite s m e =>
      if 0 <=? e then S754_zero false
      else
        let r := Z.pos m mod 2 ^ (- e) in
        if r =? 0 then S754_zero false
        else if s then SFadd prec emax (binary_normalize prec emax (- r) e false) one
        else binary_normalize prec emax r e false
  | S754_infinity _ => S754_nan
  | S754_nan => S754_nan
  end.

(** The literal [0.5]. *)
Definition half : float := S754_finite false 4503599627370496 (-53).

(** [x > y] *)
Definition float_gt (x y : float) : bool := SFltb y x.

(** *** The [random] module

    The generator behind [random.seed], [random.sample] and [random.shuffle]
    belongs to the interpreter; the scripts rely on its contract only:
    [sample] returns [k] elements taken at [k] different positions of the
    population, [shuffle] returns a rearrangement of its argument. *)

Class Random (G : Type) := {
  seed : Z -> G;
  sample_gen : forall {A}, G -> list A -> nat -> list A * G;
  shuffle_gen : forall {A}, G -> list A -> list A * G;
  sample_gen_length : forall A (g : G) (l : list A) (k : nat),
      (k <= length l)%nat -> length (sample_gen g l k).1 = k;
  sample_gen_submseteq : forall A (g : G) (l : list A) (k : nat),
      (k <= length l)%nat -> (sample_gen g l k).1 ⊆+ l;
  shuffle_gen_perm : forall A (g : G) (l : list A),
      (shuffle_gen g l).1 ≡ₚ l
}.

(** [random.sample(population, k)]: [ValueError] when [k] is negative or
    larger than the population. *)
Definition sample `{Random G} {A} (g : G) (population : list A) (k : Z)
  : result (list A * G) :=
  if (k <? 0) || (len population <? k) then Raise ValueError
  else Ok (sample_gen g population (Z.to_nat k)).

(** [random.shuffle(l)] *)
Definition shuffle `{Random G} {A} (g : G) (l : list A) : list A * G :=
  shuffle_gen g l.

End Py.

Import Py.

(** ** process-OptionB-search_results.py *)

Module Process.

Section Payload.

(** An artwork is a JSON object; [art_id] is [artwork.get("art_id")], [None]
    when the key is absent, and [data] stands for every other field. *)
Context {payload : Type}.

Record artwork := Artwork { art_id : option Z; data : payload }.

(** The two accumulators of [process_search_folders]. *)
Record tables := Tables {
  unique_artworks : gmap Z artwork;
  art_id_to_folders : gmap Z (list string)
}.

(** [d[k]] on a [defaultdict(list)]: a missing key is first bound to [[]]. *)
Definition getitem_default (d : gmap Z (list string)) (k : Z)
  : list string * gmap Z (list string) :=
  match d !! k with
  | Some v => (v, d)
  | None => ([], <[k := []]> d)
  end.

(** The body of [for artwork in artworks] (lines 78 to 91). *)
Definition process_artwork (folder_name : string) (t : tables) (a : artwork)
  : tables :=
  match art_id a with
  | None => t
  | Some i =>
      let ua :=
        match unique_artworks t !! i with
        | None => <[i := a]> (unique_artworks t)
        | Some _ => unique_artworks t
        end in
      let '(folders, d) := getitem_default (art_id_to_folders t) i in
      let d :=
        if bool_decide (folder_name ∈ folders) then d
        else <[i := folders ++ [folder_name]]> d in
      Tables ua d
  end.

(** The body of [for search_folder in search_folders] (lines 70 to 91); the
    batch is what [load_search_results] returned for the folder. *)
Definition process_folder (t : tables) (fb : string * list artwork) : tables :=
  foldl (process_artwork fb.1) t fb.2.

(** [process_search_folders], from the sorted list of folders on: the
    directory listing and the file reads are left to the caller. *)
Definition process_search_folders (batches : list (string * list artwork))
  : tables :=
  foldl process_folder (Tables ∅ ∅) batches.

(** All artworks in the order the loops visit them. *)
Definition visited (batches : list (string * list artwork)) : list artwork :=
  concat (map snd batches).

End Payload.

Arguments artwork : clear implicits.
Arguments tables : clear implicits.

End Process.

(** ** prune-OptionB-search_results.py

    [analyze_and_create_subset], from the data frame on: reading the CSV is
    left to the caller.  Of what the function prints only the two warnings
    are kept; [search_folder_counts], [final_counts] and [reason_counts]
    feed nothing but prints and are left out. *)

Module Prune.

(** One line of the CSV after [dropna]: [int(row["art_id"])] and
    [str(row["search_folders"])]. *)
Record row := Row { row_art_id : Z; row_search_folders : string }.

(** An entry of [selected_artworks]. *)
Record artwork := Artwork {
  art_id : Z;
  search_folders : string;
  selection_reason : string
}.

(** The two [WARNING] lines the function prints. *)
Inductive warning :=
  | OnlyAvailable (total_available target_size : Z)
  | CannotReachTarget (left : Z).

(** *** Data analysis (lines 40 to 64) *)

Record analysis := Analysis {
  multi_folder_artworks : list (Z * string);
  single_folder_artworks : list (string * list Z);
  all_artworks : gset Z
}.

(** [d[k].append(v)] on the insertion-ordered [defaultdict(list)]. *)
Fixpoint append_to (d : list (string * list Z)) (k : string) (v : Z)
  : list (string * list Z) :=
  match d with
  | [] => [(k, [v])]
  | (k', vs) :: d' =>
      if String.eqb k' k then (k', vs ++ [v]) :: d'
      else (k', vs) :: append_to d' k v
  end.

(** [d.get(k, [])] *)
Fixpoint get_list (d : list (string * list Z)) (k : string) : list Z :=
  match d with
  | [] => []
  | (k', vs) :: d' => if String.eqb k' k then vs else get_list d' k
  end.

Definition semicolon : ascii := ";"%char.

Definition analyze_row (an : analysis) (r : row) : analysis :=
  let art_id := row_art_id r in
  let search_folders := strip (row_search_folders r) in
  let all := all_artworks an ∪ {[art_id]} in
  if contains semicolon search_folders then
    Analysis (multi_folder_artworks an ++ [(art_id, search_folders)])
             (single_folder_artworks an) all
  else
    Analysis (multi_folder_artworks an)
             (append_to (single_folder_artworks an) search_folders art_id) all.

Definition analyze (rows : list row) : analysis :=
  foldl analyze_row (Analysis [] [] ∅) rows.

(** *** Selection state *)

Section Selector.

Context {G : Type} `{Random G}.

Record state := State {
  selected_artworks : list artwork;
  selected_art_ids : gset Z;
  remaining_slots : Z;
  current_folder_counts : gmap string Z;
  rng : G;
  warnings : list warning
}.

(** [selected_artworks.append({...}); selected_art_ids.add(art_id)], the
    pair of statements every step runs for an art id it takes. *)
Definition select (reason : string) (st : state) (item : Z * string) : state :=
  State (selected_artworks st ++ [Artwork item.1 item.2 reason])
        (selected_art_ids st ∪ {[item.1]})
        (remaining_slots st) (current_folder_counts st) (rng st) (warnings st).

Definition multi_folder : string := "multi_folder".
Definition min_requirement : string := "min_requirement".
Definition proportional : string := "proportional".
Definition fill_to_target : string := "fill_to_target".

(** The local [search_folders] of line 114:
    [[f"search_{i}" for i in range(1, 7)]]. *)
Definition search_folders_list : list string :=
  ["search_1"; "search_2"; "search_3"; "search_4"; "search_5"; "search_6"]%string.

(** [counts[k] += n] on a [defaultdict(int)]. *)
Definition incr (counts : gmap string Z) (k : string) (n : Z) : gmap string Z :=
  <[k := default 0 (counts !! k) + n]> counts.

(** The folder names of a record: [artwork["search_folders"].split(";")],
    each stripped. *)
Definition folders_of (s : string) : list string :=
  strip <$> split semicolon s.

(** Lines 117 to 121 (and again 288 to 295): how often each folder is named
    by the selected records. *)
Definition count_folders (sel : list artwork) : gmap string Z :=
  foldl (fun c a => foldl (fun c f => incr c f 1) c (folders_of (search_folders a)))
        ∅ sel.

(** [[aid for aid in single_folder_artworks.get(folder, []) if aid not in
    selected_art_ids]] *)
Definition available (single : list (string * list Z)) (ids : gset Z)
    (folder : string) : list Z :=
  filter (fun aid => aid ∉ ids) (get_list single folder).

(** Lines 142 to 157 and 221 to 237: draw [to_add] of the available art ids
    of [folder], record them, and update the counters. *)
Definition add_from_folder (reason : string) (folder : string)
    (available_artworks : list Z) (to_add : Z) (st : state) : result state :=
  if 0 <? to_add then
    let! (selected_from_folder, g) := sample (rng st) available_artworks to_add in
    let st' := foldl (select reason) st
                 ((fun art_id => (art_id, folder)) <$> selected_from_folder) in
    Ok (State (selected_artworks st') (selected_art_ids st')
              (remaining_slots st - to_add)
              (incr (current_folder_counts st) folder to_add)
              g (warnings st))
  else Ok st.

(** *** Step 2: minimum per search folder (lines 130 to 161) *)

Definition step2_folder (single : list (string * list Z)) (min_per_search : Z)
    (folder : string) (st : state) : result state :=
  let current_count := default 0 (current_folder_counts st !! folder) in
  let needed := Z.max 0 (min_per_search - current_count) in
  if (0 <? needed) && (0 <? remaining_slots st) then
    let available_artworks := available single (selected_art_ids st) folder in
    let to_add :=
      Z.min needed (Z.min (len available_artworks) (remaining_slots st)) in
    add_from_folder min_requirement folder available_artworks to_add st
  else Ok st.

Definition step2 (single : list (string * list Z)) (min_per_search : Z)
    (st : state) : result state :=
  for_each (step2_folder single min_per_search) search_folders_list st.

(** *** Step 3: proportional fill (lines 168 to 241) *)

(** Lines 205 to 210: [int(remaining_slots * proportion)], plus one when
    [(remaining_slots * proportion) % 1 > 0.5]. *)
Definition target_to_add (remaining_slots available_count total : Z) : result Z :=
  let! proportion := truediv available_count total in
  let! x := int_mul_float remaining_slots proportion in
  let! n := int_of_float x in
  Ok (if float_gt (mod1 x) half then n + 1 else n).

Definition step3_folder (single : list (string * list Z))
    (folder_remaining : gmap string Z) (total_folder_remaining : Z)
    (folder : string) (st : state) : result state :=
  match folder_remaining !! folder with
  | None => Raise KeyError
  | Some available_count =>
      if 0 <? available_count then
        let! target := target_to_add (remaining_slots st) available_count
                         total_folder_remaining in
        let available_artworks := available single (selected_art_ids st) folder in
        let to_add :=
          Z.min target (Z.min (len available_artworks) (remaining_slots st)) in
        add_from_folder proportional folder available_artworks to_add st
      else Ok st
  end.

(** [sum(d.values())] *)
Definition sum_values (d : gmap string Z) : Z :=
  map_fold (fun _ v acc => acc + v) 0 d.

Definition step3 (single : list (string * list Z)) (st : state) : result state :=
  if 0 <? remaining_slots st then
    let all_remaining :=
      search_folders_list ≫= (fun folder =>
        (fun art_id => (art_id, folder))
          <$> available single (selected_art_ids st) folder) in
    let total_remaining := len all_remaining in
    if 0 <? total_remaining then
      let folder_remaining :=
        foldl (fun d folder =>
                 <[folder := len (available single (selected_art_ids st) folder)]> d)
              ∅ search_folders_list in
      let total_folder_remaining := sum_values folder_remaining in
      if 0 <? total_folder_remaining then
        for_each (step3_folder single folder_remaining total_folder_remaining)
                 search_folders_list st
      else Ok st
    else Ok st
  else Ok st.

(** *** Step 4: fill to target (lines 244 to 274) *)

(** Lines 250 to 254. *)
Definition all_remaining_artworks (single : list (string * list Z))
    (ids : gset Z) : list (Z * string) :=
  single ≫= (fun '(folder, art_ids) =>
    (fun art_id => (art_id, folder))
      <$> filter (fun art_id => art_id ∉ ids) art_ids).

Definition step4 (single : list (string * list Z)) (st : state) : result state :=
  if 0 <? remaining_slots st then
    let pool := all_remaining_artworks single (selected_art_ids st) in
    if remaining_slots st <=? len pool then
      let! (final_selection, g) := sample (rng st) pool (remaining_slots st) in
      let st' := foldl (select fill_to_target) st final_selection in
      Ok (State (selected_artworks st') (selected_art_ids st') 0
                (current_folder_counts st) g (warnings st))
    else
      Ok (State (selected_artworks st) (selected_art_ids st) (remaining_slots st)
                (current_folder_counts st) (rng st)
                (warnings st ++ [CannotReachTarget (len pool)]))
  else Ok st.

(** *** The whole function *)

(** Lines 66 to 75: the target after the clamp, and the warning. *)
Definition clamp (total_available target_size : Z) : Z * list warning :=
  if total_available <? target_size
  then (total_available, [OnlyAvailable total_available target_size])
  else (target_size, []).

(** Lines 85 to 99: step 1, every multi-folder artwork is selected. *)
Definition step1 (g : G) (an : analysis) (target_size : Z) (ws : list warning)
  : state :=
  let st := foldl (select multi_folder) (State [] ∅ 0 ∅ g ws)
              (multi_folder_artworks an) in
  State (selected_artworks st) (selected_art_ids st)
        (target_size - len (selected_artworks st))
        (current_folder_counts st) (rng st) (warnings st).

(** What the call hands back: the returned list, the warnings printed on
    the way, and the generator state it leaves behind. *)
Record outcome := Outcome {
  returned : list artwork;
  printed : list warning;
  generator : G
}.

Definition analyze_and_create_subset (g : G) (rows : list row)
    (target_size min_per_search : Z) : result outcome :=
  let an := analyze rows in
  let total_available := Z.of_nat (size (all_artworks an)) in
  let '(target_size, ws) := clamp total_available target_size in
  let st := step1 g an target_size ws in
  if remaining_slots st <=? 0 then
    let '(l, g') := shuffle (rng st) (selected_artworks st) in
    Ok (Outcome (slice_to l target_size) (warnings st) g')
  else
    let st := State (selected_artworks st) (selected_art_ids st)
                (remaining_slots st) (count_folders (selected_artworks st))
                (rng st) (warnings st) in
    let single := single_folder_artworks an in
    let! st := step2 single min_per_search st in
    let! st := step3 single st in
    let! st := step4 single st in
    let '(l, g') := shuffle (rng st) (selected_artworks st) in
    Ok (Outcome l (warnings st) g').

(** [__main__]: [random.seed(42)], then the call with [target_size=100] and
    [min_per_search=10].  The seed is a parameter here. *)
Definition main (seed_value : Z) (rows : list row) : result outcome :=
  analyze_and_create_subset (seed seed_value) rows 100 10.

End Selector.

Arguments state : clear implicits.
Arguments outcome : clear implicits.

End Prune.

(** ** process-OptionB-search_results.py: the folder listing and the outputs

    The parts of the script around the merge loop: which folders are
    processed and in which order (lines 58 to 64), the order in which the
    dictionary of unique artworks holds its keys, the two files written
    ([save_unique_artworks_json], [save_art_id_mapping_csv]) as the data
    they hold, and the exit of [main] when nothing was found. *)

Module ProcessOut.

Import Process.

(** [sep.join(l)] *)
Fixpoint join (sep : string) (l : list string) : string :=
  match l with
  | [] => ""
  | [s] => s
  | s :: l' => s +:+ sep +:+ join sep l'
  end.

(** [sorted(l)] on strings: ascending in the order of the characters' codes.
    Python's sort is stable; on a total order that leaves one result. *)
Definition sorted_strings (l : list string) : list string :=
  merge_sort String.le l.

(** Lines 59 to 64: of the directory entries (name, is it a directory), the
    names of the directories that start with ["search_"], sorted by name. *)
Definition search_folders_of (entries : list (string * bool)) : list string :=
  sorted_strings
    (fst <$> filter (fun e => e.2 = true /\ String.prefix "search_" e.1 = true)
                    entries).

Section Payload.

Context {payload : Type}.

(** [process_search_folders] from the directory listing on; [load] is
    [load_search_results], the artworks read from a folder. *)
Definition process_input_folder (entries : list (string * bool))
    (load : string -> list (artwork payload)) : tables payload :=
  process_search_folders ((fun f => (f, load f)) <$> search_folders_of entries).

(** A Python [dict] keeps its keys in the order in which they were first
    bound.  [process_artwork_order] runs the body of the inner loop and
    keeps, beside the tables, that order for [unique_artworks]: line 87
    binds a new key exactly when the art id is not bound yet. *)
Definition process_artwork_order (folder_name : string)
    (st : tables payload * list Z) (a : artwork payload)
  : tables payload * list Z :=
  (process_artwork folder_name st.1 a,
   match art_id a with
   | Some i =>
       match unique_artworks st.1 !! i with
       | None => st.2 ++ [i]
       | Some _ => st.2
       end
   | None => st.2
   end).

Definition process_folder_order (st : tables payload * list Z)
    (fb : string * list (artwork payload)) : tables payload * list Z :=
  foldl (process_artwork_order fb.1) st fb.2.

Definition process_search_folders_order
    (batches : list (string * list (artwork payload)))
  : tables payload * list Z :=
  foldl process_folder_order (Tables ∅ ∅, []) batches.

(** [list(d.values())] for a dictionary with the given key order. *)
Definition values (d : gmap Z (artwork payload)) (order : list Z)
  : list (artwork payload) :=
  omap (fun i => d !! i) order.

(** What [save_unique_artworks_json] writes (lines 98 to 101). *)
Record unique_json := UniqueJson {
  total_unique_artworks : Z;
  artworks : list (artwork payload)
}.

Definition save_unique_artworks_json (d : gmap Z (artwork payload))
    (order : list Z) : unique_json :=
  UniqueJson (Z.of_nat (size d)) (values d order).

(** The lines [save_art_id_mapping_csv] writes after the header (lines 120
    to 124): one per art id, in ascending order of the ids, with the folder
    names sorted and joined by semicolons. *)
Definition save_art_id_mapping_csv (d : gmap Z (list string))
  : list (Z * string) :=
  (fun i => (i, join ";" (sorted_strings (default [] (d !! i)))))
    <$> merge_sort Z.le (elements (dom d)).

(** Lines 152 to 167 of [main]: [None] is [sys.exit(1)] after "No artworks
    found", otherwise the contents of the two files. *)
Definition main (batches : list (string * list (artwork payload)))
  : option (unique_json * list (Z * string)) :=
  let '(t, order) := process_search_folders_order batches in
  if decide (unique_artworks t = ∅) then None
  else Some (save_unique_artworks_json (unique_artworks t) order,
             save_art_id_mapping_csv (art_id_to_folders t)).

End Payload.

Arguments unique_json : clear implicits.

End ProcessOut.

(** ** prune-OptionB-search_results.py: the subset of the catalog *)

Module Subset.

Import Prune.

Section Payload.

Context {payload : Type}.

(** The parsed [original_json]: the keys ["artworks"] and
    ["total_unique_artworks"] may each be absent. *)
Record original_data := OriginalData {
  od_artworks : option (list (Process.artwork payload));
  od_total : option Z
}.

Record selection_metadata := SelectionMetadata {
  original_total : Z;
  selected_count : Z;
  found_count : Z;
  missing_count : Z
}.

Record subset_data := SubsetData {
  total_unique_artworks : Z;
  metadata : selection_metadata;
  artworks : list (Process.artwork payload)
}.

(** The body of the loop of lines 336 to 339; [artwork.get("art_id")] of an
    artwork without art id is [None], which is in no set of ints. *)
Definition keep_selected (selected_art_ids : gset Z)
    (acc : list (Process.artwork payload) * gset Z)
    (a : Process.artwork payload)
  : list (Process.artwork payload) * gset Z :=
  match Process.art_id a with
  | Some i =>
      if decide (i ∈ selected_art_ids) then (acc.1 ++ [a], acc.2 ∪ {[i]})
      else acc
  | None => acc
  end.

(** [create_subset_json] from the parsed file on (lines 319 to 364): the
    structure it writes, and the set of missing art ids it warns about. *)
Definition create_subset_json (selected_artworks : list artwork)
    (od : original_data) : subset_data * gset Z :=
  let selected_art_ids : gset Z :=
    list_to_set (art_id <$> selected_artworks) in
  let '(subset_artworks, found_art_ids) :=
    match od_artworks od with
    | Some arts => foldl (keep_selected selected_art_ids) ([], ∅) arts
    | None => ([], ∅)
    end in
  let missing_art_ids := selected_art_ids ∖ found_art_ids in
  (SubsetData
     (len subset_artworks)
     (SelectionMetadata
        (default (len (default [] (od_artworks od))) (od_total od))
        (len selected_artworks)
        (Z.of_nat (size found_art_ids))
        (Z.of_nat (size missing_art_ids)))
     subset_artworks,
   missing_art_ids).

(** The lines [save_subset_csv] writes after the header. *)
Definition save_subset_csv (selected_artworks : list artwork)
  : list (Z * string * string) :=
  (fun a => (art_id a, search_folders a, selection_reason a))
    <$> selected_artworks.

(** The file written by [save_unique_artworks_json], read back. *)
Definition read_unique_json (u : ProcessOut.unique_json payload)
  : original_data :=
  OriginalData (Some (ProcessOut.artworks u))
               (Some (ProcessOut.total_unique_artworks u)).

End Payload.

Arguments original_data : clear implicits.
Arguments subset_data : clear implicits.

(** The table written by [save_art_id_mapping_csv], read back by
    [pd.read_csv] and [dropna]: one row per line (no folder string written
    for folders named ["search_..."] is empty or a missing-value marker). *)
Definition read_mapping (lines : list (Z * string)) : list row :=
  (fun l => Row l.1 l.2) <$> lines.

End Subset.

(** ** A small generator for running the scripts on examples

    The state is a counter: a shuffle rotates the list by the counter, a
    sample takes the first [k] elements of that rotation. *)

Module Rot.

Definition gen := nat.

Definition rot_seed (z : Z) : gen := Z.to_nat z.

Definition rot_sample {A} (g : gen) (l : list A) (k : nat) : list A * gen :=
  (take k (rotate g l), S g).

Definition rot_shuffle {A} (g : gen) (l : list A) : list A * gen :=
  (rotate g l, S g).

End Rot.

(** ** Vocabulary of the statements *)

Section ProcessVocabulary.

Import Process ProcessOut.

Context {payload : Type}.

Implicit Types (t : tables payload) (l : list (artwork payload)).

(** The first artwork of [l] that carries art id [i]. *)
Definition first_with (i : Z) l : option (artwork payload) :=
  snd <$> list_find (fun a => art_id a = Some i) l.

(** The two tables always have the same keys. *)
Definition same_keys t : Prop :=
  dom (unique_artworks t) = dom (art_id_to_folders t).

Implicit Types (batches : list (string * list (artwork payload))).
Implicit Types (a : artwork payload) (seen : list (artwork payload)).
Implicit Types (order : list Z).

(** The folders recorded for an art id; none when the id is not a key. *)
Definition provenance t (i : Z) : list string :=
  default [] (art_id_to_folders t !! i).

(** Some artwork of a batch named [folder] carries art id [i]. *)
Definition appears batches (folder : string) (i : Z) : Prop :=
  exists l a, (folder, l) ∈ batches /\ a ∈ l /\ art_id a = Some i.

(** The art id is a key of both tables and [folder] is recorded for it. *)
Definition recorded t (folder : string) (i : Z) : Prop :=
  is_Some (unique_artworks t !! i) /\ folder ∈ provenance t i.

(** Every recorded list of folders is non-empty and free of duplicates. *)
Definition tidy t : Prop :=
  forall i fs, art_id_to_folders t !! i = Some fs -> NoDup fs /\ fs <> [].

(** Everything the batches hold is recorded in the tables. *)
Definition covers t batches : Prop :=
  forall f i, appears batches f i -> recorded t f i.

(** The key order fits the table of unique artworks, whose values lie in
    the artworks seen so far in the order of their keys. *)
Record ordered t order seen : Prop := {
  ord_nodup : NoDup order;
  ord_keys : forall i, i ∈ order <-> is_Some (unique_artworks t !! i);
  ord_ids : forall i a, unique_artworks t !! i = Some a -> art_id a = Some i;
  ord_sub : values (unique_artworks t) order `sublist_of` seen
}.

(** The batches without the artworks that carry no art id. *)
Definition with_art_id batches : list (string * list (artwork payload)) :=
  (fun b => (b.1, filter (fun a => is_Some (art_id a)) b.2)) <$> batches.

End ProcessVocabulary.

(** Folder names as the selection expects them *)

Section StringVocabulary.

Import Py Prune.

(** Stripping when every character is an ASCII character. *)
Fixpoint lstrip_ascii (l : list ascii) : list ascii :=
  match l with
  | [] => []
  | c :: l' => if is_space c then lstrip_ascii l' else l
  end.

Definition strip_ascii (s : string) : string :=
  string_of_list_ascii
    (rev (lstrip_ascii (rev (lstrip_ascii (list_ascii_of_string s))))).

(** A list of characters with no ASCII white space in front. *)
Definition no_lead (l : list ascii) : Prop :=
  match l with
  | [] => True
  | c :: _ => is_space c = false
  end.

(** Bytes that are ASCII characters. *)
Definition ascii_chars (l : list ascii) : Prop :=
  Forall (fun c => (nat_of_ascii c < 128)%nat) l.

(** A name of ASCII characters only. *)
Definition ascii_only (f : string) : Prop :=
  forallb (fun c => (nat_of_ascii c <? 128)%nat) (list_ascii_of_string f) = true.

(** An ASCII folder name that [strip] leaves as it is and that holds no
    semicolon. *)
Definition clean (f : string) : Prop :=
  ascii_only f /\ strip f = f /\ contains semicolon f = false.

End StringVocabulary.

Section SubsetVocabulary.

Import Prune Subset.

Context {payload : Type}.

Implicit Types (a : Process.artwork payload).
Implicit Types (catalog : list (Process.artwork payload)).
Implicit Types (ids : gset Z).

(** The artwork carries one of the art ids. *)
Definition wanted ids a : Prop :=
  match Process.art_id a with
  | Some i => i ∈ ids
  | None => False
  end.

Global Instance wanted_dec ids a : Decision (wanted ids a).
Proof. unfold wanted. destruct (Process.art_id a); apply _. Defined.

(** The art ids carried by the artworks of a list. *)
Definition ids_of catalog : list Z := omap Process.art_id catalog.

End SubsetVocabulary.

(** A float that is zero or finite, with exponent and magnitude below [B]. *)
Definition upper (B : Z) (x : float) : Prop :=
  match x with
  | S754_zero _ => True
  | S754_finite _ m e => e <= B /\ Zdigits2 (Z.pos m) + e <= B
  | _ => False
  end.

Section PruneVocabulary.

Import Prune.

Context {G : Type} `{Random G}.

Implicit Types (st : state G) (single : list (string * list Z)).
Implicit Types (items : list (Z * string)) (sel : list artwork).

(** The record [select] appends for an (art id, folders) pair. *)
Definition entry (reason : string) (item : Z * string) : artwork :=
  Artwork item.1 item.2 reason.

Definition row_ids (rows : list row) : list Z := row_art_id <$> rows.

(** Every art id filed under some single folder, in dictionary order. *)
Definition single_ids single : list Z := concat single.*2.

(** No key of the single-folder dictionary contains a semicolon. *)
Definition plain_keys single : Prop :=
  forall k, k ∈ single.*1 -> contains semicolon k = false.

(** The records appended for [chosen] art ids of one folder. *)
Definition drawn (reason folder : string) (chosen : list Z) : list artwork :=
  entry reason <$> ((fun i => (i, folder)) <$> chosen).

(** How many art ids step 2 asks for in one folder. *)
Definition to_add2 single (min_per_search : Z) (folder : string) st : Z :=
  let needed :=
    Z.max 0 (min_per_search - default 0 (current_folder_counts st !! folder)) in
  if (0 <? needed) && (0 <? remaining_slots st)
  then Z.min needed
         (Z.min (len (available single (selected_art_ids st) folder))
                (remaining_slots st))
  else 0.

(** How many art ids step 3 asks for in one folder, given its share. *)
Definition to_add3 single (available_count target : Z) (folder : string) st : Z :=
  if 0 <? available_count
  then Z.min target
         (Z.min (len (available single (selected_art_ids st) folder))
                (remaining_slots st))
  else 0.

Definition later_reasons : list string :=
  [min_requirement; proportional; fill_to_target].

(** [st'] is [st] after some records were appended, all taken from the
    unselected single-folder artworks and no more than the open slots. *)
Definition grows single st st' : Prop :=
  exists new reason,
    reason ∈ later_reasons
    /\ new ⊆+ all_remaining_artworks single (selected_art_ids st)
    /\ len new <= Z.max 0 (remaining_slots st)
    /\ selected_artworks st' = selected_artworks st ++ (entry reason <$> new)
    /\ selected_art_ids st' = selected_art_ids st ∪ list_to_set new.*1
    /\ remaining_slots st' = remaining_slots st - len new.

(** A property of states that every later draw keeps. *)
Definition kept single (P : state G -> Prop) : Prop :=
  forall st st', P st -> grows single st st' -> P st'.

Definition reasons : list string :=
  [multi_folder; min_requirement; proportional; fill_to_target].

(** A record carries one of the four reasons, and one whose folder string
    names several folders carries [multi_folder]. *)
Definition well_tagged (a : artwork) : Prop :=
  selection_reason a ∈ reasons
  /\ (contains semicolon (search_folders a) = true ->
      selection_reason a = multi_folder).

Record Inv (rows : list row) (target : Z) (st : state G) : Prop := {
  inv_nodup : NoDup (art_id <$> selected_artworks st);
  inv_sub : forall i, i ∈ art_id <$> selected_artworks st -> i ∈ row_ids rows;
  inv_ids : selected_art_ids st = list_to_set (art_id <$> selected_artworks st);
  inv_multi : forall i, i ∈ (multi_folder_artworks (analyze rows)).*1 ->
                        i ∈ selected_art_ids st;
  inv_remaining : remaining_slots st = target - len (selected_artworks st);
  inv_nonneg : 0 <= remaining_slots st
}.


(** The target after the clamp. *)
Definition clamped (rows : list row) (target_size : Z) : Z :=
  (clamp (Z.of_nat (size (all_artworks (analyze rows)))) target_size).1.

(** The state in which step 2 starts: step 1 done, folder counts taken. *)
Definition after_step1 (g : G) (rows : list row) (target_size : Z) : state G :=
  let multi := multi_folder_artworks (analyze rows) in
  State (entry multi_folder <$> multi) (list_to_set multi.*1)
        (clamped rows target_size - len multi)
        (count_folders (entry multi_folder <$> multi)) g
        (clamp (Z.of_nat (size (all_artworks (analyze rows)))) target_size).2.

(** A selected record counts for a folder when its folder string names it. *)
Definition attributed (folder : string) (a : artwork) : Prop :=
  folder ∈ folders_of (search_folders a).

Global Instance attributed_dec folder a : Decision (attributed folder a).
Proof. unfold attributed. apply _. Defined.

(** The number of selected records that count for a folder. *)
Definition count_for (folder : string) sel : Z :=
  len (filter (attributed folder) sel).

(** What a folder still lacks to reach the minimum, by the running counts. *)
Definition shortfall (min_per_search : Z) st (f : string) : Z :=
  Z.max 0 (min_per_search - default 0 (current_folder_counts st !! f)).

(** What step 2 takes for a folder at most: what the folder lacks, but no
    more than its unselected single-folder art ids. *)
Definition demand single (min_per_search : Z) st (f : string) : Z :=
  Z.min (shortfall min_per_search st f)
        (len (available single (selected_art_ids st) f)).

Definition total_demand single (min_per_search : Z) st (l : list string) : Z :=
  foldr (fun f acc => demand single min_per_search st f + acc) 0 l.

(** The unselected single-folder art ids of a folder, counted when step 3
    starts; the table [folder_remaining] step 3 makes of them for the six
    folders; and their sum over the six folders. *)
Definition pool single st (f : string) : Z :=
  len (available single (selected_art_ids st) f).

Definition folder_remaining_of single st : gmap string Z :=
  foldl (fun d f => <[f := pool single st f]> d) ∅ search_folders_list.

Definition total_pool single st : Z :=
  foldr (fun f acc => pool single st f + acc) 0 search_folders_list.

(** A row whose stripped folder string holds a semicolon. *)
Definition multi_row (r : row) : Prop :=
  contains semicolon (strip (row_search_folders r)) = true.

(** The art id and the stripped folder string of a row. *)
Definition item_of (r : row) : Z * string :=
  (row_art_id r, strip (row_search_folders r)).

(** A record with one of the reasons of steps 2 and 3 names one of the six
    folders of [search_folders_list]. *)
Definition quota_named (a : artwork) : Prop :=
  selection_reason a = min_requirement \/ selection_reason a = proportional ->
  search_folders a ∈ search_folders_list.

(** A record drawn for [folder] with the given reason. *)
Definition tagged (reason folder : string) (a : artwork) : Prop :=
  selection_reason a = reason /\ search_folders a = folder.

Global Instance tagged_dec reason folder a : Decision (tagged reason folder a).
Proof. unfold tagged. apply _. Defined.

(** How many records of a list were drawn for [folder] with the reason. *)
Definition count_tagged (reason folder : string) sel : Z :=
  len (filter (tagged reason folder) sel).

(** The running counts are not negative, and a folder has no more records
    of step 2 than the minimum asks for, none when its turn has not come. *)
Definition quota_kept (min_per_search : Z) (visited : list string) st : Prop :=
  (forall f, 0 <= default 0 (current_folder_counts st !! f))
  /\ forall f, count_tagged min_requirement f (selected_artworks st)
               <= if decide (f ∈ visited) then Z.max 0 min_per_search else 0.

End PruneVocabulary.

(** ** Concrete inputs *)

Section ExampleInputs.

Import Prune Rot.

(** Two folders sharing the art ids 2 and 3. *)
Definition rows_ab : list row :=
  [Row 1 "search_1"; Row 2 "search_1;search_2"; Row 3 "search_1;search_2";
   Row 4 "search_2"].

(** Two art ids found by a seventh search only. *)
Definition rows_seven : list row := [Row 1 "search_7"; Row 2 "search_7"].

(** Three art ids found by the second search only. *)
Definition rows_three : list row :=
  [Row 1 "search_2"; Row 2 "search_2"; Row 3 "search_2"].

(** Fifty single-folder art ids: 1 to 7 in [search_1], 8 to 50 in
    [search_2]. *)
Definition rows_fifty : list row :=
  (fun i => Row i (if i <=? 7 then "search_1" else "search_2"))
    <$> (Z.of_nat <$> seq 1 50).

(** What the call on [rows_ab] with target 4 and minimum 1 returns from
    generator state 0. *)
Definition out_ab : outcome gen :=
  Outcome [Artwork 1 "search_1" "proportional";
           Artwork 4 "search_2" "fill_to_target";
           Artwork 2 "search_1;search_2" "multi_folder";
           Artwork 3 "search_1;search_2" "multi_folder"] [] 3%nat.

(** The share as the specification words it: the floor of the exact
    quotient, plus one when the fractional remainder exceeds one half,
    capped by the pool and by the remaining slots. *)
Definition claimed_allocation (remaining_slots pool total : Z) : Z :=
  let exact := remaining_slots * pool in
  let share :=
    exact / total + (if total <? 2 * (exact mod total) then 1 else 0) in
  Z.min share (Z.min pool remaining_slots).

(** What the call on [rows_three] with target 3 and minimum 3 returns from
    generator state 0. *)
Definition out_three : outcome gen :=
  Outcome [Artwork 2 "search_2" "min_requirement";
           Artwork 3 "search_2" "min_requirement";
           Artwork 1 "search_2" "min_requirement"] [] 2%nat.

(** The state at the start of step 3 for [rows_fifty] with 25 slots. *)
Definition st_fifty : state gen := after_step1 0%nat rows_fifty 25.

Definition single_fifty : list (string * list Z) :=
  single_folder_artworks (analyze rows_fifty).

(** The results of two searches that share art id 2; one artwork carries
    no art id.  The payload is the title. *)
Definition batches_ab : list (string * list (Process.artwork string)) :=
  [("search_1"%string,
    [Process.Artwork (Some 1) "a"%string; Process.Artwork (Some 2) "b"%string;
     Process.Artwork None "x"%string]);
   ("search_2"%string,
    [Process.Artwork (Some 2) "b again"%string;
     Process.Artwork (Some 3) "c"%string])].

Definition batches_ba : list (string * list (Process.artwork string)) :=
  reverse batches_ab.

(** The first of these folders, read a second time. *)
Definition extra_ab : list (string * list (Process.artwork string)) :=
  take 1 batches_ab.

(** An input folder with the two search folders, a file and another
    directory, and what [load_search_results] reads from each. *)
Definition entries_ab : list (string * bool) :=
  [("search_2"%string, true); ("notes.txt"%string, false);
   ("search_1"%string, true); ("drafts"%string, true)].

Definition load_ab (f : string) : list (Process.artwork string) :=
  default [] (list_to_map (M:=gmap string _) batches_ab !! f).

(** The two files written for that input folder. *)
Definition unique_ab : ProcessOut.unique_json string :=
  ProcessOut.UniqueJson 3
    [Process.Artwork (Some 1) "a"%string; Process.Artwork (Some 2) "b"%string;
     Process.Artwork (Some 3) "c"%string].

Definition lines_ab : list (Z * string) :=
  [(1, "search_1"%string); (2, "search_1;search_2"%string);
   (3, "search_2"%string)].

End ExampleInputs.

(** * Proofs *)

(** ** The small generator meets the contract of [random] *)

Lemma rotate_perm {A} (n : nat) (l : list A) : rotate n l ≡ₚ l.
Proof.
  unfold rotate. rewrite Permutation_app_comm. by rewrite take_drop.
Qed.

#[global] Program Instance rot_random : Random Rot.gen := {|
  seed := Rot.rot_seed;
  sample_gen := @Rot.rot_sample;
  shuffle_gen := @Rot.rot_shuffle
|}.
Next Obligation.
  intros A g l k Hk. cbn. rewrite length_take.
  pose proof (Permutation_length (rotate_perm g l)). lia.
Qed.
Next Obligation.
  intros A g l k Hk. cbn.
  transitivity (rotate g l).
  - apply sublist_submseteq, sublist_take.
  - apply Permutation_submseteq, rotate_perm.
Qed.
Next Obligation.
  intros A g l. cbn. apply rotate_perm.
Qed.

(** ** Reconciliation: the tables built by [process_search_folders] *)

Section ProcessFacts.

Import Process.

Context {payload : Type}.

Implicit Types (t : tables payload) (a : artwork payload).
Implicit Types (l : list (artwork payload)).
Implicit Types (batches : list (string * list (artwork payload))).

Lemma first_with_cons i a l :
  first_with i (a :: l) =
  if decide (art_id a = Some i) then Some a else first_with i l.
Proof.
  unfold first_with. cbn. case_decide; [done|].
  destruct (list_find _ l) as [[n x]|]; done.
Qed.

Lemma first_with_app i l1 l2 :
  first_with i (l1 ++ l2) =
  match first_with i l1 with Some a => Some a | None => first_with i l2 end.
Proof.
  induction l1 as [|a l1 IH]; [done|].
  rewrite <- app_comm_cons, !first_with_cons. by case_decide.
Qed.

Lemma process_artwork_lookup folder t a i :
  unique_artworks (process_artwork folder t a) !! i =
  match unique_artworks t !! i with
  | Some x => Some x
  | None => if decide (art_id a = Some i) then Some a else None
  end.
Proof.
  unfold process_artwork. destruct (art_id a) as [j|] eqn:Hj.
  - destruct (getitem_default _ j) as [fs d]. cbn.
    destruct (decide (j = i)) as [->|Hne].
    + rewrite decide_True by done.
      destruct (unique_artworks t !! i) eqn:Hi; [by rewrite Hi|].
      by rewrite lookup_insert_eq.
    + rewrite decide_False by congruence.
      destruct (unique_artworks t !! j) eqn:Hjj.
      * by destruct (unique_artworks t !! i).
      * rewrite lookup_insert_ne by done.
        by destruct (unique_artworks t !! i).
  - rewrite decide_False by done. by destruct (unique_artworks t !! i).
Qed.

Lemma process_artworks_lookup folder l t i :
  unique_artworks (foldl (process_artwork folder) t l) !! i =
  match unique_artworks t !! i with
  | Some x => Some x
  | None => first_with i l
  end.
Proof.
  revert t. induction l as [|a l IH]; intros t; cbn [foldl].
  - by destruct (unique_artworks t !! i).
  - rewrite IH, process_artwork_lookup, first_with_cons.
    destruct (unique_artworks t !! i); [done|]. by case_decide.
Qed.

Lemma process_folders_lookup batches t i :
  unique_artworks (foldl process_folder t batches) !! i =
  match unique_artworks t !! i with
  | Some x => Some x
  | None => first_with i (visited batches)
  end.
Proof.
  revert t. induction batches as [|[f l] batches IH]; intros t; cbn [foldl].
  - by destruct (unique_artworks t !! i).
  - rewrite IH. unfold process_folder at 1. cbn [fst snd].
    rewrite process_artworks_lookup.
    unfold visited. cbn [map concat snd]. rewrite first_with_app.
    destruct (unique_artworks t !! i); [done|].
    by destruct (first_with i l).
Qed.

Lemma process_artwork_absorbed folder t a i :
  art_id a = Some i -> is_Some (unique_artworks t !! i) ->
  unique_artworks (process_artwork folder t a) = unique_artworks t.
Proof.
  intros Hi [x Hx]. unfold process_artwork. rewrite Hi, Hx.
  by destruct (getitem_default _ i).
Qed.

Lemma process_artwork_same_keys folder t a :
  same_keys t -> same_keys (process_artwork folder t a).
Proof.
  unfold same_keys, process_artwork. intros Hdom.
  destruct (art_id a) as [i|]; [|done].
  unfold getitem_default.
  destruct (unique_artworks t !! i) as [x|] eqn:Hu.
  - assert (is_Some (art_id_to_folders t !! i)) as [fs Hfs].
    { apply elem_of_dom. rewrite <- Hdom. apply elem_of_dom. eauto. }
    rewrite Hfs. case_bool_decide; cbn; [done|].
    rewrite dom_insert_L, Hdom.
    assert (i ∈ dom (art_id_to_folders t)) by (apply elem_of_dom; eauto).
    set_solver.
  - assert (art_id_to_folders t !! i = None) as Hfs.
    { apply not_elem_of_dom. rewrite <- Hdom. by apply not_elem_of_dom. }
    rewrite Hfs. case_bool_decide; cbn.
    + rewrite !dom_insert_L. by rewrite Hdom.
    + rewrite !dom_insert_L. rewrite Hdom. set_solver.
Qed.

Lemma process_search_folders_same_keys batches :
  same_keys (process_search_folders batches).
Proof.
  unfold process_search_folders.
  assert (same_keys (Tables (payload:=payload) ∅ ∅)) as H0
    by (unfold same_keys; cbn; by rewrite !dom_empty_L).
  revert H0. generalize (Tables (payload:=payload) ∅ ∅).
  induction batches as [|[f l] batches IH]; intros t Ht; cbn [foldl]; [done|].
  apply IH. unfold process_folder. cbn [fst snd].
  clear IH. revert t Ht. induction l as [|a l IHl]; intros t Ht; cbn [foldl]; [done|].
  apply IHl. by apply process_artwork_same_keys.
Qed.

(** C5. For every ordered sequence of (folder, batch) pairs, the table of
    unique artworks binds an art id to the first artwork, in processing
    order, that carries it (and to nothing when no artwork does); an
    artwork whose art id is already bound leaves that table as it is. *)
Theorem first_occurrence_wins batches i :
  unique_artworks (process_search_folders batches) !! i
    = first_with i (visited batches)
  /\ forall folder t a,
       art_id a = Some i -> is_Some (unique_artworks t !! i) ->
       unique_artworks (process_artwork folder t a) = unique_artworks t.
Proof.
  split.
  - unfold process_search_folders. rewrite process_folders_lookup. cbn.
    by rewrite lookup_empty.
  - intros folder t a. apply process_artwork_absorbed.
Qed.

(** C10. After every run the two tables have the same keys: an art id is
    bound in the table of unique artworks exactly when it is bound in the
    table of folders; an artwork without an art id changes neither. *)
Theorem tables_same_keys batches :
  (forall i : Z,
     is_Some (unique_artworks (process_search_folders batches) !! i)
     <-> is_Some (art_id_to_folders (process_search_folders batches) !! i))
  /\ forall folder t a, art_id a = None -> process_artwork folder t a = t.
Proof.
  split.
  - intros i. rewrite <- !elem_of_dom.
    by rewrite (process_search_folders_same_keys batches).
  - intros folder t a Ha. unfold process_artwork. by rewrite Ha.
Qed.

End ProcessFacts.

(** ** Floats: the share computed by step 3 raises nothing *)

Section FloatFacts.

(** The number of binary digits of a mantissa. *)
Lemma digits2_pos_size p : digits2_pos p = Pos.size p.
Proof. induction p; cbn; by rewrite ?IHp. Qed.

Lemma Zdigits2_log2 m : 0 < m -> Zdigits2 m = Z.log2 m + 1.
Proof.
  destruct m as [|p|p]; [lia| |lia]. intros _. cbn [Zdigits2].
  rewrite digits2_pos_size. destruct p; cbn; lia.
Qed.

Lemma Zdigits2_nonneg m : 0 <= Zdigits2 m.
Proof. destruct m; cbn; lia. Qed.

Lemma Zdigits2_mono a b : 0 <= a <= b -> Zdigits2 a <= Zdigits2 b.
Proof.
  intros [Ha Hab]. destruct (decide (a = 0)) as [->|Hne].
  - apply Zdigits2_nonneg.
  - rewrite !Zdigits2_log2 by lia. pose proof (Z.log2_le_mono a b Hab). lia.
Qed.

Lemma Zdigits2_succ a : 0 <= a -> Zdigits2 (a + 1) <= Zdigits2 a + 1.
Proof.
  intros Ha. destruct (decide (a = 0)) as [->|Hne]; [done|].
  rewrite !Zdigits2_log2 by lia. pose proof (Z.log2_succ_le a).
  unfold Z.succ in *. lia.
Qed.

Lemma Zdigits2_div_pow2 a k :
  0 <= k -> 0 < a / 2 ^ k -> Zdigits2 (a / 2 ^ k) + k <= Zdigits2 a.
Proof.
  intros Hk Hpos.
  assert (0 < a) as Ha.
  { destruct (decide (0 < a)); [done|]. exfalso.
    assert (a / 2 ^ k <= 0); [|lia].
    apply Z.div_le_upper_bound; [apply Z.pow_pos_nonneg; lia|lia]. }
  rewrite !Zdigits2_log2 by lia.
  rewrite <- Z.shiftr_div_pow2 by lia. rewrite Z.log2_shiftr by lia. 
  rewrite <- Z.shiftr_div_pow2 in Hpos by lia.
  assert (k <= Z.log2 a); [|lia].
  destruct (decide (k <= Z.log2 a)); [done|]. exfalso.
  rewrite Z.shiftr_div_pow2 in Hpos by lia.
  assert (a < 2 ^ k).
  { apply Z.log2_lt_pow2; lia. }
  rewrite Z.div_small in Hpos by lia. lia.
Qed.

Lemma div_pow2_pos a k : 0 < a -> 0 <= k < Zdigits2 a -> 0 < a / 2 ^ k.
Proof.
  intros Ha Hk. rewrite Zdigits2_log2 in Hk by lia.
  apply Z.div_str_pos. split; [apply Z.pow_pos_nonneg; lia|].
  apply Z.log2_le_pow2; lia.
Qed.

Lemma Zdigits2_mul a b :
  0 <= a -> 0 <= b -> Zdigits2 (a * b) <= Zdigits2 a + Zdigits2 b.
Proof.
  intros Ha Hb.
  destruct (decide (a = 0)) as [->|]; [rewrite Z.mul_0_l; cbn; apply Zdigits2_nonneg|].
  destruct (decide (b = 0)) as [->|]; [rewrite Z.mul_0_r; cbn; pose proof (Zdigits2_nonneg a); lia|].
  rewrite !Zdigits2_log2 by nia. pose proof (Z.log2_mul_above a b Ha Hb). lia.
Qed.

Lemma Zdigits2_shiftl a k :
  0 < a -> 0 <= k -> Zdigits2 (Z.shiftl a k) = Zdigits2 a + k.
Proof.
  intros Ha Hk.
  assert (0 < Z.shiftl a k).
  { rewrite Z.shiftl_mul_pow2 by lia. apply Z.mul_pos_pos; [lia|]. apply Z.pow_pos_nonneg; lia. }
  rewrite !Zdigits2_log2 by lia. rewrite Z.log2_shiftl by lia. lia.
Qed.

(** Shifting a mantissa right. *)
Lemma shr_1_m mrs : 0 <= shr_m mrs -> shr_m (shr_1 mrs) = shr_m mrs / 2.
Proof.
  destruct mrs as [m r s]. cbn [shr_m]. intros Hm.
  destruct m as [|[p|p|]|p]; cbn [shr_1 shr_m]; try lia; try done.
  - rewrite Pos2Z.inj_xI. apply Z.div_unique with 1; lia.
  - rewrite Pos2Z.inj_xO. apply Z.div_unique with 0; lia.
Qed.

Lemma iter_pos_shr_1_m p mrs :
  0 <= shr_m mrs ->
  shr_m (SpecFloat.iter_pos shr_1 p mrs) = shr_m mrs / 2 ^ Z.pos p.
Proof.
  assert (forall x, 0 <= shr_m x -> 0 <= shr_m (shr_1 x)) as Hnn.
  { intros x Hx. rewrite shr_1_m by done. apply Z.div_pos; lia. }
  revert mrs. induction p as [p IH|p IH|]; intros mrs Hm; cbn [SpecFloat.iter_pos].
  - assert (0 <= shr_m (shr_1 mrs)) as H1 by auto.
    assert (0 <= shr_m (SpecFloat.iter_pos shr_1 p (shr_1 mrs))) as H2.
    { rewrite IH by done. apply Z.div_pos; [done|]. apply Z.pow_pos_nonneg; lia. }
    rewrite IH, IH, shr_1_m by done.
    rewrite !Z.div_div by (try apply Z.pow_pos_nonneg; lia).
    f_equal. rewrite Pos2Z.inj_xI.
    replace (2 * Z.pos p + 1) with (1 + Z.pos p + Z.pos p) by lia.
    rewrite !Z.pow_add_r by lia. change (2 ^ 1) with 2. ring.
  - assert (0 <= shr_m (SpecFloat.iter_pos shr_1 p mrs)) as H2.
    { rewrite IH by done. apply Z.div_pos; [done|]. apply Z.pow_pos_nonneg; lia. }
    rewrite IH, IH by done.
    rewrite !Z.div_div by (try apply Z.pow_pos_nonneg; lia).
    f_equal. rewrite Pos2Z.inj_xO. rewrite <- Z.pow_add_r by lia. f_equal. lia.
  - rewrite shr_1_m by done. done.
Qed.

Lemma shr_spec mrs e n :
  0 <= shr_m mrs ->
  shr_m (shr mrs e n).1 = shr_m mrs / 2 ^ Z.max 0 n
  /\ (shr mrs e n).2 = e + Z.max 0 n.
Proof.
  intros Hm. destruct n as [|p|p]; cbn [shr fst snd].
  - rewrite Z.div_1_r. lia.
  - rewrite iter_pos_shr_1_m by done. split; [f_equal|]; f_equal; lia.
  - cbn. rewrite Z.div_1_r. lia.
Qed.

Lemma shr_record_of_loc_m m l : shr_m (shr_record_of_loc m l) = m.
Proof. by destruct l as [|[]]. Qed.

Lemma round_nearest_even_bounds m l :
  m <= round_nearest_even m l <= m + 1.
Proof. destruct l as [|[]]; cbn; try lia. destruct (Z.even m); lia. Qed.

Lemma binary_round_aux_spec s m e l B :
  0 <= m -> e <= B -> Zdigits2 m + e <= B -> -1074 <= B <= 970 ->
  upper (B + 1) (binary_round_aux prec emax s m e l)
  /\ (0 < m -> -1074 <= e ->
      exists m' e', binary_round_aux prec emax s m e l = S754_finite s m' e'
                    /\ e <= e').
Proof.
  intros Hm He Htop HB. unfold binary_round_aux, shr_fexp.
  set (n1 := fexp prec emax (Zdigits2 m + e) - e).
  destruct (shr_spec (shr_record_of_loc m l) e n1) as [Hm1 He1].
  { by rewrite shr_record_of_loc_m. }
  rewrite shr_record_of_loc_m in Hm1.
  destruct (shr (shr_record_of_loc m l) e n1) as [mrs' e'].
  cbn [fst snd] in Hm1, He1.
  set (m1 := round_nearest_even (shr_m mrs') (loc_of_shr_record mrs')).
  pose proof (round_nearest_even_bounds (shr_m mrs') (loc_of_shr_record mrs'))
    as Hrne. fold m1 in Hrne.
  assert (0 < 2 ^ Z.max 0 n1) as Hp1 by (apply Z.pow_pos_nonneg; lia).
  assert (0 <= shr_m mrs') as Hm' by (rewrite Hm1; by apply Z.div_pos).
  set (n2 := fexp prec emax (Zdigits2 m1 + e') - e').
  destruct (shr_spec (shr_record_of_loc m1 loc_Exact) e' n2) as [Hm2 He2].
  { rewrite shr_record_of_loc_m. lia. }
  rewrite shr_record_of_loc_m in Hm2.
  destruct (shr (shr_record_of_loc m1 loc_Exact) e' n2) as [mrs'' e''].
  cbn [fst snd] in Hm2, He2.
  assert (0 < 2 ^ Z.max 0 n2) as Hp2 by (apply Z.pow_pos_nonneg; lia).
  assert (0 <= shr_m mrs'') as Hm'' by (rewrite Hm2; apply Z.div_pos; lia).
  pose proof (Zdigits2_nonneg m) as Hd0.
  assert (Zdigits2 m1 <= Zdigits2 (shr_m mrs') + 1) as Hd1.
  { etransitivity; [apply (Zdigits2_mono m1 (shr_m mrs' + 1)); lia|].
    by apply Zdigits2_succ. }
  assert (e' <= B /\ e <= e') as [He'B Hee'].
  { unfold n1, fexp, emin, prec, emax in He1. lia. }
  assert (Zdigits2 m1 + e' <= B + 1) as Htop1.
  { destruct (decide (shr_m mrs' = 0)) as [H0|Hne].
    - rewrite H0 in Hd1. cbn in Hd1. lia.
    - pose proof (Zdigits2_div_pow2 m (Z.max 0 n1)) as Hdiv.
      rewrite <- Hm1 in Hdiv. lia. }
  assert (e'' <= B /\ e' <= e'') as [He''B He'e''].
  { unfold n2, fexp, emin, prec, emax in He2. lia. }
  split.
  - destruct (shr_m mrs'') as [|p|p] eqn:Hp; [done| |lia].
    replace (e'' <=? emax - prec) with true by (unfold emax, prec; lia).
    cbn [upper]. split; [lia|].
    pose proof (Zdigits2_div_pow2 m1 (Z.max 0 n2)) as Hdiv.
    rewrite <- Hm2 in Hdiv. lia.
  - intros Hpos Hlow.
    assert (0 < shr_m mrs') as Hpos'.
    { rewrite Hm1. apply div_pow2_pos; [done|].
      assert (1 <= Zdigits2 m) by (rewrite Zdigits2_log2 by done;
        pose proof (Z.log2_nonneg m); lia).
      unfold n1, fexp, emin, prec, emax. lia. }
    assert (0 < m1) as Hpos1 by lia.
    assert (0 < shr_m mrs'') as Hpos''.
    { rewrite Hm2. apply div_pow2_pos; [done|].
      assert (1 <= Zdigits2 m1) by (rewrite Zdigits2_log2 by done;
        pose proof (Z.log2_nonneg m1); lia).
      unfold n2, fexp, emin, prec, emax. lia. }
    destruct (shr_m mrs'') as [|p|p] eqn:Hp; [lia| |lia].
    replace (e'' <=? emax - prec) with true by (unfold emax, prec; lia).
    exists p, e''. split; [done|lia].
Qed.

Lemma pos_iter_xO m d : Z.pos (Pos.iter xO m d) = Z.shiftl (Z.pos m) (Z.pos d).
Proof.
  unfold Z.shiftl. induction d as [|d IH] using Pos.peano_ind; [done|].
  rewrite !Pos.iter_succ, <- IH. done.
Qed.

Lemma shl_align_spec mx ex ex' :
  Zdigits2 (Z.pos (shl_align mx ex ex').1) + (shl_align mx ex ex').2
    = Zdigits2 (Z.pos mx) + ex
  /\ (shl_align mx ex ex').2 = Z.min ex ex'.
Proof.
  unfold shl_align. destruct (ex' - ex) as [|d|d] eqn:Hd; cbn [fst snd];
    [lia|lia|].
  rewrite pos_iter_xO, Zdigits2_shiftl by lia. lia.
Qed.

Lemma float_of_int_spec n :
  0 < n < 2 ^ 60 ->
  exists m e, float_of_int n = Ok (S754_finite false m e)
    /\ -53 <= e /\ upper 61 (S754_finite false m e).
Proof.
  intros Hn. unfold float_of_int.
  assert (2 ^ 60 <= 2 ^ 1024 - 2 ^ 970) by (apply Z.leb_le; by vm_compute).
  replace (2 ^ 1024 - 2 ^ 970 <=? Z.abs n) with false by lia.
  destruct n as [|p|p]; [lia| |lia]. cbn [binary_normalize].
  unfold binary_round.
  pose proof (shl_align_spec p 0 (fexp prec emax (Z.pos (digits2_pos p) + 0)))
    as [Htop Hez].
  destruct (shl_align p 0 _) as [mz ez]. cbn [fst snd] in Htop, Hez.
  assert (1 <= Zdigits2 (Z.pos p) <= 60) as Hd.
  { rewrite Zdigits2_log2 by lia. pose proof (Z.log2_nonneg (Z.pos p)).
    assert (Z.log2 (Z.pos p) < 60) by (apply Z.log2_lt_pow2; lia). lia. }
  change (Z.pos (digits2_pos p)) with (Zdigits2 (Z.pos p)) in Hez.
  unfold fexp, emin, prec, emax in Hez.
  destruct (binary_round_aux_spec false (Z.pos mz) ez loc_Exact 60)
    as [Hup Hfin]; [lia|lia|lia|lia|].
  destruct Hfin as (m' & e' & Heq & Hle); [lia|lia|].
  exists m', e'. rewrite Heq in Hup |- *. split; [done|]. split; [lia|done].
Qed.

Lemma float_of_int_upper n :
  0 <= n < 2 ^ 60 -> exists x, float_of_int n = Ok x /\ upper 61 x.
Proof.
  intros Hn. destruct (decide (n = 0)) as [->|Hne].
  - by exists (S754_zero false).
  - destruct (float_of_int_spec n) as (m & e & -> & _ & Hup); [lia|]. eauto.
Qed.

Lemma truediv_upper a b :
  0 < a < 2 ^ 60 -> 0 < b < 2 ^ 60 ->
  exists x, truediv a b = Ok x /\ upper 115 x.
Proof.
  intros Ha Hb. unfold truediv.
  replace (b =? 0) with false by lia. replace (a =? 0) with false by lia.
  destruct a as [|ma|ma]; [lia| |lia]. destruct b as [|mb|mb]; [lia| |lia].
  change (Z.to_pos (Z.abs (Z.pos ma))) with ma.
  change (Z.to_pos (Z.abs (Z.pos mb))) with mb.
  change (Z.pos ma <? 0) with false. change (Z.pos mb <? 0) with false.
  assert (Zdigits2 (Z.pos ma) <= 60) as Hda.
  { rewrite Zdigits2_log2 by lia.
    assert (Z.log2 (Z.pos ma) < 60) by (apply Z.log2_lt_pow2; lia). lia. }
  pose proof (Zdigits2_nonneg (Z.pos mb)) as Hdb.
  cbv zeta. cbn [SFdiv]. unfold SFdiv_core_binary.
  set (e' := Z.min _ _).
  set (m' := match 0 - 0 - e' with
             | 0 => Z.pos ma
             | Z.pos _ => Z.shiftl (Z.pos ma) (0 - 0 - e')
             | Z.neg _ => 0
             end).
  assert (e' <= 0) as He' by (unfold e'; lia).
  assert (0 <= m' /\ Zdigits2 m' = Zdigits2 (Z.pos ma) + (0 - 0 - e'))
    as [Hm' Hdm'].
  { unfold m'. destruct (0 - 0 - e') as [|s|s] eqn:Hs; [split; lia| |lia].
    rewrite Zdigits2_shiftl by lia. split; [|reflexivity].
    rewrite Z.shiftl_mul_pow2 by lia.
    apply Z.mul_nonneg_nonneg; [lia|]. apply Z.pow_nonneg. lia. }
  pose proof (Z.div_pos m' (Z.pos mb) Hm' ltac:(lia)) as Hq0.
  assert (m' / Z.pos mb <= m') as Hq1.
  { apply Z.div_le_upper_bound; [lia|]. nia. }
  unfold Z.div in Hq0, Hq1.
  destruct (Z.div_eucl m' (Z.pos mb)) as [q r]. cbn [fst] in Hq0, Hq1.
  pose proof (Zdigits2_mono q m' ltac:(lia)) as Hdq.
  destruct (binary_round_aux_spec (xorb false false) q e'
              (new_location (Z.pos mb) r) 114) as [Hup _];
    [lia|lia|lia|lia|].
  change (114 + 1) with 115 in Hup.
  destruct (binary_round_aux prec emax (xorb false false) q e' _);
    cbn [upper] in Hup; [eauto|contradiction|contradiction|].
  eexists. split; [reflexivity|exact Hup].
Qed.

Lemma int_mul_float_upper n x :
  0 <= n < 2 ^ 60 -> upper 115 x ->
  exists y, int_mul_float n x = Ok y /\ upper 177 y.
Proof.
  intros Hn Hx. unfold int_mul_float.
  destruct (float_of_int_upper n Hn) as (fn & -> & Hfn). cbn [bind].
  eexists. split; [done|].
  destruct fn as [s| | |s m e], x as [s'| | |s' m' e']; try done.
  cbn [SFmul]. cbn [upper] in Hfn, Hx.
  pose proof (Zdigits2_mul (Z.pos m) (Z.pos m') ltac:(lia) ltac:(lia)) as Hd.
  destruct (binary_round_aux_spec (xorb s s') (Z.pos (m * m')) (e + e')
              loc_Exact 176) as [Hup _];
    [lia | lia | rewrite Pos2Z.inj_mul; lia | lia | done].
Qed.

Lemma int_of_float_upper B x : upper B x -> exists n, int_of_float x = Ok n.
Proof. destruct x; cbn; [eauto|done|done|eauto]. Qed.

(** Below 2^60 the share computed by step 3 raises nothing. *)
Lemma target_to_add_ok r p t :
  0 <= r < 2 ^ 60 -> 0 < p < 2 ^ 60 -> 0 < t < 2 ^ 60 ->
  exists target, Prune.target_to_add r p t = Ok target.
Proof.
  intros Hr Hp Ht. unfold Prune.target_to_add.
  destruct (truediv_upper p t Hp Ht) as (x & -> & Hx). cbn [bind].
  destruct (int_mul_float_upper r x Hr Hx) as (y & -> & Hy). cbn [bind].
  destruct (int_of_float_upper _ y Hy) as (n & ->). cbn [bind]. eauto.
Qed.

End FloatFacts.

(** ** Selection: facts about [analyze_and_create_subset] *)

Section PruneFacts.

Import Prune.

Context {G : Type} `{Random G}.

Implicit Types (st : state G) (single : list (string * list Z)).
Implicit Types (items : list (Z * string)) (sel : list artwork).

Lemma foldl_select reason items st :
  foldl (select reason) st items =
  State (selected_artworks st ++ (entry reason <$> items))
        (selected_art_ids st ∪ list_to_set items.*1)
        (remaining_slots st) (current_folder_counts st) (rng st) (warnings st).
Proof.
  revert st. induction items as [|it items IH]; intros st; cbn [foldl].
  - destruct st; cbn. f_equal; [by rewrite app_nil_r | set_solver].
  - rewrite IH. unfold select at 1 2 3 4 5 6. cbn.
    f_equal; [by rewrite <- app_assoc | set_solver].
Qed.

Lemma len_nonneg {A} (l : list A) : 0 <= len l.
Proof. unfold len. lia. Qed.

Lemma len_app {A} (l k : list A) : len (l ++ k) = len l + len k.
Proof. unfold len. rewrite length_app. lia. Qed.

Lemma len_fmap {A B} (f : A -> B) (l : list A) : len (f <$> l) = len l.
Proof. unfold len. by rewrite length_fmap. Qed.

Lemma sample_ok {A} (g : G) (l : list A) (k : Z) :
  0 <= k <= len l ->
  exists chosen g', sample g l k = Ok (chosen, g')
    /\ chosen ⊆+ l /\ len chosen = k.
Proof.
  intros Hk. unfold sample.
  replace ((k <? 0) || (len l <? k)) with false by lia.
  destruct (sample_gen g l (Z.to_nat k)) as [chosen g'] eqn:Hs.
  exists chosen, g'. split; [done|].
  assert (Z.to_nat k <= length l)%nat as Hle by (unfold len in Hk; lia).
  pose proof (sample_gen_submseteq _ g l _ Hle) as Hsub.
  pose proof (sample_gen_length _ g l _ Hle) as Hlen.
  rewrite Hs in Hsub, Hlen. cbn in Hsub, Hlen.
  split; [done|]. unfold len. lia.
Qed.

Lemma slice_to_length {A} (l : list A) (n : Z) :
  0 <= n <= len l -> len (slice_to l n) = n.
Proof.
  intros Hn. unfold slice_to. replace (n <? 0) with false by lia.
  unfold len in *. rewrite length_take. lia.
Qed.

Lemma slice_to_sublist {A} (l : list A) (n : Z) : slice_to l n `sublist_of` l.
Proof. unfold slice_to. destruct (n <? 0); apply sublist_take. Qed.

(** *** Step 1 *)

Lemma step1_eq (g : G) an target ws :
  step1 g an target ws =
  State (entry multi_folder <$> multi_folder_artworks an)
        (list_to_set (multi_folder_artworks an).*1)
        (target - len (multi_folder_artworks an)) ∅ g ws.
Proof.
  unfold step1. rewrite foldl_select. cbn.
  rewrite len_fmap. f_equal. set_solver.
Qed.

Lemma clamp_nonpositive total target :
  0 <= total -> target <= 0 -> clamp total target = (target, []).
Proof. intros. unfold clamp. by replace (total <? target) with false by lia. Qed.

(** C4 (as the code has it). A call with a non-positive [target_size]
    raises nothing: no step after the first runs, and the call returns the
    records of the multi-folder artworks, shuffled and cut by the slice
    [[:target_size]], with no warning. *)
Theorem nonpositive_target_returns (g : G) (rows : list row)
    (target_size min_per_search : Z) :
  target_size <= 0 ->
  let sel := entry multi_folder <$> multi_folder_artworks (analyze rows) in
  analyze_and_create_subset g rows target_size min_per_search
  = Ok (Outcome (slice_to (shuffle g sel).1 target_size) [] (shuffle g sel).2).
Proof.
  intros Ht sel. unfold analyze_and_create_subset.
  rewrite clamp_nonpositive by lia.
  rewrite step1_eq. cbn.
  pose proof (len_nonneg (multi_folder_artworks (analyze rows))).
  replace (target_size - len (multi_folder_artworks (analyze rows)) <=? 0)
    with true by lia.
  fold sel. by destruct (shuffle g sel).
Qed.

(** *** The analysis pass *)

Lemma append_to_ids d k v : single_ids (append_to d k v) ≡ₚ single_ids d ++ [v].
Proof.
  unfold single_ids. induction d as [|[k' vs] d IH]; cbn; [done|].
  destruct (String.eqb k' k); cbn.
  - rewrite <- !app_assoc. f_equiv. apply Permutation_app_comm.
  - rewrite IH. by rewrite app_assoc.
Qed.

Lemma append_to_keys d k v k0 :
  k0 ∈ (append_to d k v).*1 -> k0 = k \/ k0 ∈ d.*1.
Proof.
  induction d as [|[k' vs] d IH]; cbn.
  - rewrite list_elem_of_singleton. auto.
  - destruct (String.eqb k' k); cbn; rewrite !elem_of_cons; [auto|].
    intros [->|Hin]; [auto|]. destruct (IH Hin); auto.
Qed.

Lemma analyze_rows_from an rows :
  let an' := foldl analyze_row an rows in
  (multi_folder_artworks an').*1 ++ single_ids (single_folder_artworks an')
    ≡ₚ ((multi_folder_artworks an).*1 ++ single_ids (single_folder_artworks an))
         ++ row_ids rows
  /\ all_artworks an' = all_artworks an ∪ list_to_set (row_ids rows)
  /\ (plain_keys (single_folder_artworks an) ->
      plain_keys (single_folder_artworks an')).
Proof.
  revert an. induction rows as [|r rows IH]; intros an; cbn [foldl].
  - cbn. rewrite app_nil_r. split; [done|]. split; [set_solver|done].
  - destruct (IH (analyze_row an r)) as (Hp & Ha & Hk). cbn zeta.
    split; [|split].
    + rewrite Hp. unfold row_ids. rewrite fmap_cons.
      rewrite cons_middle, app_assoc. f_equiv.
      unfold analyze_row.
      destruct (contains semicolon (strip (row_search_folders r)));
        cbn [multi_folder_artworks single_folder_artworks].
      * rewrite fmap_app. cbn [fmap list_fmap fst].
        rewrite <- !app_assoc. f_equiv. apply Permutation_app_comm.
      * rewrite append_to_ids. by rewrite app_assoc.
    + rewrite Ha. unfold row_ids. rewrite fmap_cons.
      assert (all_artworks (analyze_row an r)
              = all_artworks an ∪ {[row_art_id r]}) as ->.
      { unfold analyze_row. by destruct (contains _ _). }
      set_solver.
    + intros Hpl. apply Hk. unfold analyze_row.
      destruct (contains semicolon (strip (row_search_folders r))) eqn:Hc;
        cbn; [done|].
      intros k Hin. apply append_to_keys in Hin as [->|Hin]; auto.
Qed.

Lemma analyze_ids rows :
  (multi_folder_artworks (analyze rows)).*1
    ++ single_ids (single_folder_artworks (analyze rows)) ≡ₚ row_ids rows.
Proof. by destruct (analyze_rows_from (Analysis [] [] ∅) rows) as (Hp & _). Qed.

Lemma analyze_all rows :
  all_artworks (analyze rows) = list_to_set (row_ids rows).
Proof.
  destruct (analyze_rows_from (Analysis [] [] ∅) rows) as (_ & Ha & _).
  unfold analyze. rewrite Ha. cbn. set_solver.
Qed.

Lemma analyze_plain_keys rows :
  plain_keys (single_folder_artworks (analyze rows)).
Proof.
  destruct (analyze_rows_from (Analysis [] [] ∅) rows) as (_ & _ & Hk).
  apply Hk. intros k Hin. cbn in Hin. by apply elem_of_nil in Hin.
Qed.

Lemma total_available_distinct rows :
  NoDup (row_ids rows) ->
  Z.of_nat (size (all_artworks (analyze rows))) = len rows.
Proof.
  intros Hnd. rewrite analyze_all, size_list_to_set by done.
  unfold len, row_ids. by rewrite length_fmap.
Qed.

(** *** What is left to draw from *)

Lemma pool_fst single (ids : gset Z) :
  (all_remaining_artworks single ids).*1
  = filter (fun i => i ∉ ids) (single_ids single).
Proof.
  unfold all_remaining_artworks, single_ids.
  induction single as [|[k vs] single IH]; [done|].
  rewrite bind_cons, fmap_app, IH. cbn. rewrite filter_app. f_equal.
  rewrite <- list_fmap_compose. cbn. apply list_fmap_id.
Qed.

Lemma pool_folder single (ids : gset Z) it :
  it ∈ all_remaining_artworks single ids -> it.2 ∈ single.*1.
Proof.
  unfold all_remaining_artworks. rewrite list_elem_of_bind.
  intros ([k vs] & Hit & Hin). apply list_elem_of_fmap in Hit as (i & -> & _).
  cbn. apply list_elem_of_fmap. by exists (k, vs).
Qed.

Lemma available_pool single (ids : gset Z) folder :
  ((fun i => (i, folder)) <$> available single ids folder)
    ⊆+ all_remaining_artworks single ids.
Proof.
  unfold available, all_remaining_artworks.
  induction single as [|[k vs] single IH]; cbn [get_list].
  - rewrite filter_nil. apply submseteq_nil_l.
  - rewrite bind_cons. destruct (String.eqb k folder) eqn:Hk.
    + apply String.eqb_eq in Hk as ->. by apply submseteq_inserts_r.
    + by apply submseteq_inserts_l.
Qed.

Lemma available_length single (ids : gset Z) folder :
  len (available single ids folder)
    <= len (all_remaining_artworks single ids).
Proof.
  pose proof (submseteq_length _ _ (available_pool single ids folder)) as Hl.
  rewrite length_fmap in Hl. unfold len. lia.
Qed.

(** *** One draw *)

Lemma add_from_folder_spec reason folder avail to_add st :
  to_add <= len avail ->
  exists chosen g',
    chosen ⊆+ avail /\ len chosen = Z.max 0 to_add /\
    add_from_folder reason folder avail to_add st
    = Ok (State (selected_artworks st ++ drawn reason folder chosen)
                (selected_art_ids st ∪ list_to_set chosen)
                (remaining_slots st - Z.max 0 to_add)
                (if 0 <? to_add
                 then incr (current_folder_counts st) folder to_add
                 else current_folder_counts st)
                g' (warnings st)).
Proof.
  intros Hle. unfold add_from_folder. destruct (0 <? to_add) eqn:Hpos.
  - destruct (sample_ok (rng st) avail to_add)
      as (chosen & g' & Hs & Hsub & Hlen); [lia|].
    exists chosen, g'. rewrite Hs. cbn. rewrite foldl_select. cbn.
    split; [done|]. split; [lia|]. do 2 f_equal; [|lia].
    rewrite <- list_fmap_compose. cbn. by rewrite list_fmap_id.
  - exists [], (rng st). split; [apply submseteq_nil_l|].
    split; [unfold len; cbn [length]; lia|]. destruct st; cbn. rewrite app_nil_r.
    do 2 f_equal; [set_solver | lia].
Qed.

Lemma step2_folder_eq single min_per_search folder st :
  step2_folder single min_per_search folder st
  = add_from_folder min_requirement folder
      (available single (selected_art_ids st) folder)
      (to_add2 single min_per_search folder st) st.
Proof.
  unfold step2_folder, to_add2. cbn zeta.
  by destruct ((0 <? _) && (0 <? _)).
Qed.

Lemma step3_folder_eq single folder_remaining total folder st p target :
  folder_remaining !! folder = Some p ->
  target_to_add (remaining_slots st) p total = Ok target ->
  step3_folder single folder_remaining total folder st
  = add_from_folder proportional folder
      (available single (selected_art_ids st) folder)
      (to_add3 single p target folder st) st.
Proof.
  intros Hp Ht. unfold step3_folder, to_add3. rewrite Hp.
  destruct (0 <? p); [|done]. by rewrite Ht.
Qed.

(** *** What every later step does to the state *)

Lemma add_from_folder_grows single reason folder to_add st :
  reason ∈ later_reasons ->
  to_add <= len (available single (selected_art_ids st) folder) ->
  to_add <= Z.max 0 (remaining_slots st) ->
  exists st',
    add_from_folder reason folder
      (available single (selected_art_ids st) folder) to_add st = Ok st'
    /\ grows single st st' /\ warnings st' = warnings st.
Proof.
  intros Hr Hle Hrem.
  destruct (add_from_folder_spec reason folder _ to_add st Hle)
    as (chosen & g' & Hsub & Hlen & ->).
  eexists. split; [done|]. split; [|done].
  exists ((fun i => (i, folder)) <$> chosen), reason. cbn.
  split; [done|]. split.
  { etransitivity; [|apply available_pool]. by apply fmap_submseteq. }
  rewrite len_fmap. split; [lia|]. split; [done|]. split; [|lia].
  rewrite <- list_fmap_compose. cbn. by rewrite list_fmap_id.
Qed.

Lemma step2_folder_grows single min_per_search folder st :
  exists st', step2_folder single min_per_search folder st = Ok st'
    /\ grows single st st' /\ warnings st' = warnings st.
Proof.
  rewrite step2_folder_eq. apply add_from_folder_grows.
  - unfold later_reasons. set_solver.
  - unfold to_add2. pose proof (len_nonneg (available single (selected_art_ids st) folder)).
    destruct (_ && _); lia.
  - unfold to_add2. destruct (_ && _); lia.
Qed.

Lemma step3_folder_grows single folder_remaining total folder st p target :
  folder_remaining !! folder = Some p ->
  target_to_add (remaining_slots st) p total = Ok target ->
  exists st', step3_folder single folder_remaining total folder st = Ok st'
    /\ grows single st st' /\ warnings st' = warnings st.
Proof.
  intros Hp Ht. rewrite (step3_folder_eq _ _ _ _ _ _ _ Hp Ht).
  apply add_from_folder_grows.
  - unfold later_reasons. set_solver.
  - unfold to_add3. pose proof (len_nonneg (available single (selected_art_ids st) folder)).
    destruct (0 <? p); lia.
  - unfold to_add3. destruct (0 <? p); lia.
Qed.

Lemma step4_grows single st :
  exists st', step4 single st = Ok st' /\ grows single st st'
    /\ (remaining_slots st
          <= len (all_remaining_artworks single (selected_art_ids st))
        -> remaining_slots st' <= 0).
Proof.
  unfold step4. destruct (0 <? remaining_slots st) eqn:Hpos.
  - destruct (remaining_slots st <=? len _) eqn:Hle.
    + destruct (sample_ok (rng st)
                  (all_remaining_artworks single (selected_art_ids st))
                  (remaining_slots st)) as (new & g' & -> & Hsub & Hlen); [lia|].
      cbn. rewrite foldl_select. cbn.
      eexists. split; [done|]. split; [|done].
      exists new, fill_to_target. cbn.
      split; [unfold later_reasons; set_solver|].
      repeat split; [done|lia|lia].
    + eexists. split; [done|]. split; [|cbn; lia].
      exists [], fill_to_target. cbn.
      split; [unfold later_reasons; set_solver|].
      split; [apply submseteq_nil_l|]. change (len (@nil (Z * string))) with 0.
      split; [lia|].
      rewrite app_nil_r. repeat split; [set_solver|lia].
  - exists st. split; [done|]. split; [|lia].
    exists [], fill_to_target. cbn.
    split; [unfold later_reasons; set_solver|].
    split; [apply submseteq_nil_l|]. change (len (@nil (Z * string))) with 0.
    split; [lia|].
    rewrite app_nil_r. repeat split; [set_solver|lia].
Qed.

Lemma grows_refl single st : grows single st st.
Proof.
  exists [], fill_to_target. split; [unfold later_reasons; set_solver|].
  split; [apply submseteq_nil_l|]. change (len (@nil (Z * string))) with 0.
  split; [lia|]. cbn. rewrite app_nil_r. repeat split; [set_solver|lia].
Qed.

(** *** Loops *)

Lemma for_each_preserves {X S} (P : S -> Prop) (body : X -> S -> result S)
    xs s s' :
  (forall x s s', P s -> body x s = Ok s' -> P s') ->
  P s -> for_each body xs s = Ok s' -> P s'.
Proof.
  intros Hbody. revert s. induction xs as [|x xs IH]; intros s Hs; cbn.
  - by intros [= <-].
  - destruct (body x s) as [s1|e] eqn:Hb; cbn; [|done]. eauto.
Qed.

Lemma for_each_total {X S} (P : S -> Prop) (body : X -> S -> result S) xs s :
  (forall x s, x ∈ xs -> P s -> exists s', body x s = Ok s' /\ P s') ->
  P s -> exists s', for_each body xs s = Ok s'.
Proof.
  revert s. induction xs as [|x xs IH]; intros s Hbody Hs; cbn; [eauto|].
  destruct (Hbody x s) as (s1 & -> & Hs1); [by left|done|]. cbn.
  apply IH; [|done]. intros y s2 Hy. apply Hbody. by right.
Qed.

Lemma step2_preserves single P min_per_search st st' :
  kept single P -> P st -> step2 single min_per_search st = Ok st' -> P st'.
Proof.
  intros HP. unfold step2. apply for_each_preserves.
  intros folder s s' Hs Hstep.
  destruct (step2_folder_grows single min_per_search folder s)
    as (s'' & Heq & Hg & _).
  rewrite Heq in Hstep. injection Hstep as <-. eauto.
Qed.

Lemma step3_folder_preserves single P fr total folder st st' :
  kept single P -> P st ->
  step3_folder single fr total folder st = Ok st' -> P st'.
Proof.
  intros HP Hs Hstep.
  destruct (fr !! folder) as [p|] eqn:Hp.
  2:{ unfold step3_folder in Hstep. by rewrite Hp in Hstep. }
  destruct (0 <? p) eqn:Hpos.
  2:{ unfold step3_folder in Hstep. rewrite Hp, Hpos in Hstep.
      by injection Hstep as <-. }
  destruct (target_to_add (remaining_slots st) p total) as [t|e] eqn:Ht.
  2:{ unfold step3_folder in Hstep. by rewrite Hp, Hpos, Ht in Hstep. }
  destruct (step3_folder_grows single fr total folder st p t Hp Ht)
    as (s'' & Heq & Hg & _).
  rewrite Heq in Hstep. injection Hstep as <-. eauto.
Qed.

Lemma step3_preserves single P st st' :
  kept single P -> P st -> step3 single st = Ok st' -> P st'.
Proof.
  intros HP Hs. unfold step3.
  destruct (0 <? remaining_slots st); [|by intros [= <-]].
  destruct (0 <? len _); [|by intros [= <-]].
  destruct (0 <? sum_values _); [|by intros [= <-]].
  apply for_each_preserves; [|done].
  intros folder s s'. by apply step3_folder_preserves.
Qed.

Lemma step4_preserves single P st st' :
  kept single P -> P st -> step4 single st = Ok st' -> P st'.
Proof.
  intros HP Hs Hstep.
  destruct (step4_grows single st) as (s'' & Heq & Hg & _).
  rewrite Heq in Hstep. injection Hstep as <-. eauto.
Qed.

Lemma step2_total single min_per_search st :
  exists st', step2 single min_per_search st = Ok st'.
Proof.
  unfold step2. apply (for_each_total (fun _ => True)); [|done].
  intros folder s _ _.
  destruct (step2_folder_grows single min_per_search folder s) as (s' & -> & _).
  eauto.
Qed.

(** *** The table of remaining counts of step 3 *)

Lemma folder_remaining_lookup (v : string -> Z) (l : list string)
    (d : gmap string Z) (k : string) :
  foldl (fun d f => <[f := v f]> d) d l !! k
  = if decide (k ∈ l) then Some (v k) else d !! k.
Proof.
  revert d. induction l as [|f l IH]; intros d; cbn [foldl].
  - rewrite decide_False; [done|]. apply not_elem_of_nil.
  - rewrite IH. destruct (decide (k ∈ l)) as [Hin|Hnin].
    + rewrite decide_True; [done|]. by right.
    + destruct (decide (k = f)) as [->|Hne].
      * rewrite lookup_insert_eq. rewrite decide_True; [done|]. by left.
      * rewrite lookup_insert_ne by done. rewrite decide_False; [done|].
        rewrite elem_of_cons. tauto.
Qed.

Lemma folder_remaining_size (v : string -> Z) (l : list string)
    (d : gmap string Z) :
  (size (foldl (fun d f => <[f := v f]> d) d l) <= size d + length l)%nat.
Proof.
  revert d. induction l as [|f l IH]; intros d; cbn [foldl length]; [lia|].
  etransitivity; [apply IH|]. rewrite map_size_insert.
  destruct (d !! f); cbn [id]; unfold id; lia.
Qed.

Lemma sum_values_bound (d : gmap string Z) (B : Z) :
  (forall k v, d !! k = Some v -> 0 <= v <= B) ->
  0 <= sum_values d <= B * Z.of_nat (size d).
Proof.
  unfold sum_values.
  apply (map_fold_weak_ind
           (fun r (m : gmap string Z) =>
              (forall k v, m !! k = Some v -> 0 <= v <= B) ->
              0 <= r <= B * Z.of_nat (size m))).
  - intros _. rewrite map_size_empty. lia.
  - intros k v m r Hk IH Hb.
    rewrite map_size_insert_None by done.
    pose proof (Hb k v (lookup_insert_eq _ _ _)) as Hv.
    destruct IH as [IH0 IH1].
    { intros k' v' Hk'. apply (Hb k' v').
      rewrite lookup_insert_ne; [done|]. intros ->. congruence. }
    nia.
Qed.

Lemma available_bound single (ids : gset Z) folder :
  0 <= len (available single ids folder) <= len (single_ids single).
Proof.
  split; [apply len_nonneg|].
  etransitivity; [apply available_length|].
  rewrite <- (len_fmap fst), pool_fst. unfold len.
  pose proof (length_filter (fun i => i ∉ ids) (single_ids single)). lia.
Qed.

Lemma step3_total single st :
  0 <= remaining_slots st < 2 ^ 60 ->
  6 * len (single_ids single) < 2 ^ 60 ->
  exists st', step3 single st = Ok st'.
Proof.
  intros Hrem Hsmall. unfold step3.
  destruct (0 <? remaining_slots st); [|eauto].
  destruct (0 <? len _); [|eauto].
  set (v := fun folder => len (available single (selected_art_ids st) folder)).
  set (fr := foldl _ ∅ search_folders_list).
  destruct (0 <? sum_values fr) eqn:Htot; [|eauto].
  assert (forall k p, fr !! k = Some p -> 0 <= p <= len (single_ids single))
    as Hfr.
  { intros k p. unfold fr.
    rewrite (folder_remaining_lookup v search_folders_list ∅ k).
    case_decide; [|by rewrite lookup_empty].
    intros [= <-]. apply available_bound. }
  pose proof (sum_values_bound fr _ Hfr) as Hsum.
  pose proof (folder_remaining_size v search_folders_list ∅) as Hsize.
  rewrite map_size_empty in Hsize.
  change (foldl _ _ _) with fr in Hsize.
  change (length search_folders_list) with 6%nat in Hsize.
  pose proof (len_nonneg (single_ids single)) as Hl0.
  assert (len (single_ids single) * Z.of_nat (size fr)
          <= len (single_ids single) * 6) as Hmul
    by (apply Z.mul_le_mono_nonneg_l; lia).
  assert (0 < sum_values fr < 2 ^ 60) as Htotal by lia.
  apply (for_each_total (fun s => 0 <= remaining_slots s < 2 ^ 60));
    [|exact Hrem].
  intros folder s Hin Hs.
  assert (is_Some (fr !! folder)) as [p Hp].
  { unfold fr. rewrite (folder_remaining_lookup v search_folders_list ∅).
    rewrite decide_True by exact Hin. eauto. }
  destruct (0 <? p) eqn:Hpos.
  2:{ exists s. unfold step3_folder. rewrite Hp, Hpos.
      split; [reflexivity|exact Hs]. }
  destruct (target_to_add_ok (remaining_slots s) p (sum_values fr))
    as (t & Ht); [exact Hs|specialize (Hfr _ _ Hp); lia|exact Htotal|].
  destruct (step3_folder_grows single fr (sum_values fr) folder s p t Hp Ht)
    as (s' & -> & (new & reason & _ & _ & Hlen & _ & _ & Hr) & _).
  exists s'. split; [reflexivity|]. pose proof (len_nonneg new). lia.
Qed.

(** *** Tags *)

Lemma multi_entry_tagged it : well_tagged (entry multi_folder it).
Proof. split; [by left|done]. Qed.

Lemma tagged_kept single :
  plain_keys single ->
  kept single (fun st => Forall well_tagged (selected_artworks st)).
Proof.
  intros Hpl st st' Hf (new & reason & Hr & Hsub & _ & Hsel & _).
  rewrite Hsel. apply Forall_app. split; [done|].
  apply Forall_fmap, Forall_forall. intros it Hit. split; cbn.
  - unfold later_reasons in Hr. unfold reasons.
    rewrite !elem_of_cons in Hr. rewrite !elem_of_cons. tauto.
  - intros Hc. apply (elem_of_submseteq _ _ _ Hit) in Hsub.
    apply pool_folder, Hpl in Hsub. congruence.
Qed.

(** *** The invariant of the selection *)

Lemma ids_entry reason items : art_id <$> (entry reason <$> items) = items.*1.
Proof. induction items as [|it items IH]; [done|]. cbn. by rewrite IH. Qed.

Lemma submseteq_NoDup {A} (l k : list A) : l ⊆+ k -> NoDup k -> NoDup l.
Proof.
  intros Hsub Hk. apply submseteq_Permutation in Hsub as [k' Hk'].
  rewrite Hk' in Hk. by apply NoDup_app in Hk as (? & _).
Qed.

Lemma filter_none {A} (P : A -> Prop) `{forall x, Decision (P x)} (l : list A) :
  (forall x, x ∈ l -> ~ P x) -> filter P l = [].
Proof.
  induction l as [|x l IH]; intros Hl; [done|].
  rewrite filter_cons_False by (apply Hl; by left).
  apply IH. intros y Hy. apply Hl. by right.
Qed.

Lemma complement_length (l old : list Z) (ids : gset Z) :
  NoDup l -> NoDup old -> (forall i, i ∈ old -> i ∈ l) ->
  ids = list_to_set old ->
  (length (filter (fun i => i ∉ ids) l) + length old = length l)%nat.
Proof.
  intros Hl Hold Hsub ->.
  pose proof (filter_app_complement (fun i => i ∈ (list_to_set old : gset Z)) l)
    as Hc.
  apply Permutation_length in Hc. rewrite length_app in Hc.
  assert (filter (fun i => i ∈ (list_to_set old : gset Z)) l ≡ₚ old) as Hp.
  { apply NoDup_Permutation; [by apply NoDup_filter|done|].
    intros i. rewrite list_elem_of_filter, elem_of_list_to_set. naive_solver. }
  apply Permutation_length in Hp. lia.
Qed.

Lemma single_ids_sub rows i :
  i ∈ single_ids (single_folder_artworks (analyze rows)) -> i ∈ row_ids rows.
Proof.
  intros Hi. rewrite <- (analyze_ids rows). apply elem_of_app. by right.
Qed.

Lemma multi_ids_sub rows i :
  i ∈ (multi_folder_artworks (analyze rows)).*1 -> i ∈ row_ids rows.
Proof.
  intros Hi. rewrite <- (analyze_ids rows). apply elem_of_app. by left.
Qed.

Lemma single_ids_NoDup rows :
  NoDup (row_ids rows) -> NoDup (single_ids (single_folder_artworks (analyze rows))).
Proof.
  intros Hnd. rewrite <- (analyze_ids rows) in Hnd.
  by apply NoDup_app in Hnd as (_ & _ & ?).
Qed.

Lemma multi_ids_NoDup rows :
  NoDup (row_ids rows) -> NoDup (multi_folder_artworks (analyze rows)).*1.
Proof.
  intros Hnd. rewrite <- (analyze_ids rows) in Hnd.
  by apply NoDup_app in Hnd as (? & _).
Qed.

Lemma Inv_kept rows target :
  NoDup (row_ids rows) ->
  kept (single_folder_artworks (analyze rows)) (Inv (G:=G) rows target).
Proof.
  intros Hnd st st' [Hn Hs Hi Hm Hr H0]
    (new & reason & _ & Hsub & Hlen & Hsel & Hids & Hrem).
  assert (new.*1 ⊆+ filter (fun i => i ∉ selected_art_ids st)
                      (single_ids (single_folder_artworks (analyze rows))))
    as Hsub1.
  { rewrite <- pool_fst. by apply fmap_submseteq. }
  assert (art_id <$> selected_artworks st'
          = (art_id <$> selected_artworks st) ++ new.*1) as Hids'.
  { by rewrite Hsel, fmap_app, ids_entry. }
  constructor.
  - rewrite Hids'. apply NoDup_app. split; [done|]. split.
    + intros i Hi1 Hi2. apply (elem_of_submseteq _ _ _ Hi2) in Hsub1.
      apply list_elem_of_filter in Hsub1 as [Hni _]. apply Hni.
      rewrite Hi. by apply elem_of_list_to_set.
    + apply (submseteq_NoDup _ _ Hsub1). apply NoDup_filter.
      by apply single_ids_NoDup.
  - intros i. rewrite Hids', elem_of_app. intros [Hi1|Hi2]; [auto|].
    apply (elem_of_submseteq _ _ _ Hi2) in Hsub1.
    apply list_elem_of_filter in Hsub1 as [_ Hin]. by apply single_ids_sub.
  - rewrite Hids, Hids', Hi. by rewrite list_to_set_app_L.
  - intros i Hin. rewrite Hids. apply elem_of_union. left. auto.
  - rewrite Hrem, Hr, Hsel, len_app, len_fmap. lia.
  - lia.
Qed.

Lemma pool_size rows target st :
  NoDup (row_ids rows) -> Inv rows target st ->
  len (all_remaining_artworks (single_folder_artworks (analyze rows))
         (selected_art_ids st))
  = len rows - len (selected_artworks st).
Proof.
  intros Hnd [Hn Hs Hi Hm Hr H0].
  rewrite <- (len_fmap fst), pool_fst.
  pose proof (complement_length (row_ids rows)
                (art_id <$> selected_artworks st) (selected_art_ids st)
                Hnd Hn Hs Hi) as Hc.
  assert (filter (fun i => i ∉ selected_art_ids st) (row_ids rows)
          ≡ₚ filter (fun i => i ∉ selected_art_ids st)
               (single_ids (single_folder_artworks (analyze rows)))) as Hp.
  { rewrite <- (analyze_ids rows) at 1. rewrite filter_app.
    rewrite (filter_none _ (multi_folder_artworks (analyze rows)).*1); [done|].
    intros i Hin Hni. apply Hni. by apply Hm. }
  apply Permutation_length in Hp.
  unfold len, row_ids in *. rewrite !length_fmap in Hc. lia.
Qed.

(** On a run over distinct art ids step 4 always finds enough artworks:
    its warning branch is not entered. *)
Lemma step4_pool_suffices rows target st :
  NoDup (row_ids rows) -> Inv rows target st -> target <= len rows ->
  remaining_slots st
  <= len (all_remaining_artworks (single_folder_artworks (analyze rows))
            (selected_art_ids st)).
Proof.
  intros Hnd HI Ht. rewrite (pool_size rows target st Hnd HI).
  destruct HI as [_ _ _ _ Hr _]. lia.
Qed.

(** *** The whole run *)

Lemma run_unfold (g : G) rows target_size min_per_search :
  analyze_and_create_subset g rows target_size min_per_search =
  let st1 := after_step1 g rows target_size in
  let single := single_folder_artworks (analyze rows) in
  if remaining_slots st1 <=? 0 then
    Ok (Outcome (slice_to (shuffle g (selected_artworks st1)).1
                          (clamped rows target_size))
                (warnings st1) (shuffle g (selected_artworks st1)).2)
  else
    let! st := step2 single min_per_search st1 in
    let! st := step3 single st in
    let! st := step4 single st in
    Ok (Outcome (shuffle (rng st) (selected_artworks st)).1 (warnings st)
                (shuffle (rng st) (selected_artworks st)).2).
Proof.
  unfold analyze_and_create_subset, after_step1, clamped.
  destruct (clamp _ target_size) as [t ws]. rewrite step1_eq.
  cbn [remaining_slots selected_artworks selected_art_ids rng warnings
       current_folder_counts fst snd].
  destruct (_ <=? 0).
  - by destruct (shuffle g _).
  - destruct (step2 _ _ _) as [st2|]; [cbn [bind]|done].
    destruct (step3 _ st2) as [st3|]; [cbn [bind]|done].
    destruct (step4 _ st3) as [st4|]; [cbn [bind]|done].
    by destruct (shuffle (rng st4) _).
Qed.

Lemma run_late (P : state G -> Prop) (g : G) rows target_size min_per_search out :
  let single := single_folder_artworks (analyze rows) in
  0 < remaining_slots (after_step1 g rows target_size) ->
  kept single P -> P (after_step1 g rows target_size) ->
  analyze_and_create_subset g rows target_size min_per_search = Ok out ->
  exists st3 st4,
    P st3 /\ step4 single st3 = Ok st4 /\ P st4
    /\ returned out ≡ₚ selected_artworks st4.
Proof.
  intros single Hpos HP H1. rewrite run_unfold. cbn zeta. fold single.
  replace (_ <=? 0) with false by lia.
  destruct (step2 single min_per_search _) as [st2|] eqn:H2; [cbn|done].
  destruct (step3 single st2) as [st3|] eqn:H3; [cbn|done].
  destruct (step4 single st3) as [st4|] eqn:H4; [cbn|done].
  intros [= <-]. cbn.
  assert (P st3) as HP3.
  { eapply step3_preserves; [done| |done]. by eapply step2_preserves. }
  exists st3, st4. split; [done|]. split; [done|].
  split; [by eapply step4_preserves|]. apply shuffle_gen_perm.
Qed.

Lemma run_early (g : G) rows target_size min_per_search :
  remaining_slots (after_step1 g rows target_size) <= 0 ->
  exists l g',
    analyze_and_create_subset g rows target_size min_per_search
    = Ok (Outcome (slice_to l (clamped rows target_size))
                  (warnings (after_step1 g rows target_size)) g')
    /\ l ≡ₚ entry multi_folder <$> multi_folder_artworks (analyze rows).
Proof.
  intros Hle. rewrite run_unfold. cbn zeta.
  replace (_ <=? 0) with true by lia.
  eexists _, _. split; [done|]. apply shuffle_gen_perm.
Qed.

Lemma after_step1_Inv (g : G) rows target_size :
  NoDup (row_ids rows) ->
  0 <= remaining_slots (after_step1 g rows target_size) ->
  Inv rows (clamped rows target_size) (after_step1 g rows target_size).
Proof.
  intros Hnd Hpos. constructor; cbn.
  - rewrite ids_entry. by apply multi_ids_NoDup.
  - intros i. rewrite ids_entry. apply multi_ids_sub.
  - by rewrite ids_entry.
  - intros i Hi. by apply elem_of_list_to_set.
  - by rewrite len_fmap.
  - done.
Qed.

(** *** The warnings stay as the clamp left them *)

Lemma step2_warnings single min_per_search st st' :
  step2 single min_per_search st = Ok st' -> warnings st' = warnings st.
Proof.
  unfold step2.
  apply (for_each_preserves (fun s => warnings s = warnings st)); [|done].
  intros folder s s' Hs Hstep.
  destruct (step2_folder_grows single min_per_search folder s)
    as (s'' & Heq & _ & Hw).
  rewrite Heq in Hstep. injection Hstep as <-. by rewrite Hw.
Qed.

Lemma step3_folder_warnings single fr total folder st st' :
  step3_folder single fr total folder st = Ok st' -> warnings st' = warnings st.
Proof.
  intros Hstep.
  destruct (fr !! folder) as [p|] eqn:Hp.
  2:{ unfold step3_folder in Hstep. by rewrite Hp in Hstep. }
  destruct (0 <? p) eqn:Hpos.
  2:{ unfold step3_folder in Hstep. rewrite Hp, Hpos in Hstep.
      by injection Hstep as <-. }
  destruct (target_to_add (remaining_slots st) p total) as [t|e] eqn:Ht.
  2:{ unfold step3_folder in Hstep. by rewrite Hp, Hpos, Ht in Hstep. }
  destruct (step3_folder_grows single fr total folder st p t Hp Ht)
    as (s'' & Heq & _ & Hw).
  rewrite Heq in Hstep. by injection Hstep as <-.
Qed.

Lemma step3_warnings single st st' :
  step3 single st = Ok st' -> warnings st' = warnings st.
Proof.
  unfold step3.
  destruct (0 <? remaining_slots st); [|by intros [= <-]].
  destruct (0 <? len _); [|by intros [= <-]].
  destruct (0 <? sum_values _); [|by intros [= <-]].
  apply (for_each_preserves (fun s => warnings s = warnings st)); [|done].
  intros folder s s' Hs Hstep.
  by rewrite (step3_folder_warnings _ _ _ _ _ _ Hstep).
Qed.

Lemma step4_warnings single st st' :
  remaining_slots st
    <= len (all_remaining_artworks single (selected_art_ids st)) ->
  step4 single st = Ok st' -> warnings st' = warnings st.
Proof.
  intros Hle. unfold step4.
  destruct (0 <? remaining_slots st); [|by intros [= <-]].
  replace (remaining_slots st <=? len _) with true by lia.
  destruct (sample _ _ _) as [[l g']|]; [|done]. cbn [bind].
  intros [= <-]. reflexivity.
Qed.

(** *** Step 4 always finds enough artworks *)




Lemma size_list_to_set_length (l : list Z) :
  (size (list_to_set (C:=gset Z) l) <= length l)%nat.
Proof.
  induction l as [|x l IH]; cbn [list_to_set length].
  - by rewrite size_empty.
  - rewrite size_union_alt, size_singleton.
    assert (list_to_set l ∖ {[x]} ⊆ list_to_set (C:=gset Z) l) as Hsub
      by set_solver.
    apply subseteq_size in Hsub. lia.
Qed.



(** C2. Every record of the returned list carries one of the four reasons
    (the first is written ["multi_folder"] by the script: its folders are
    what the specification calls sources), and every returned record whose
    folder string names several folders carries the multi-folder reason. *)
Theorem selection_reasons (g : G) (rows : list row)
    (target_size min_per_search : Z) (out : outcome G) :
  analyze_and_create_subset g rows target_size min_per_search = Ok out ->
  forall a, a ∈ returned out ->
    selection_reason a ∈ [multi_folder; min_requirement; proportional;
                          fill_to_target]
    /\ (contains semicolon (search_folders a) = true ->
        selection_reason a = multi_folder).
Proof.
  intros Hrun. change (forall a, a ∈ returned out -> well_tagged a).
  apply Forall_forall.
  assert (Forall well_tagged
            (entry multi_folder <$> multi_folder_artworks (analyze rows)))
    as Hmulti.
  { apply Forall_fmap, Forall_forall. intros it _. apply multi_entry_tagged. }
  destruct (decide (remaining_slots (after_step1 g rows target_size) <= 0))
    as [Hle|Hgt].
  - destruct (run_early g rows target_size min_per_search Hle)
      as (l & g' & Heq & Hperm).
    rewrite Heq in Hrun. injection Hrun as <-. cbn.
    rewrite <- Hperm in Hmulti. rewrite Forall_forall in Hmulti.
    apply Forall_forall. intros a Ha. apply Hmulti.
    eapply elem_of_sublist; [done|]. apply slice_to_sublist.
  - destruct (run_late (fun st => Forall well_tagged (selected_artworks st))
                g rows target_size min_per_search out)
      as (st3 & st4 & _ & _ & H4 & Hperm); [lia| |done|done|].
    { apply tagged_kept, analyze_plain_keys. }
    by rewrite Hperm.
Qed.

(** C9. When the rows carry distinct art ids, no art id occurs twice in
    the returned list. *)
Theorem no_duplicate_selection (g : G) (rows : list row)
    (target_size min_per_search : Z) (out : outcome G) :
  NoDup (row_art_id <$> rows) ->
  analyze_and_create_subset g rows target_size min_per_search = Ok out ->
  NoDup (art_id <$> returned out).
Proof.
  intros Hnd Hrun.
  destruct (decide (remaining_slots (after_step1 g rows target_size) <= 0))
    as [Hle|Hgt].
  - destruct (run_early g rows target_size min_per_search Hle)
      as (l & g' & Heq & Hperm).
    rewrite Heq in Hrun. injection Hrun as <-. cbn.
    eapply sublist_NoDup; [|apply fmap_sublist, slice_to_sublist].
    rewrite Hperm, ids_entry. by apply multi_ids_NoDup.
  - destruct (run_late (Inv rows (clamped rows target_size))
                g rows target_size min_per_search out)
      as (st3 & st4 & _ & _ & H4 & Hperm); [lia| | |done|].
    { by apply Inv_kept. }
    { apply after_step1_Inv; [done|lia]. }
    rewrite Hperm. apply H4.
Qed.

Lemma clamped_distinct rows target_size :
  NoDup (row_ids rows) ->
  clamped rows target_size = Z.min target_size (len rows).
Proof.
  intros Hnd. unfold clamped, clamp. rewrite total_available_distinct by done.
  destruct (len rows <? target_size) eqn:Hlt; cbn [fst]; lia.
Qed.

Lemma single_ids_length rows :
  len (single_ids (single_folder_artworks (analyze rows))) <= len rows.
Proof.
  pose proof (Permutation_length (analyze_ids rows)) as Hl.
  rewrite length_app in Hl. unfold row_ids in Hl. rewrite !length_fmap in Hl.
  unfold len. lia.
Qed.

Lemma run_length (g : G) rows target_size min_per_search :
  NoDup (row_ids rows) -> 0 <= target_size -> len rows < 2 ^ 53 ->
  exists out,
    analyze_and_create_subset g rows target_size min_per_search = Ok out
    /\ len (returned out) = Z.min target_size (len rows).
Proof.
  intros Hnd Ht Hsmall. rewrite <- clamped_distinct by done.
  pose proof (clamped_distinct rows target_size Hnd) as Hcl.
  pose proof (len_nonneg rows) as Hrows.
  set (single := single_folder_artworks (analyze rows)).
  set (t := clamped rows target_size) in *.
  destruct (decide (remaining_slots (after_step1 g rows target_size) <= 0))
    as [Hle|Hgt].
  - destruct (run_early g rows target_size min_per_search Hle)
      as (l & g' & -> & Hperm).
    eexists. split; [reflexivity|]. cbn [returned]. apply slice_to_length.
    apply Permutation_length in Hperm. rewrite length_fmap in Hperm.
    cbn in Hle. fold t in Hle. unfold len in *. lia.
  - assert (Inv rows t (after_step1 g rows target_size)) as H1
      by (apply after_step1_Inv; [done|lia]).
    pose proof (Inv_kept rows t Hnd) as Hkept. fold single in Hkept.
    destruct (step2_total single min_per_search (after_step1 g rows target_size))
      as (st2 & E2).
    assert (Inv rows t st2) as H2 by (by eapply step2_preserves).
    pose proof (single_ids_length rows) as Hsl. fold single in Hsl.
    pose proof (len_nonneg (selected_artworks st2)) as Hsel2.
    destruct (step3_total single st2) as (st3 & E3).
    { destruct H2 as [_ _ _ _ Hr H0]. lia. }
    { lia. }
    assert (Inv rows t st3) as H3 by (by eapply step3_preserves).
    destruct (step4_grows single st3) as (st4 & E4 & Hg4 & Hzero).
    assert (Inv rows t st4) as H4 by (by eapply Hkept).
    assert (len (selected_artworks st4) = t) as Hlen.
    { pose proof (pool_size rows t st3 Hnd H3) as Hpool. fold single in Hpool.
      destruct H3 as [_ _ _ _ Hr3 H03]. destruct H4 as [_ _ _ _ Hr4 H04].
      lia. }
    rewrite run_unfold. cbn zeta. fold single.
    replace (_ <=? 0) with false by lia.
    rewrite E2. cbn [bind]. rewrite E3. cbn [bind]. rewrite E4. cbn [bind].
    eexists. split; [reflexivity|]. cbn [returned].
    pose proof (Permutation_length
                  (shuffle_gen_perm _ (rng st4) (selected_artworks st4))) as Hp.
    unfold shuffle, len in *. lia.
Qed.

(** C6. When the rows carry distinct art ids (and [target_size] is not
    negative, and there are fewer than 2^53 rows), the call raises nothing;
    the returned list is no longer than [target_size]; it has exactly
    [target_size] records unless there are fewer rows than that, and then it
    has as many records as there are rows. *)
Theorem selection_size (g : G) (rows : list row)
    (target_size min_per_search : Z) :
  NoDup (row_art_id <$> rows) -> 0 <= target_size -> len rows < 2 ^ 53 ->
  exists out,
    analyze_and_create_subset g rows target_size min_per_search = Ok out
    /\ len (returned out) <= target_size
    /\ (len rows < target_size \/ len (returned out) = target_size)
    /\ (len rows < target_size -> len (returned out) = len rows).
Proof.
  intros Hnd Ht Hsmall.
  destruct (run_length g rows target_size min_per_search Hnd Ht Hsmall)
    as (out & Hrun & Hlen).
  exists out. split; [exact Hrun|]. lia.
Qed.

(** *** Step 3: the shares of the folders *)

(** One turn of the loop of step 3, for a folder whose count in the table
    is positive. *)
Lemma step3_folder_draw single (fr : gmap string Z) (total : Z)
    (folder : string) st (p : Z) :
  fr !! folder = Some p ->
  0 < p < 2 ^ 60 -> 0 < total < 2 ^ 60 -> 0 <= remaining_slots st < 2 ^ 60 ->
  exists share chosen st',
    target_to_add (remaining_slots st) p total = Ok share
    /\ step3_folder single fr total folder st = Ok st'
    /\ chosen ⊆+ available single (selected_art_ids st) folder
    /\ len chosen
       = Z.max 0 (Z.min share
                    (Z.min (len (available single (selected_art_ids st) folder))
                           (remaining_slots st)))
    /\ selected_artworks st'
       = selected_artworks st ++ drawn proportional folder chosen
    /\ remaining_slots st' = remaining_slots st - len chosen.
Proof.
  intros Hp Hpr Htot Hrem.
  destruct (target_to_add_ok (remaining_slots st) p total Hrem Hpr Htot)
    as (share & Hshare).
  rewrite (step3_folder_eq single fr total folder st p share Hp Hshare).
  pose proof (len_nonneg (available single (selected_art_ids st) folder)) as Ha.
  destruct (add_from_folder_spec proportional folder
              (available single (selected_art_ids st) folder)
              (to_add3 single p share folder st) st)
    as (chosen & g' & Hsub & Hlen & Heq).
  { unfold to_add3. destruct (0 <? p); lia. }
  exists share, chosen. eexists. split; [exact Hshare|].
  split; [exact Heq|]. split; [exact Hsub|].
  assert (to_add3 single p share folder st
          = Z.min share
              (Z.min (len (available single (selected_art_ids st) folder))
                     (remaining_slots st))) as Hto.
  { unfold to_add3. by replace (0 <? p) with true by lia. }
  cbn [selected_artworks remaining_slots]. rewrite <- Hto.
  split; [exact Hlen|]. split; [reflexivity|]. lia.
Qed.

Lemma for_each_app {X S} (body : X -> S -> result S) (l1 l2 : list X) (s : S) :
  for_each body (l1 ++ l2) s
  = let! s1 := for_each body l1 s in for_each body l2 s1.
Proof.
  revert s. induction l1 as [|x l1 IH]; intros s; cbn [app for_each bind].
  - done.
  - destruct (body x s) as [s1|]; cbn [bind]; [apply IH|done].
Qed.

Lemma for_each_total_inv {X S} (P : S -> Prop) (body : X -> S -> result S)
    xs s :
  (forall x s, x ∈ xs -> P s -> exists s', body x s = Ok s' /\ P s') ->
  P s -> exists s', for_each body xs s = Ok s' /\ P s'.
Proof.
  revert s. induction xs as [|x xs IH]; intros s Hbody Hs; cbn; [eauto|].
  destruct (Hbody x s) as (s1 & -> & Hs1); [by left|done|]. cbn.
  apply IH; [|done]. intros y s2 Hy. apply Hbody. by right.
Qed.

Lemma sum_values_insert (d : gmap string Z) k v :
  d !! k = None -> sum_values (<[k := v]> d) = sum_values d + v.
Proof.
  intros Hk. unfold sum_values.
  rewrite (map_fold_insert_L (fun _ v acc => acc + v)); [done| |done].
  intros. lia.
Qed.

Lemma sum_values_table (v : string -> Z) (l : list string) (d : gmap string Z) :
  NoDup l -> (forall k, k ∈ l -> d !! k = None) ->
  sum_values (foldl (fun d f => <[f := v f]> d) d l)
  = sum_values d + foldr (fun f acc => v f + acc) 0 l.
Proof.
  revert d. induction l as [|f l IH]; intros d Hnd Hd; cbn [foldl foldr].
  - lia.
  - apply NoDup_cons in Hnd as [Hf Hnd]. rewrite IH; [|done|].
    + rewrite sum_values_insert by (apply Hd; by left). lia.
    + intros k Hk. rewrite lookup_insert_ne by (by intros ->).
      apply Hd. by right.
Qed.

Lemma search_folders_NoDup : NoDup search_folders_list.
Proof.
  apply (bool_decide_unpack (NoDup search_folders_list)). vm_compute. exact I.
Qed.

Lemma sum_values_folder_remaining single st :
  sum_values (folder_remaining_of single st) = total_pool single st.
Proof.
  unfold folder_remaining_of, total_pool.
  rewrite (sum_values_table (pool single st)).
  - unfold sum_values. rewrite map_fold_empty. lia.
  - apply search_folders_NoDup.
  - intros k _. apply lookup_empty.
Qed.

Lemma folder_remaining_of_lookup single st f :
  f ∈ search_folders_list ->
  folder_remaining_of single st !! f = Some (pool single st f).
Proof.
  intros Hf. unfold folder_remaining_of.
  rewrite (folder_remaining_lookup (pool single st)). by rewrite decide_True.
Qed.

Lemma len_all_remaining single (ids : gset Z) (l : list string) :
  len (l ≫= (fun folder =>
               (fun art_id => (art_id, folder)) <$> available single ids folder))
  = foldr (fun f acc => len (available single ids f) + acc) 0 l.
Proof.
  induction l as [|f l IH]; [done|]. cbn [mbind list_bind foldr].
  change (len (((fun art_id => (art_id, f)) <$> available single ids f)
               ++ (l ≫= (fun folder =>
                     (fun art_id => (art_id, folder))
                       <$> available single ids folder)))
          = len (available single ids f)
            + foldr (fun f acc => len (available single ids f) + acc) 0 l).
  by rewrite len_app, len_fmap, IH.
Qed.

Lemma pool_le_total single st f :
  f ∈ search_folders_list -> 0 <= pool single st f <= total_pool single st.
Proof.
  unfold total_pool. generalize search_folders_list. intros l Hf.
  assert (forall l, 0 <= foldr (fun f acc => pool single st f + acc) 0 l)
    as Hnn.
  { intros l'. induction l' as [|x l' IH]; cbn [foldr]; [lia|].
    pose proof (len_nonneg (available single (selected_art_ids st) x)).
    unfold pool at 1. lia. }
  pose proof (len_nonneg (available single (selected_art_ids st) f)) as H0.
  fold (pool single st f) in H0. split; [exact H0|].
  induction l as [|x l IH]; [by apply elem_of_nil in Hf|]. cbn [foldr].
  apply elem_of_cons in Hf as [->|Hf].
  - specialize (Hnn l). lia.
  - specialize (IH Hf).
    pose proof (len_nonneg (available single (selected_art_ids st) x)).
    unfold pool at 2. lia.
Qed.

(** Step 3 is the loop over the six folders, with the table and the total
    taken when it starts. *)
Lemma step3_loop single st :
  0 < remaining_slots st -> 0 < total_pool single st ->
  step3 single st
  = for_each (step3_folder single (folder_remaining_of single st)
                (total_pool single st))
             search_folders_list st.
Proof.
  intros Hrem Htot. unfold step3.
  replace (0 <? remaining_slots st) with true by lia.
  rewrite len_all_remaining.
  change (foldr _ 0 search_folders_list) with (total_pool single st).
  replace (0 <? total_pool single st) with true by lia.
  change (foldl _ ∅ search_folders_list) with (folder_remaining_of single st).
  rewrite sum_values_folder_remaining.
  by replace (0 <? total_pool single st) with true by lia.
Qed.

Lemma step3_turn_total single st folder s :
  0 < total_pool single st < 2 ^ 60 -> folder ∈ search_folders_list ->
  0 <= remaining_slots s < 2 ^ 60 ->
  exists s',
    step3_folder single (folder_remaining_of single st) (total_pool single st)
      folder s = Ok s'
    /\ 0 <= remaining_slots s' < 2 ^ 60.
Proof.
  intros Htot Hf Hs.
  pose proof (folder_remaining_of_lookup single st folder Hf) as Hp.
  pose proof (pool_le_total single st folder Hf) as Hle.
  destruct (decide (0 < pool single st folder)) as [Hpos|Hpos].
  - destruct (step3_folder_draw single _ (total_pool single st) folder s _ Hp)
      as (share & chosen & s' & _ & E & _ & Hlen & _ & Hrem);
      [lia|lia|exact Hs|].
    exists s'. split; [exact E|]. pose proof (len_nonneg chosen). lia.
  - exists s. split; [|exact Hs]. unfold step3_folder. rewrite Hp.
    by replace (0 <? pool single st folder) with false by lia.
Qed.

(** C7 (as the code has it). Step 3, entered with slots open, visits the
    six folders [search_1] to [search_6] in this order.  The pool of a
    folder is the number of its unselected single-folder art ids when
    step 3 starts, and the total is the sum of the six pools.  When the
    turn of a folder with a non-empty pool comes, its share is computed in
    binary64 arithmetic from the slots then open: with [x] the double
    [remaining_slots * (pool / total)], it is [int(x)], plus one when
    [x % 1 > 0.5]; the number of art ids drawn for the folder is that share
    capped by the art ids of the folder then unselected and by the slots
    then open (nothing is drawn when that is not positive), and each is
    recorded with the reason [proportional].  A folder with an empty pool
    gets nothing. *)
Theorem proportional_draw single st (folder : string)
    (before after : list string) :
  let p := pool single st folder in
  let total := total_pool single st in
  let turn := step3_folder single (folder_remaining_of single st) total in
  search_folders_list = before ++ folder :: after ->
  0 < remaining_slots st < 2 ^ 60 -> 0 < total < 2 ^ 60 ->
  exists s s' st',
    step3 single st = for_each turn search_folders_list st
    /\ step3 single st = Ok st'
    /\ for_each turn before st = Ok s
    /\ turn folder s = Ok s'
    /\ for_each turn after s' = Ok st'
    /\ (p <= 0 -> s' = s)
    /\ (0 < p ->
        exists share chosen,
          target_to_add (remaining_slots s) p total = Ok share
          /\ chosen ⊆+ available single (selected_art_ids s) folder
          /\ len chosen
             = Z.max 0 (Z.min share
                          (Z.min (len (available single (selected_art_ids s)
                                         folder))
                                 (remaining_slots s)))
          /\ selected_artworks s'
             = selected_artworks s ++ drawn proportional folder chosen
          /\ remaining_slots s' = remaining_slots s - len chosen).
Proof.
  intros p total turn Hsplit Hrem Htot.
  assert (forall f, f ∈ search_folders_list ->
                    forall s, 0 <= remaining_slots s < 2 ^ 60 ->
                    exists s', turn f s = Ok s'
                               /\ 0 <= remaining_slots s' < 2 ^ 60) as Hturn
    by (intros f Hf s Hs; by apply step3_turn_total).
  assert (folder ∈ search_folders_list) as Hf
    by (rewrite Hsplit; apply elem_of_app; right; by left).
  destruct (for_each_total_inv (fun s => 0 <= remaining_slots s < 2 ^ 60)
              turn before st) as (s & Es & Hs); [|lia|].
  { intros f s0 Hin. apply Hturn. rewrite Hsplit. apply elem_of_app. by left. }
  destruct (Hturn folder Hf s Hs) as (s' & Es' & Hs').
  destruct (for_each_total_inv (fun s => 0 <= remaining_slots s < 2 ^ 60)
              turn after s') as (st' & Est' & _); [|exact Hs'|].
  { intros f s0 Hin. apply Hturn. rewrite Hsplit. apply elem_of_app. right.
    by right. }
  assert (for_each turn search_folders_list st = Ok st') as Eall.
  { rewrite Hsplit, for_each_app, Es. cbn [bind for_each].
    rewrite Es'. cbn [bind]. exact Est'. }
  exists s, s', st'.
  split; [apply step3_loop; lia|]. split.
  { rewrite step3_loop by lia. exact Eall. }
  split; [exact Es|]. split; [exact Es'|]. split; [exact Est'|].
  pose proof (folder_remaining_of_lookup single st folder Hf) as Hp.
  fold p in Hp. split.
  - intros Hle. revert Es'. unfold turn, step3_folder. rewrite Hp.
    replace (0 <? p) with false by lia. by intros [= <-].
  - intros Hpos. pose proof (pool_le_total single st folder Hf) as Hle.
    fold p total in Hle.
    destruct (step3_folder_draw single _ total folder s p Hp)
      as (share & chosen & s'' & Hshare & E & Hsub & Hlen & Hsel & Hr);
      [lia|lia|exact Hs|].
    fold turn in E. rewrite Es' in E. injection E as <-.
    exists share, chosen. done.
Qed.

(** *** Step 2: the minimum per search folder *)

Lemma incr_lookup (c : gmap string Z) k n f :
  default 0 (incr c k n !! f)
  = default 0 (c !! f) + (if decide (k = f) then n else 0).
Proof.
  unfold incr. destruct (decide (k = f)) as [->|Hne].
  - by rewrite lookup_insert_eq.
  - rewrite lookup_insert_ne by done. lia.
Qed.

Lemma foldl_incr_lookup (c : gmap string Z) (fs : list string) f :
  default 0 (foldl (fun c f => incr c f 1) c fs !! f)
  = default 0 (c !! f) + len (filter (fun x => x = f) fs).
Proof.
  revert c. induction fs as [|x fs IH]; intros c; cbn [foldl].
  - change (len _) with 0. lia.
  - rewrite IH, incr_lookup. destruct (decide (x = f)) as [->|Hne].
    + rewrite filter_cons_True by done. unfold len. cbn [length]. lia.
    + rewrite filter_cons_False by done. lia.
Qed.

Lemma filter_eq_NoDup (fs : list string) f :
  NoDup fs ->
  len (filter (fun x => x = f) fs) = if decide (f ∈ fs) then 1 else 0.
Proof.
  induction 1 as [|x fs Hx Hnd IH]; [done|].
  destruct (decide (x = f)) as [->|Hne].
  - rewrite filter_cons_True by done.
    rewrite decide_True by (by left).
    rewrite decide_False in IH by done. unfold len in *. cbn [length]. lia.
  - rewrite filter_cons_False by done. rewrite IH.
    destruct (decide (f ∈ fs)) as [Hin|Hnin].
    + rewrite decide_True; [done|]. by right.
    + rewrite decide_False; [done|]. rewrite elem_of_cons. naive_solver.
Qed.

Lemma count_for_cons folder a sel :
  count_for folder (a :: sel)
  = (if decide (attributed folder a) then 1 else 0) + count_for folder sel.
Proof.
  unfold count_for. destruct (decide (attributed folder a)).
  - rewrite filter_cons_True by done. unfold len. cbn [length]. lia.
  - rewrite filter_cons_False by done. lia.
Qed.

Lemma count_for_app folder sel1 sel2 :
  count_for folder (sel1 ++ sel2) = count_for folder sel1 + count_for folder sel2.
Proof. unfold count_for. by rewrite filter_app, len_app. Qed.

Lemma count_for_nonneg folder sel : 0 <= count_for folder sel.
Proof. apply len_nonneg. Qed.

(** Under duplicate-free folder strings the running counts of lines 117
    to 121 are the numbers of records. *)
Lemma count_folders_from (c : gmap string Z) sel f :
  Forall (fun a => NoDup (folders_of (search_folders a))) sel ->
  default 0
    (foldl (fun c a => foldl (fun c f => incr c f 1) c
                         (folders_of (search_folders a))) c sel !! f)
  = default 0 (c !! f) + count_for f sel.
Proof.
  intros Hwf. revert c. induction Hwf as [|a sel Ha Hwf IH]; intros c;
    cbn [foldl].
  - change (count_for f []) with 0. lia.
  - rewrite IH, foldl_incr_lookup, count_for_cons, (filter_eq_NoDup _ _ Ha).
    unfold attributed. destruct (decide (f ∈ _)); lia.
Qed.

Lemma folders_of_search f :
  f ∈ search_folders_list -> folders_of f = [f].
Proof.
  unfold search_folders_list. rewrite !elem_of_cons, elem_of_nil.
  intros [->|[->|[->|[->|[->|[->|[]]]]]]]; reflexivity.
Qed.

Lemma count_for_drawn reason folder chosen :
  folder ∈ search_folders_list ->
  count_for folder (drawn reason folder chosen) = len chosen.
Proof.
  intros Hf. unfold drawn. induction chosen as [|i chosen IH]; [done|].
  rewrite !fmap_cons, count_for_cons, IH.
  rewrite decide_True.
  - unfold len. cbn [length]. lia.
  - unfold attributed, entry. cbn [search_folders snd].
    rewrite (folders_of_search _ Hf). by left.
Qed.

Lemma get_list_sub single f i :
  i ∈ get_list single f -> i ∈ single_ids single.
Proof.
  unfold single_ids. induction single as [|[k vs] single IH]; cbn.
  - by intros ?%elem_of_nil.
  - rewrite elem_of_app. destruct (String.eqb k f); auto.
Qed.

Lemma get_list_disjoint single h f i :
  h <> f -> NoDup (single_ids single) ->
  i ∈ get_list single h -> i ∈ get_list single f -> False.
Proof.
  intros Hne. unfold single_ids.
  induction single as [|[k vs] single IH]; cbn.
  - by intros _ ?%elem_of_nil.
  - intros (Hvs & Hdis & Hrest)%NoDup_app.
    destruct (String.eqb k h) eqn:Hkh, (String.eqb k f) eqn:Hkf.
    + apply String.eqb_eq in Hkh, Hkf. congruence.
    + intros Hi Hi'%get_list_sub. by apply (Hdis i).
    + intros Hi%get_list_sub Hi'. by apply (Hdis i).
    + by apply IH.
Qed.

Lemma total_demand_ext single min_per_search st st' l :
  (forall f, f ∈ l ->
     demand single min_per_search st' f = demand single min_per_search st f) ->
  total_demand single min_per_search st' l
  = total_demand single min_per_search st l.
Proof.
  induction l as [|f l IH]; intros Hl; [done|].
  change (demand single min_per_search st' f
          + total_demand single min_per_search st' l
          = demand single min_per_search st f
            + total_demand single min_per_search st l).
  rewrite IH by (intros f' Hf'; apply Hl; by right).
  by rewrite Hl by (by left).
Qed.

Lemma demand_nonneg single min_per_search st f :
  0 <= demand single min_per_search st f.
Proof.
  unfold demand, shortfall.
  pose proof (len_nonneg (available single (selected_art_ids st) f)). lia.
Qed.

Lemma filter_in_ext {A} (P Q : A -> Prop) `{forall x, Decision (P x)}
    `{forall x, Decision (Q x)} (l : list A) :
  (forall x, x ∈ l -> P x <-> Q x) -> filter P l = filter Q l.
Proof.
  induction l as [|x l IH]; intros Hl; [done|].
  rewrite !filter_cons, IH by (intros y Hy; apply Hl; by right).
  destruct (decide (P x)) as [Hp|Hp], (decide (Q x)) as [Hq|Hq]; try done.
  - destruct Hq. by apply (Hl x); [left|].
  - destruct Hp. by apply (Hl x); [left|].
Qed.

(** Art ids drawn for one folder leave the unselected art ids of another
    folder as they are. *)
Lemma available_other single (ids : gset Z) (chosen : list Z) h f :
  h <> f -> NoDup (single_ids single) ->
  chosen ⊆+ available single ids h ->
  available single (ids ∪ list_to_set chosen) f = available single ids f.
Proof.
  intros Hne Hnd Hsub. unfold available. apply filter_in_ext.
  intros i Hi. rewrite not_elem_of_union, elem_of_list_to_set.
  split; [by intros [? _]|]. intros Hni. split; [done|]. intros Hc.
  apply (elem_of_submseteq _ _ _ Hc) in Hsub.
  apply list_elem_of_filter in Hsub as [_ Hc'].
  by apply (get_list_disjoint single h f i).
Qed.

Lemma count_for_kept single folder (n : Z) :
  kept single (fun st => n <= count_for folder (selected_artworks st)).
Proof.
  intros st st' Hn (new & reason & _ & _ & _ & Hsel & _).
  rewrite Hsel, count_for_app.
  pose proof (count_for_nonneg folder (entry reason <$> new)). lia.
Qed.

Lemma step2_loop_preserves single P min_per_search l st st' :
  kept single P -> P st ->
  for_each (step2_folder single min_per_search) l st = Ok st' -> P st'.
Proof.
  intros HP. apply for_each_preserves.
  intros folder s s' Hs Hstep.
  destruct (step2_folder_grows single min_per_search folder s)
    as (s'' & Heq & Hg & _).
  rewrite Heq in Hstep. injection Hstep as <-. eauto.
Qed.

Lemma step2_loop_total single min_per_search l st :
  exists st', for_each (step2_folder single min_per_search) l st = Ok st'.
Proof.
  apply (for_each_total (fun _ => True)); [|done].
  intros folder s _ _.
  destruct (step2_folder_grows single min_per_search folder s) as (s' & -> & _).
  eauto.
Qed.

Lemma to_add2_le_available single min_per_search folder st :
  to_add2 single min_per_search folder st
  <= len (available single (selected_art_ids st) folder).
Proof.
  unfold to_add2.
  pose proof (len_nonneg (available single (selected_art_ids st) folder)).
  destruct (_ && _); lia.
Qed.

Lemma to_add2_le_shortfall single min_per_search folder st :
  Z.max 0 (to_add2 single min_per_search folder st)
  <= shortfall min_per_search st folder.
Proof. unfold to_add2, shortfall. destruct (_ && _); lia. Qed.

Lemma step2_folder_state single min_per_search folder st :
  exists chosen g',
    chosen ⊆+ available single (selected_art_ids st) folder
    /\ len chosen = Z.max 0 (to_add2 single min_per_search folder st)
    /\ step2_folder single min_per_search folder st
       = Ok (State (selected_artworks st ++ drawn min_requirement folder chosen)
                   (selected_art_ids st ∪ list_to_set chosen)
                   (remaining_slots st
                    - Z.max 0 (to_add2 single min_per_search folder st))
                   (if 0 <? to_add2 single min_per_search folder st
                    then incr (current_folder_counts st) folder
                           (to_add2 single min_per_search folder st)
                    else current_folder_counts st)
                   g' (warnings st)).
Proof.
  rewrite step2_folder_eq. apply add_from_folder_spec, to_add2_le_available.
Qed.

Lemma filter_all {A} (P : A -> Prop) `{forall x, Decision (P x)} (l : list A) :
  (forall x, x ∈ l -> P x) -> filter P l = l.
Proof.
  induction l as [|x l IH]; intros Hl; [done|].
  rewrite filter_cons_True by (apply Hl; by left).
  f_equal. apply IH. intros y Hy. apply Hl. by right.
Qed.

Lemma step2_reaches_minimum single min_per_search folder after :
  NoDup (single_ids single) -> folder ∈ search_folders_list ->
  min_per_search <= len (get_list single folder) ->
  forall before st,
    NoDup (before ++ [folder]) ->
    (forall i, i ∈ get_list single folder -> i ∉ selected_art_ids st) ->
    default 0 (current_folder_counts st !! folder)
      <= count_for folder (selected_artworks st) ->
    (0 < shortfall min_per_search st folder ->
     total_demand single min_per_search st before
       + shortfall min_per_search st folder <= remaining_slots st) ->
    exists st',
      for_each (step2_folder single min_per_search)
               (before ++ folder :: after) st = Ok st'
      /\ min_per_search <= count_for folder (selected_artworks st').
Proof.
  intros Hnds Hf Hcand. induction before as [|h before IH];
    intros st Hnd J1 J2 Hbud.
  - cbn [app for_each].
    destruct (step2_folder_state single min_per_search folder st)
      as (chosen & g' & Hsub & Hlen & ->). cbn [bind].
    set (st' := State _ _ _ _ _ _).
    assert (min_per_search <= count_for folder (selected_artworks st')) as Hmin.
    { cbn [st' selected_artworks].
      rewrite count_for_app, count_for_drawn, Hlen by done.
      assert (available single (selected_art_ids st) folder
              = get_list single folder) as Hav.
      { unfold available. by apply filter_all. }
      pose proof (count_for_nonneg folder (selected_artworks st)).
      change (total_demand single min_per_search st []) with 0 in Hbud.
      unfold to_add2. rewrite Hav. unfold shortfall in Hbud.
      destruct (_ && _) eqn:Hguard; lia. }
    destruct (step2_loop_total single min_per_search after st') as (st'' & E).
    exists st''. split; [exact E|].
    by eapply (step2_loop_preserves single
                 (fun s => min_per_search
                           <= count_for folder (selected_artworks s)));
      [apply count_for_kept| |exact E].
  - cbn [app for_each].
    apply NoDup_cons in Hnd as [Hh Hnd].
    assert (h <> folder) as Hne.
    { intros ->. apply Hh, elem_of_app. right. by left. }
    destruct (step2_folder_state single min_per_search h st)
      as (chosen & g' & Hsub & Hlen & ->). cbn [bind].
    set (st' := State _ _ _ _ _ _).
    assert (forall f, f <> h ->
              current_folder_counts st' !! f = current_folder_counts st !! f)
      as Hcounts.
    { intros f Hfh. cbn [st' current_folder_counts].
      destruct (0 <? _); [|done]. unfold incr.
      by rewrite lookup_insert_ne by done. }
    assert (forall f, f <> h ->
              demand single min_per_search st' f
              = demand single min_per_search st f) as Hdem.
    { intros f Hfh. unfold demand, shortfall. rewrite Hcounts by done.
      cbn [st' selected_art_ids]. by rewrite (available_other single _ _ h f). }
    apply IH; [done| | |].
    + cbn [st' selected_art_ids].
      intros i Hi. rewrite not_elem_of_union. split; [by apply J1|].
      rewrite elem_of_list_to_set. intros Hc.
      apply (elem_of_submseteq _ _ _ Hc) in Hsub.
      apply list_elem_of_filter in Hsub as [_ Hc'].
      by apply (get_list_disjoint single h folder i).
    + rewrite Hcounts by done. cbn [st' selected_artworks].
      rewrite count_for_app.
      pose proof (count_for_nonneg folder (drawn min_requirement h chosen)).
      lia.
    + unfold shortfall at 1 2. rewrite Hcounts by done.
      fold (shortfall min_per_search st folder). intros Hpos.
      specialize (Hbud Hpos).
      change (demand single min_per_search st h
              + total_demand single min_per_search st before
              + shortfall min_per_search st folder
              <= remaining_slots st) in Hbud.
      rewrite (total_demand_ext single min_per_search st st' before).
      2:{ intros f Hfin. apply Hdem. intros ->. apply Hh, elem_of_app. by left. }
      cbn [st' remaining_slots].
      assert (Z.max 0 (to_add2 single min_per_search h st)
              <= demand single min_per_search st h) as Hle.
      { pose proof (demand_nonneg single min_per_search st h) as Hd.
        unfold demand, shortfall, to_add2 in *. destruct (_ && _); lia. }
      lia.
Qed.

Lemma analyze_multi_from (Q : string -> Prop) an rows :
  Forall (fun it => Q it.2) (multi_folder_artworks an) ->
  Forall (fun r => Q (strip (row_search_folders r))) rows ->
  Forall (fun it => Q it.2) (multi_folder_artworks (foldl analyze_row an rows)).
Proof.
  intros Han Hrows. revert an Han.
  induction Hrows as [|r rows Hr Hrows IH]; intros an Han; cbn [foldl]; [done|].
  apply IH. unfold analyze_row. destruct (contains _ _); cbn; [|done].
  apply Forall_app. split; [done|]. by constructor.
Qed.

(** C3 (as the code has it). For each of the six folder names step 2
    iterates over: when the rows carry distinct art ids and name no folder
    twice in one folder string, the folder has at least [min_per_search]
    single-folder artworks, and the budget allows, then after step 2 at
    least [min_per_search] selected records count for the folder.  The
    budget allows when the folder lacks nothing, or the slots left after
    step 1 cover what the folders before it take (each what it lacks, but
    no more than its single-folder artworks) and what this folder lacks. *)
Theorem minimum_per_search_folder (g : G) (rows : list row)
    (target_size min_per_search : Z) (folder : string)
    (before after : list string) :
  let st1 := after_step1 g rows target_size in
  let single := single_folder_artworks (analyze rows) in
  NoDup (row_art_id <$> rows) ->
  (forall r, r ∈ rows -> NoDup (folders_of (strip (row_search_folders r)))) ->
  search_folders_list = before ++ folder :: after ->
  min_per_search <= len (get_list single folder) ->
  (0 < shortfall min_per_search st1 folder ->
   total_demand single min_per_search st1 before
     + shortfall min_per_search st1 folder <= remaining_slots st1) ->
  exists st2,
    step2 single min_per_search st1 = Ok st2
    /\ min_per_search <= count_for folder (selected_artworks st2).
Proof.
  intros st1 single Hnd Hwf Hsplit Hcand Hbud. unfold step2. rewrite Hsplit.
  assert (NoDup search_folders_list) as Hndl
    by (apply (bool_decide_unpack (NoDup search_folders_list));
        vm_compute; exact I).
  apply step2_reaches_minimum.
  - by apply single_ids_NoDup.
  - rewrite Hsplit. apply elem_of_app. right. by left.
  - exact Hcand.
  - rewrite Hsplit in Hndl. apply NoDup_app in Hndl as (Hb & Hdis & Ha).
    apply NoDup_app. split; [done|]. split; [|apply NoDup_singleton].
    intros f Hfb ->%list_elem_of_singleton. apply (Hdis folder Hfb). by left.
  - intros i Hi. cbn. rewrite elem_of_list_to_set. intros Hm.
    pose proof Hnd as Hnd'. fold (row_ids rows) in Hnd'.
    rewrite <- (analyze_ids rows) in Hnd'.
    apply NoDup_app in Hnd' as (_ & Hdis & _).
    apply (Hdis i Hm). by apply (get_list_sub _ folder).
  - cbn [st1 after_step1 current_folder_counts selected_artworks].
    unfold count_folders. rewrite count_folders_from.
    + rewrite lookup_empty. cbn [default]. lia.
    + apply Forall_fmap.
      apply (analyze_multi_from
               (fun sf => NoDup (folders_of sf)) (Analysis [] [] ∅) rows);
        [by constructor|].
      apply Forall_forall. intros r Hr. by apply Hwf.
  - exact Hbud.
Qed.

End PruneFacts.

(** ** Runs on concrete inputs *)

Section Examples.

Import Prune Rot.

Lemma run_ab : analyze_and_create_subset 0%nat rows_ab 4 1 = Ok out_ab.
Proof. vm_compute. reflexivity. Qed.

Lemma rows_ab_distinct : NoDup (row_art_id <$> rows_ab).
Proof. apply (bool_decide_unpack (NoDup (row_art_id <$> rows_ab))). vm_compute. exact I. Qed.

(** C4, counterexample. With target 0 the call returns an empty list, with
    target -1 it returns one record; neither raises. *)
Lemma nonpositive_target_example :
  analyze_and_create_subset 0%nat rows_ab 0 1 = Ok (Outcome [] [] 1%nat)
  /\ analyze_and_create_subset 0%nat rows_ab (-1) 1
     = Ok (Outcome [Artwork 2 "search_1;search_2" "multi_folder"] [] 1%nat).
Proof. split; vm_compute; reflexivity. Qed.

Lemma nonpositive_target_witness :
  0 <= 0
  /\ let sel := entry multi_folder <$> multi_folder_artworks (analyze rows_ab) in
     analyze_and_create_subset 0%nat rows_ab 0 1
     = Ok (Outcome (slice_to (shuffle 0%nat sel).1 0) []
                   (shuffle 0%nat sel).2).
Proof.
  split; [reflexivity|].
  apply (nonpositive_target_returns 0%nat rows_ab 0 1). reflexivity.
Defined.

(** C3, counterexample. The folder [search_7] has two single-folder
    artworks and two slots are open, yet with a minimum of 1 step 2 selects
    nothing for it. *)
Lemma search_7_example :
  let st1 := after_step1 0%nat rows_seven 2 in
  let single := single_folder_artworks (analyze rows_seven) in
  get_list single "search_7" = [1; 2]
  /\ remaining_slots st1 = 2
  /\ exists st2, step2 single 1 st1 = Ok st2
       /\ selected_artworks st2 = []
       /\ count_for "search_7" (selected_artworks st2) = 0.
Proof.
  cbn zeta. split; [vm_compute; reflexivity|]. split; [vm_compute; reflexivity|].
  eexists. split; [vm_compute; reflexivity|]. split; reflexivity.
Qed.


Lemma rows_three_distinct : NoDup (row_art_id <$> rows_three).
Proof. apply (bool_decide_unpack (NoDup (row_art_id <$> rows_three))). vm_compute. exact I. Qed.

Lemma minimum_per_search_folder_witness :
  let st1 := after_step1 0%nat rows_three 3 in
  let single := single_folder_artworks (analyze rows_three) in
  search_folders_list
    = ["search_1"%string] ++ "search_2"%string
        :: ["search_3"; "search_4"; "search_5"; "search_6"]%string
  /\ 3 <= len (get_list single "search_2")
  /\ (0 < shortfall 3 st1 "search_2" ->
      total_demand single 3 st1 ["search_1"%string]
        + shortfall 3 st1 "search_2" <= remaining_slots st1)
  /\ exists st2, step2 single 3 st1 = Ok st2
       /\ 3 <= count_for "search_2" (selected_artworks st2).
Proof.
  cbn zeta. split; [reflexivity|].
  split; [vm_compute; discriminate|].
  split; [intros _; vm_compute; discriminate|].
  apply (minimum_per_search_folder 0%nat rows_three 3 3 "search_2"
           ["search_1"%string]
           ["search_3"; "search_4"; "search_5"; "search_6"]%string).
  - exact rows_three_distinct.
  - apply Forall_forall.
    apply (bool_decide_unpack
             (Forall (fun r => NoDup (folders_of (strip (row_search_folders r))))
                     rows_three)).
    vm_compute. exact I.
  - reflexivity.
  - vm_compute. discriminate.
  - intros _. vm_compute. discriminate.
Defined.

(** C7, counterexample. With 25 slots, 7 art ids in [search_1] and 50 in
    all, the exact product is 3.5, so the share worded in the specification
    is 3; the double product is 3.5000000000000004 and the script draws 4
    art ids for [search_1].  And a folder that is not one of the six gets
    nothing in step 3: with one slot and two art ids, both in [search_7],
    the share worded in the specification is 1, and the script returns no
    record with the reason [proportional]. *)
Lemma proportional_draw_example :
  claimed_allocation 25 7 50 = 3
  /\ target_to_add 25 7 50 = Ok 4
  /\ remaining_slots (after_step1 (seed 42) rows_fifty 25) = 25
  /\ (exists out,
        analyze_and_create_subset (seed 42) rows_fifty 25 0 = Ok out
        /\ len (filter (fun a => search_folders a = "search_1"%string
                                 /\ selection_reason a = proportional)
                       (returned out)) = 4)
  /\ claimed_allocation 1 2 2 = 1
  /\ exists out,
       analyze_and_create_subset (seed 42) rows_seven 1 0 = Ok out
       /\ filter (fun a => selection_reason a = proportional) (returned out)
          = [].
Proof.
  split; [reflexivity|]. split; [vm_compute; reflexivity|].
  split; [vm_compute; reflexivity|]. split.
  { eexists. split; [vm_compute; reflexivity|]. vm_compute. reflexivity. }
  split; [reflexivity|].
  eexists. split; [vm_compute; reflexivity|]. vm_compute. reflexivity.
Qed.

Lemma proportional_draw_witness :
  let p := pool single_fifty st_fifty "search_1" in
  let total := total_pool single_fifty st_fifty in
  let turn :=
    step3_folder single_fifty (folder_remaining_of single_fifty st_fifty)
                 total in
  search_folders_list
    = [] ++ "search_1"%string
         :: ["search_2"; "search_3"; "search_4"; "search_5"; "search_6"]%string
  /\ 0 < remaining_slots st_fifty < 2 ^ 60 /\ 0 < total < 2 ^ 60
  /\ exists s s' st',
       step3 single_fifty st_fifty = for_each turn search_folders_list st_fifty
       /\ step3 single_fifty st_fifty = Ok st'
       /\ for_each turn [] st_fifty = Ok s
       /\ turn "search_1"%string s = Ok s'
       /\ for_each turn
             ["search_2"; "search_3"; "search_4"; "search_5"; "search_6"]%string
             s' = Ok st'
       /\ (p <= 0 -> s' = s)
       /\ (0 < p ->
           exists share chosen,
             target_to_add (remaining_slots s) p total = Ok share
             /\ chosen ⊆+ available single_fifty (selected_art_ids s) "search_1"
             /\ len chosen
                = Z.max 0 (Z.min share
                             (Z.min (len (available single_fifty
                                            (selected_art_ids s) "search_1"))
                                    (remaining_slots s)))
             /\ selected_artworks s'
                = selected_artworks s ++ drawn proportional "search_1" chosen
             /\ remaining_slots s' = remaining_slots s - len chosen).
Proof.
  assert (0 < remaining_slots st_fifty < 2 ^ 60) as Hrem
    by (split; vm_compute; reflexivity).
  assert (0 < total_pool single_fifty st_fifty < 2 ^ 60) as Htot
    by (split; vm_compute; reflexivity).
  cbn zeta. split; [reflexivity|]. split; [exact Hrem|]. split; [exact Htot|].
  apply (proportional_draw single_fifty st_fifty "search_1" []
           ["search_2"; "search_3"; "search_4"; "search_5"; "search_6"]%string
           eq_refl Hrem Htot).
Defined.

Lemma selection_reasons_witness :
  analyze_and_create_subset 0%nat rows_ab 4 1 = Ok out_ab
  /\ forall a, a ∈ returned out_ab ->
       selection_reason a ∈ [multi_folder; min_requirement; proportional;
                             fill_to_target]
       /\ (contains semicolon (search_folders a) = true ->
           selection_reason a = multi_folder).
Proof.
  split; [vm_compute; reflexivity|].
  apply (selection_reasons 0%nat rows_ab 4 1 out_ab). vm_compute. reflexivity.
Defined.

Lemma no_duplicate_selection_witness :
  NoDup (row_art_id <$> rows_ab)
  /\ analyze_and_create_subset 0%nat rows_ab 4 1 = Ok out_ab
  /\ NoDup (art_id <$> returned out_ab).
Proof.
  split; [exact rows_ab_distinct|]. split; [vm_compute; reflexivity|].
  apply (no_duplicate_selection 0%nat rows_ab 4 1 out_ab).
  - exact rows_ab_distinct.
  - vm_compute. reflexivity.
Defined.

Lemma selection_size_witness :
  NoDup (row_art_id <$> rows_ab) /\ 0 <= 3 /\ len rows_ab < 2 ^ 53
  /\ exists out,
       analyze_and_create_subset 0%nat rows_ab 3 1 = Ok out
       /\ len (returned out) <= 3
       /\ (len rows_ab < 3 \/ len (returned out) = 3)
       /\ (len rows_ab < 3 -> len (returned out) = len rows_ab).
Proof.
  split; [exact rows_ab_distinct|]. split; [vm_compute; discriminate|].
  split; [reflexivity|].
  apply (selection_size 0%nat rows_ab 3 1).
  - exact rows_ab_distinct.
  - vm_compute. discriminate.
  - reflexivity.
Defined.

End Examples.

(** ** Reconciliation: the table of folders *)

Section ProcessProvenance.

Import Process ProcessOut.

Context {payload : Type}.

Implicit Types (t : tables payload) (a : artwork payload).
Implicit Types (l : list (artwork payload)).
Implicit Types (batches : list (string * list (artwork payload))).

Lemma process_artwork_folders folder t a i :
  art_id_to_folders (process_artwork folder t a) !! i =
  match art_id a with
  | Some j =>
      if decide (j = i)
      then Some (if bool_decide (folder ∈ provenance t i) then provenance t i
                 else provenance t i ++ [folder])
      else art_id_to_folders t !! i
  | None => art_id_to_folders t !! i
  end.
Proof.
  unfold process_artwork, provenance. destruct (art_id a) as [j|]; [|done].
  unfold getitem_default.
  destruct (art_id_to_folders t !! j) as [fs|] eqn:Hj.
  - destruct (decide (j = i)) as [->|Hne].
    + rewrite Hj. cbn [default].
      do 2 case_bool_decide; try done; cbn;
        first [exact Hj | by rewrite lookup_insert_eq].
    + case_bool_decide; cbn; [done|]. by rewrite lookup_insert_ne.
  - rewrite bool_decide_eq_false_2 by apply not_elem_of_nil. cbn.
    destruct (decide (j = i)) as [->|Hne].
    + rewrite Hj. cbn [default].
      rewrite bool_decide_eq_false_2 by apply not_elem_of_nil.
      by rewrite lookup_insert_eq.
    + by rewrite !lookup_insert_ne.
Qed.

Lemma process_artwork_provenance folder t a i f :
  f ∈ provenance (process_artwork folder t a) i
  <-> f ∈ provenance t i \/ (art_id a = Some i /\ f = folder).
Proof.
  unfold provenance at 1. rewrite process_artwork_folders.
  destruct (art_id a) as [j|]; [|fold (provenance t i); naive_solver].
  destruct (decide (j = i)) as [->|Hne];
    [|fold (provenance t i); naive_solver].
  cbn [default]. case_bool_decide as Hin; unfold id.
  - split; [auto|]. intros [?|[_ ->]]; done.
  - rewrite elem_of_app, list_elem_of_singleton. naive_solver.
Qed.

Lemma process_artworks_provenance folder l t i f :
  f ∈ provenance (foldl (process_artwork folder) t l) i
  <-> f ∈ provenance t i \/ (f = folder /\ exists a, a ∈ l /\ art_id a = Some i).
Proof.
  revert t. induction l as [|a l IH]; intros t; cbn [foldl].
  - split; [auto|]. intros [?|(_ & a & Ha & _)]; [done|].
    by apply elem_of_nil in Ha.
  - rewrite IH, process_artwork_provenance. split.
    + intros [[?|[Ha ->]]|(-> & b & Hb & Hi)]; [auto| |].
      * right. split; [done|]. exists a. split; [by left|done].
      * right. split; [done|]. exists b. split; [by right|done].
    + intros [?|(-> & b & Hb & Hi)]; [auto|].
      apply elem_of_cons in Hb as [->|Hb]; [auto|].
      right. split; [done|]. eauto.
Qed.

Lemma process_folders_provenance batches t i f :
  f ∈ provenance (foldl process_folder t batches) i
  <-> f ∈ provenance t i \/ appears batches f i.
Proof.
  revert t. induction batches as [|[folder l] batches IH]; intros t;
    cbn [foldl].
  - split; [auto|]. intros [?|(l & a & Hin & _)]; [done|].
    by apply elem_of_nil in Hin.
  - rewrite IH. unfold process_folder at 1. cbn [fst snd].
    rewrite process_artworks_provenance. unfold appears. split.
    + intros [[?|(-> & a & Ha & Hi)]|(l' & a & Hin & Ha & Hi)]; [auto| |].
      * right. exists l, a. split; [by left|done].
      * right. exists l', a. split; [by right|done].
    + intros [?|(l' & a & Hin & Ha & Hi)]; [auto|].
      apply elem_of_cons in Hin as [[= -> ->]|Hin]; [|right; eauto].
      left. right. eauto.
Qed.

(** X1. The folders recorded for an art id are exactly the names of the
    batches in which some artwork carries that id. *)
Theorem provenance_complete batches (i : Z) (folder : string) :
  folder ∈ provenance (process_search_folders batches) i
  <-> appears batches folder i.
Proof.
  unfold process_search_folders. rewrite process_folders_provenance.
  unfold provenance at 1. cbn. rewrite lookup_empty. cbn.
  split; [intros [?%elem_of_nil|?]; done|auto].
Qed.

Lemma process_artwork_tidy folder t a : tidy t -> tidy (process_artwork folder t a).
Proof.
  intros Ht i fs. rewrite process_artwork_folders.
  destruct (art_id a) as [j|]; [|apply Ht].
  destruct (decide (j = i)) as [->|Hne]; [|apply Ht].
  intros [= <-]. unfold provenance.
  destruct (art_id_to_folders t !! i) as [fs|] eqn:Hi; cbn [default].
  - destruct (Ht i fs Hi) as [Hnd Hne]. case_bool_decide; [done|]. split.
    + apply NoDup_app. split; [done|]. split; [|apply NoDup_singleton].
      intros x Hx ->%list_elem_of_singleton. done.
    + by destruct fs.
  - rewrite bool_decide_eq_false_2 by apply not_elem_of_nil.
    split; [apply NoDup_singleton|done].
Qed.

Lemma process_search_folders_tidy batches :
  tidy (process_search_folders batches).
Proof.
  unfold process_search_folders.
  assert (tidy (Tables (payload:=payload) ∅ ∅)) as H0.
  { intros i fs. cbn. by rewrite lookup_empty. }
  revert H0. generalize (Tables (payload:=payload) ∅ ∅).
  induction batches as [|[f l] batches IH]; intros t Ht; cbn [foldl]; [done|].
  apply IH. unfold process_folder. cbn [fst snd]. clear IH.
  revert t Ht. induction l as [|a l IHl]; intros t Ht; cbn [foldl]; [done|].
  apply IHl. by apply process_artwork_tidy.
Qed.

(** X2. Every list of folders in the table is free of duplicates and not
    empty. *)
Theorem provenance_tidy batches (i : Z) (fs : list string) :
  art_id_to_folders (process_search_folders batches) !! i = Some fs ->
  NoDup fs /\ fs <> [].
Proof. apply process_search_folders_tidy. Qed.

Lemma process_artwork_recorded folder t a f i :
  recorded t f i -> recorded (process_artwork folder t a) f i.
Proof.
  intros [Hu Hf]. split.
  - rewrite process_artwork_lookup. by destruct Hu as [x ->].
  - apply process_artwork_provenance. auto.
Qed.

Lemma process_artwork_records folder t a i :
  art_id a = Some i -> recorded (process_artwork folder t a) folder i.
Proof.
  intros Hi. split.
  - rewrite process_artwork_lookup.
    destruct (unique_artworks t !! i); [done|]. by rewrite decide_True.
  - apply process_artwork_provenance. auto.
Qed.

Lemma process_artwork_absorbs folder t a i :
  art_id a = Some i -> recorded t folder i -> process_artwork folder t a = t.
Proof.
  intros Hi [[x Hx] Hf]. unfold process_artwork. rewrite Hi, Hx.
  unfold provenance in Hf. unfold getitem_default.
  destruct (art_id_to_folders t !! i) as [fs|]; [|by apply elem_of_nil in Hf].
  cbn [default] in Hf. rewrite bool_decide_eq_true_2 by done. by destruct t.
Qed.

Lemma process_artworks_covers folder l t f i :
  recorded t f i \/ (f = folder /\ exists a, a ∈ l /\ art_id a = Some i) ->
  recorded (foldl (process_artwork folder) t l) f i.
Proof.
  revert t. induction l as [|a l IH]; intros t; cbn [foldl].
  - intros [?|(_ & a & Ha & _)]; [done|]. by apply elem_of_nil in Ha.
  - intros [Hr|(-> & b & Hb & Hi)]; apply IH.
    + left. by apply process_artwork_recorded.
    + apply elem_of_cons in Hb as [->|Hb].
      * left. by apply process_artwork_records.
      * right. eauto.
Qed.

Lemma process_folders_covers batches t f i :
  recorded t f i \/ appears batches f i ->
  recorded (foldl process_folder t batches) f i.
Proof.
  revert t. induction batches as [|[folder l] batches IH]; intros t;
    cbn [foldl].
  - intros [?|(l & a & Hin & _)]; [done|]. by apply elem_of_nil in Hin.
  - intros [Hr|(l' & a & Hin & Ha & Hi)]; apply IH.
    + left. apply process_artworks_covers. auto.
    + apply elem_of_cons in Hin as [[= -> ->]|Hin].
      * left. apply process_artworks_covers. right. eauto.
      * right. exists l', a. auto.
Qed.

Lemma process_folders_absorbed extra t batches :
  covers t batches -> (forall b, b ∈ extra -> b ∈ batches) ->
  foldl process_folder t extra = t.
Proof.
  intros Hc. induction extra as [|[folder l] extra IH]; intros Hsub;
    cbn [foldl]; [done|].
  assert ((folder, l) ∈ batches) as Hin by (apply Hsub; by left).
  assert (process_folder t (folder, l) = t) as ->.
  { unfold process_folder. cbn [fst snd].
    assert (forall a, a ∈ l -> a ∈ l) as Hl by done. revert Hl.
    generalize l at 1 3. intros l0.
    induction l0 as [|a l0 IHl]; intros Hl; cbn [foldl]; [done|].
    assert (process_artwork folder t a = t) as ->.
    { destruct (art_id a) as [i|] eqn:Hi.
      - apply (process_artwork_absorbs folder t a i Hi).
        apply Hc. exists l, a. split; [done|]. split; [|done].
        apply Hl. by left.
      - unfold process_artwork. by rewrite Hi. }
    apply IHl. intros b Hb. apply Hl. by right. }
  apply IH. intros b Hb. apply Hsub. by right.
Qed.

(** X3. Batches that were already processed change nothing when they are
    processed again: both tables stay as they are. *)
Theorem reprocessing_changes_nothing batches
    (extra : list (string * list (artwork payload))) :
  (forall b, b ∈ extra -> b ∈ batches) ->
  process_search_folders (batches ++ extra) = process_search_folders batches.
Proof.
  intros Hsub. unfold process_search_folders. rewrite foldl_app.
  apply (process_folders_absorbed extra _ batches); [|done].
  intros f i Hap. apply process_folders_covers. by right.
Qed.

End ProcessProvenance.

(** ** Reconciliation: the order of the keys and the two outputs *)

Section ProcessExports.

Import Process ProcessOut.

Context {payload : Type}.

Implicit Types (t : tables payload) (a : artwork payload).
Implicit Types (l seen : list (artwork payload)) (order : list Z).
Implicit Types (batches : list (string * list (artwork payload))).

Lemma process_artwork_unique folder t a :
  unique_artworks (process_artwork folder t a) =
  match art_id a with
  | Some i =>
      match unique_artworks t !! i with
      | None => <[i := a]> (unique_artworks t)
      | Some _ => unique_artworks t
      end
  | None => unique_artworks t
  end.
Proof.
  unfold process_artwork. destruct (art_id a); [|done].
  by destruct (getitem_default _ _).
Qed.

Lemma values_insert_other (d : gmap Z (artwork payload)) order i a :
  i ∉ order -> values (<[i := a]> d) order = values d order.
Proof.
  unfold values. induction order as [|j order IH]; intros Hi; [done|].
  apply not_elem_of_cons in Hi as [Hne Hi]. cbn.
  rewrite lookup_insert_ne by done. by rewrite IH.
Qed.

Lemma process_artwork_ordered folder t order seen a :
  ordered t order seen ->
  ordered (process_artwork_order folder (t, order) a).1
          (process_artwork_order folder (t, order) a).2 (seen ++ [a]).
Proof.
  intros [Hnd Hk Hi Hs]. unfold process_artwork_order. cbn [fst snd].
  destruct (art_id a) as [i|] eqn:Ha.
  2:{ constructor.
      - exact Hnd.
      - intros j. rewrite process_artwork_unique, Ha. apply Hk.
      - intros j b. rewrite process_artwork_unique, Ha. apply Hi.
      - rewrite process_artwork_unique, Ha. by apply sublist_inserts_r. }
  destruct (unique_artworks t !! i) as [x|] eqn:Hx.
  - constructor.
    + exact Hnd.
    + intros j. rewrite process_artwork_unique, Ha, Hx. apply Hk.
    + intros j b. rewrite process_artwork_unique, Ha, Hx. apply Hi.
    + rewrite process_artwork_unique, Ha, Hx. by apply sublist_inserts_r.
  - assert (i ∉ order) as Hni.
    { rewrite Hk, Hx. by intros [? ?]. }
    constructor.
    + apply NoDup_app. split; [done|]. split; [|apply NoDup_singleton].
      intros j Hj ->%list_elem_of_singleton. done.
    + intros j. rewrite process_artwork_unique, Ha, Hx.
      rewrite elem_of_app, list_elem_of_singleton, Hk.
      destruct (decide (i = j)) as [->|Hne].
      * rewrite lookup_insert_eq. naive_solver.
      * rewrite lookup_insert_ne by done. naive_solver.
    + intros j b. rewrite process_artwork_unique, Ha, Hx.
      destruct (decide (i = j)) as [->|Hne].
      * rewrite lookup_insert_eq. by intros [= <-].
      * rewrite lookup_insert_ne by done. apply Hi.
    + rewrite process_artwork_unique, Ha, Hx.
      unfold values. rewrite omap_app. cbn. rewrite lookup_insert_eq. cbn.
      fold (values (<[i:=a]> (unique_artworks t)) order).
      rewrite values_insert_other by done. by apply sublist_app.
Qed.

Lemma process_artwork_order_fst folder t order a :
  (process_artwork_order folder (t, order) a).1 = process_artwork folder t a.
Proof. done. Qed.

Lemma process_artworks_ordered folder l t order seen :
  ordered t order seen ->
  (foldl (process_artwork_order folder) (t, order) l).1
    = foldl (process_artwork folder) t l
  /\ ordered (foldl (process_artwork_order folder) (t, order) l).1
             (foldl (process_artwork_order folder) (t, order) l).2
             (seen ++ l).
Proof.
  revert t order seen. induction l as [|a l IH]; intros t order seen Ho;
    cbn [foldl].
  - by rewrite app_nil_r.
  - pose proof (process_artwork_ordered folder t order seen a Ho) as Ho'.
    destruct (process_artwork_order folder (t, order) a) as [t' order'] eqn:E.
    assert (t' = process_artwork folder t a) as Ht'.
    { by rewrite <- (process_artwork_order_fst folder t order a), E. }
    cbn [fst snd] in Ho'. destruct (IH t' order' (seen ++ [a]) Ho') as [E1 Ho''].
    rewrite <- app_assoc in Ho''. cbn [app] in Ho''.
    split; [by rewrite E1, Ht' | exact Ho''].
Qed.

Lemma process_folders_ordered batches t order seen :
  ordered t order seen ->
  (foldl process_folder_order (t, order) batches).1
    = foldl process_folder t batches
  /\ ordered (foldl process_folder_order (t, order) batches).1
             (foldl process_folder_order (t, order) batches).2
             (seen ++ visited batches).
Proof.
  revert t order seen.
  induction batches as [|[f l] batches IH]; intros t order seen Ho;
    cbn [foldl].
  - unfold visited. cbn. by rewrite app_nil_r.
  - destruct (process_artworks_ordered f l t order seen Ho) as [E1 Ho'].
    change (process_folder_order (t, order) (f, l))
      with (foldl (process_artwork_order f) (t, order) l).
    change (process_folder t (f, l)) with (foldl (process_artwork f) t l).
    destruct (foldl (process_artwork_order f) (t, order) l) as [t' order'].
    cbn [fst snd] in E1, Ho'. subst t'.
    destruct (IH _ order' (seen ++ l) Ho') as [E2 Ho''].
    split; [exact E2|].
    replace (seen ++ visited ((f, l) :: batches))
      with ((seen ++ l) ++ visited batches); [exact Ho''|].
    unfold visited. cbn. by rewrite app_assoc.
Qed.

Lemma process_search_folders_ordered batches :
  (process_search_folders_order batches).1 = process_search_folders batches
  /\ ordered (process_search_folders_order batches).1
             (process_search_folders_order batches).2 (visited batches).
Proof.
  apply (process_folders_ordered batches (Tables ∅ ∅) [] []).
  constructor; cbn.
  - apply NoDup_nil_2.
  - intros i. rewrite lookup_empty, elem_of_nil. split; [done|by intros [? ?]].
  - intros i a. by rewrite lookup_empty.
  - by apply sublist_nil_l.
Qed.

Lemma values_ids t order seen :
  ordered t order seen ->
  art_id <$> values (unique_artworks t) order = Some <$> order.
Proof.
  intros [_ Hk Hi _]. unfold values.
  assert (forall i, i ∈ order -> is_Some (unique_artworks t !! i)) as Hk'
    by (intros i; apply Hk).
  clear Hk. induction order as [|i order IH]; [done|]. cbn.
  destruct (Hk' i) as [a Ha]; [by left|]. rewrite Ha. cbn.
  rewrite (Hi i a Ha). f_equal. apply IH. intros j Hj. apply Hk'. by right.
Qed.

Lemma values_first_with t order seen i :
  ordered t order seen ->
  first_with i (values (unique_artworks t) order) = unique_artworks t !! i.
Proof.
  intros [Hnd Hk Hi _].
  assert (first_with i (values (unique_artworks t) order)
          = if decide (i ∈ order) then unique_artworks t !! i else None) as ->.
  { clear Hnd.
    assert (forall j, j ∈ order -> is_Some (unique_artworks t !! j)) as Hk'
      by (intros j; apply Hk).
    clear Hk. unfold values. induction order as [|j order IH].
    - by rewrite decide_False by apply not_elem_of_nil.
    - destruct (Hk' j) as [a Ha]; [by left|].
      change (omap (λ i0, unique_artworks t !! i0) (j :: order))
        with (match unique_artworks t !! j with
              | Some y => y :: omap (λ i0, unique_artworks t !! i0) order
              | None => omap (λ i0, unique_artworks t !! i0) order
              end).
      rewrite Ha, first_with_cons, (Hi j a Ha).
      destruct (decide (j = i)) as [->|Hne].
      + rewrite decide_True by done. rewrite decide_True by (by left). done.
      + rewrite decide_False by congruence.
        rewrite IH by (intros k Hk; apply Hk'; by right).
        destruct (decide (i ∈ order)) as [Hin|Hnin].
        * rewrite decide_True; [done|]. by right.
        * rewrite decide_False; [done|]. rewrite elem_of_cons. naive_solver. }
  case_decide as Hin; [done|]. symmetry. apply eq_None_not_Some.
  by rewrite <- Hk.
Qed.

Lemma ordered_size t order seen :
  ordered t order seen ->
  size (unique_artworks t) = length order
  /\ length (values (unique_artworks t) order) = length order.
Proof.
  intros Ho. split.
  - destruct Ho as [Hnd Hk _ _].
    rewrite <- size_dom. unfold size, set_size. cbn.
    apply Permutation_length, NoDup_Permutation; [apply NoDup_elements|done|].
    intros i. by rewrite elem_of_elements, elem_of_dom, Hk.
  - rewrite <- (length_fmap art_id), (values_ids t order seen Ho).
    by rewrite length_fmap.
Qed.

(** X4. The file of unique artworks lists, in the order in which they were
    met, the artworks that were the first to carry their art id: its count
    is the number of artworks listed, no art id occurs twice and none is
    missing, and the tables beside the key order are those of
    [process_search_folders]. *)
Theorem unique_artworks_export batches :
  let t := (process_search_folders_order batches).1 in
  let u := save_unique_artworks_json (unique_artworks t)
             (process_search_folders_order batches).2 in
  t = process_search_folders batches
  /\ total_unique_artworks u = len (artworks u)
  /\ NoDup (art_id <$> artworks u)
  /\ (forall a, a ∈ artworks u -> is_Some (art_id a))
  /\ artworks u `sublist_of` visited batches
  /\ forall i, first_with i (artworks u) = first_with i (visited batches).
Proof.
  intros t u. destruct (process_search_folders_ordered batches) as [Et Ho].
  fold t in Et, Ho. unfold u, save_unique_artworks_json.
  cbn [total_unique_artworks artworks].
  destruct (ordered_size _ _ _ Ho) as [Hs Hl].
  pose proof (values_ids _ _ _ Ho) as Hids.
  split; [exact Et|]. split; [unfold len; lia|]. split.
  { rewrite Hids. apply (NoDup_fmap_2 Some), Ho. }
  split.
  { intros a Ha. apply (list_elem_of_fmap_2 art_id) in Ha.
    rewrite Hids in Ha. apply list_elem_of_fmap in Ha as (i & -> & _). eauto. }
  split; [apply Ho|].
  intros i. rewrite (values_first_with _ _ _ i Ho), Et.
  unfold process_search_folders. rewrite process_folders_lookup. cbn.
  by rewrite lookup_empty.
Qed.

Lemma first_with_None i l :
  first_with i l = None <-> forall a, a ∈ l -> art_id a <> Some i.
Proof.
  unfold first_with. rewrite fmap_None, list_find_None, Forall_forall. done.
Qed.

(** X5. [main] stops with "No artworks found" exactly when no artwork of
    any batch carries an art id. *)
Theorem main_exits_iff_no_art_id batches :
  ProcessOut.main batches = None
  <-> forall a, a ∈ visited batches -> art_id a = None.
Proof.
  unfold ProcessOut.main.
  destruct (process_search_folders_ordered batches) as [Et _].
  destruct (process_search_folders_order batches) as [t order].
  cbn [fst] in Et. subst t.
  assert (unique_artworks (process_search_folders batches) = ∅
          <-> forall a, a ∈ visited batches -> art_id a = None) as Hiff.
  { rewrite map_empty. split.
    - intros Hnone a Ha. destruct (art_id a) as [i|] eqn:Hi; [|done].
      specialize (Hnone i). unfold process_search_folders in Hnone.
      rewrite process_folders_lookup in Hnone. cbn in Hnone.
      rewrite lookup_empty in Hnone.
      by apply (proj1 (first_with_None i _) Hnone a Ha) in Hi.
    - intros Hall i. unfold process_search_folders.
      rewrite process_folders_lookup. cbn. rewrite lookup_empty.
      apply first_with_None. intros a Ha. by rewrite (Hall a Ha). }
  case_decide as He; [by rewrite <- Hiff|].
  split; [done|]. intros Hall. by apply Hiff in Hall.
Qed.

End ProcessExports.

(** ** Strings: joining, splitting and stripping *)

Section StringFacts.

Import Py Prune ProcessOut.

Lemma contains_append c s1 s2 :
  contains c (s1 +:+ s2) = contains c s1 || contains c s2.
Proof.
  induction s1 as [|c' s1 IH]; [done|].
  change (contains c (String c' s1 +:+ s2))
    with (Ascii.eqb c' c || contains c (s1 +:+ s2)).
  rewrite IH. cbn [contains]. by rewrite orb_assoc.
Qed.

Lemma split_plain sep s : contains sep s = false -> split sep s = [s].
Proof.
  induction s as [|c s IH]; [done|]. cbn [split contains].
  intros [Hc Hs]%orb_false_elim. rewrite Hc. by rewrite IH.
Qed.

Lemma split_sep sep s rest :
  contains sep s = false ->
  split sep (s +:+ String sep rest) = s :: split sep rest.
Proof.
  induction s as [|c s IH].
  - intros _. change ("" +:+ String sep rest) with (String sep rest).
    cbn [split]. by rewrite Ascii.eqb_refl.
  - change (String c s +:+ String sep rest)
      with (String c (s +:+ String sep rest)).
    cbn [split contains].
    intros [Hc Hs]%orb_false_elim. rewrite Hc. by rewrite IH.
Qed.

Lemma join_cons sep s f fs :
  join sep (s :: f :: fs) = s +:+ sep +:+ join sep (f :: fs).
Proof. done. Qed.

Lemma split_join sep fs :
  fs <> [] -> Forall (fun f => contains sep f = false) fs ->
  split sep (join (String sep "") fs) = fs.
Proof.
  intros Hne Hall. induction Hall as [|s fs Hs Hall IH]; [done|].
  destruct fs as [|f fs]; [by apply split_plain|].
  rewrite join_cons.
  change (String sep "" +:+ join (String sep "") (f :: fs))
    with (String sep (join (String sep "") (f :: fs))).
  rewrite split_sep by done. by rewrite IH.
Qed.

Lemma contains_join sep fs :
  Forall (fun f => contains sep f = false) fs ->
  contains sep (join (String sep "") fs) = bool_decide (2 <= length fs)%nat.
Proof.
  intros Hall. induction Hall as [|s fs Hs Hall IH]; [done|].
  destruct fs as [|f fs].
  { cbn [join length]. rewrite Hs. symmetry. apply bool_decide_eq_false_2. lia. }
  rewrite join_cons, contains_append, Hs.
  change (String sep "" +:+ join (String sep "") (f :: fs))
    with (String sep (join (String sep "") (f :: fs))).
  cbn [contains orb]. rewrite Ascii.eqb_refl. cbn [orb length].
  symmetry. apply bool_decide_eq_true_2. lia.
Qed.

Lemma lstrip_ascii_length l : (length (lstrip_ascii l) <= length l)%nat.
Proof.
  induction l as [|c l IH]; [done|]. cbn. destruct (is_space c); cbn; lia.
Qed.

Lemma lstrip_ascii_fixed l : lstrip_ascii l = l <-> no_lead l.
Proof.
  destruct l as [|c l]; [done|]. cbn. destruct (is_space c) eqn:Hc.
  - split; [|done]. intros Heq. pose proof (lstrip_ascii_length l) as Hl.
    rewrite Heq in Hl. cbn in Hl. lia.
  - done.
Qed.

(** [strip_ascii] leaves a string as it is exactly when it neither starts
    nor ends with ASCII white space. *)
Lemma strip_ascii_fixed s :
  strip_ascii s = s
  <-> no_lead (list_ascii_of_string s)
      /\ no_lead (rev (list_ascii_of_string s)).
Proof.
  unfold strip_ascii. split.
  - intros Heq. apply (f_equal list_ascii_of_string) in Heq.
    rewrite list_ascii_of_string_of_list_ascii in Heq.
    set (l := list_ascii_of_string s) in *.
    assert (length (lstrip_ascii (rev (lstrip_ascii l))) = length l) as Hlen.
    { by rewrite <- (length_rev (lstrip_ascii _)), Heq. }
    pose proof (lstrip_ascii_length l) as H1.
    pose proof (lstrip_ascii_length (rev (lstrip_ascii l))) as H2.
    rewrite length_rev in H2.
    assert (no_lead l) as Hl.
    { clearbody l. destruct l as [|c l']; [done|]. cbn in *.
      destruct (is_space c) eqn:Hc; [|done].
      pose proof (lstrip_ascii_length l'). lia. }
    split; [done|]. apply lstrip_ascii_fixed in Hl. rewrite Hl in Heq.
    apply lstrip_ascii_fixed. apply (f_equal (@rev ascii)) in Heq.
    by rewrite rev_involutive in Heq.
  - intros [Hl Hr]. apply lstrip_ascii_fixed in Hl, Hr.
    rewrite Hl, Hr, rev_involutive. apply string_of_list_ascii_of_string.
Qed.

Lemma list_ascii_of_append s1 s2 :
  list_ascii_of_string (s1 +:+ s2)
  = list_ascii_of_string s1 ++ list_ascii_of_string s2.
Proof.
  induction s1 as [|c s1 IH]; [done|].
  change (String c s1 +:+ s2) with (String c (s1 +:+ s2)).
  cbn [list_ascii_of_string app]. by rewrite IH.
Qed.

Lemma no_lead_app l1 l2 : no_lead l1 -> no_lead l2 -> no_lead (l1 ++ l2).
Proof. by destruct l1. Qed.

Lemma strip_ascii_join fs :
  Forall (fun f => strip_ascii f = f) fs ->
  strip_ascii (join ";" fs) = join ";" fs.
Proof.
  intros Hall. induction Hall as [|s fs Hs Hall IH]; [done|].
  destruct fs as [|f fs]; [done|].
  rewrite join_cons. apply strip_ascii_fixed.
  apply strip_ascii_fixed in Hs as [Hs1 Hs2].
  apply strip_ascii_fixed in IH as [IH1 IH2].
  rewrite !list_ascii_of_append, !rev_app_distr.
  split.
  - apply no_lead_app; [done|]. by apply no_lead_app.
  - rewrite <- app_assoc. apply no_lead_app; [done|]. by apply no_lead_app.
Qed.

(** On ASCII characters the encodings of two and three bytes are not met,
    and [strip] is [strip_ascii]. *)
Lemma is_space2_ascii c d : (nat_of_ascii c < 128)%nat -> is_space2 c d = false.
Proof.
  intros Hc. unfold is_space2. cbn zeta.
  replace (nat_of_ascii c =? 194)%nat with false; [done|].
  symmetry. apply Nat.eqb_neq. lia.
Qed.

Lemma is_space3_ascii c d e :
  (nat_of_ascii c < 128)%nat -> is_space3 c d e = false.
Proof.
  intros Hc. unfold is_space3. cbn zeta.
  replace (nat_of_ascii c =? 225)%nat with false
    by (symmetry; apply Nat.eqb_neq; lia).
  replace (nat_of_ascii c =? 226)%nat with false
    by (symmetry; apply Nat.eqb_neq; lia).
  replace (nat_of_ascii c =? 227)%nat with false
    by (symmetry; apply Nat.eqb_neq; lia).
  done.
Qed.

Lemma lstrip_chars_ascii l : ascii_chars l -> lstrip_chars l = lstrip_ascii l.
Proof.
  induction 1 as [|c l Hc Hl IH]; [done|]. cbn [lstrip_chars lstrip_ascii].
  rewrite IH. destruct (is_space c); [done|].
  destruct l as [|d l]; [done|]. rewrite is_space2_ascii by done.
  destruct l as [|e l]; [done|]. by rewrite is_space3_ascii.
Qed.

Lemma rstrip_chars_ascii l : ascii_chars l -> rstrip_chars l = lstrip_ascii l.
Proof.
  induction 1 as [|c l Hc Hl IH]; [done|]. cbn [rstrip_chars lstrip_ascii].
  rewrite IH. destruct (is_space c); [done|].
  destruct Hl as [|d l Hd Hl]; [done|]. rewrite is_space2_ascii by done.
  destruct Hl as [|e l He Hl]; [done|]. by rewrite is_space3_ascii.
Qed.

Lemma lstrip_ascii_chars l : ascii_chars l -> ascii_chars (lstrip_ascii l).
Proof.
  induction 1 as [|c l Hc Hl IH]; [constructor|]. cbn.
  destruct (is_space c); [done|]. by constructor.
Qed.

Lemma ascii_only_chars s : ascii_only s <-> ascii_chars (list_ascii_of_string s).
Proof.
  unfold ascii_only, ascii_chars. generalize (list_ascii_of_string s).
  intros l. induction l as [|c l IH]; cbn [forallb].
  - split; [constructor|done].
  - rewrite andb_true_iff, Forall_cons, IH, Nat.ltb_lt. done.
Qed.

Lemma ascii_chars_rev l : ascii_chars l -> ascii_chars (rev l).
Proof.
  unfold ascii_chars. rewrite !Forall_forall. intros Hl c Hc. apply Hl.
  apply list_elem_of_In. apply list_elem_of_In, in_rev in Hc. exact Hc.
Qed.

Lemma strip_ascii_only s : ascii_only s -> strip s = strip_ascii s.
Proof.
  intros Hs%ascii_only_chars. unfold strip, strip_ascii.
  rewrite (lstrip_chars_ascii _ Hs).
  by rewrite rstrip_chars_ascii
    by (apply ascii_chars_rev, lstrip_ascii_chars, Hs).
Qed.

Lemma ascii_only_join fs :
  Forall ascii_only fs -> ascii_only (join ";" fs).
Proof.
  intros Hall. induction Hall as [|s fs Hs Hall IH]; [done|].
  destruct fs as [|f fs]; [done|].
  rewrite join_cons. apply ascii_only_chars.
  apply ascii_only_chars in Hs, IH.
  rewrite !list_ascii_of_append. apply Forall_app. split; [done|].
  apply Forall_app. split; [|done]. repeat constructor.
Qed.

End StringFacts.

(** ** The mapping file, written by the one script and read by the other *)

Section MappingFile.

Import Py Process ProcessOut Prune Subset.

Context {payload : Type}.

Implicit Types (t : Process.tables payload) (d : gmap Z (list string)).
Implicit Types (batches : list (string * list (Process.artwork payload))).

Lemma StronglySorted_le_lt (l : list Z) :
  StronglySorted Z.le l -> NoDup l -> StronglySorted Z.lt l.
Proof.
  induction 1 as [|x l Hs IH Hall]; intros Hnd; constructor.
  - apply IH. by apply NoDup_cons in Hnd as [_ ?].
  - apply NoDup_cons in Hnd as [Hx _].
    rewrite Forall_forall in Hall |- *. intros y Hy.
    specialize (Hall y Hy). assert (x <> y) by (by intros ->). lia.
Qed.

Lemma StronglySorted_lt_NoDup (l : list Z) : StronglySorted Z.lt l -> NoDup l.
Proof.
  induction 1 as [|x l Hs IH Hall]; constructor; [|done].
  intros Hx. rewrite Forall_forall in Hall. specialize (Hall x Hx). lia.
Qed.

Lemma sorted_keys d :
  StronglySorted Z.lt (merge_sort Z.le (elements (dom d)))
  /\ forall i, i ∈ merge_sort Z.le (elements (dom d)) <-> is_Some (d !! i).
Proof.
  split.
  - apply StronglySorted_le_lt; [apply (StronglySorted_merge_sort _)|].
    rewrite merge_sort_Permutation. apply NoDup_elements.
  - intros i. by rewrite merge_sort_Permutation, elem_of_elements, elem_of_dom.
Qed.

Lemma mapping_ids d :
  (save_art_id_mapping_csv d).*1 = merge_sort Z.le (elements (dom d)).
Proof.
  unfold save_art_id_mapping_csv. rewrite <- list_fmap_compose.
  apply list_fmap_id.
Qed.

(** X6. The mapping file has one line for each art id of the table, in
    strictly ascending order of the art ids, and the line of an art id
    holds its folder names in ascending order, joined by semicolons. *)
Theorem mapping_lines d :
  StronglySorted Z.lt (save_art_id_mapping_csv d).*1
  /\ (forall i s, (i, s) ∈ save_art_id_mapping_csv d
       <-> exists fs, d !! i = Some fs
                      /\ s = join ";" (sorted_strings fs))
  /\ forall fs, StronglySorted String.le (sorted_strings fs)
                /\ sorted_strings fs ≡ₚ fs.
Proof.
  destruct (sorted_keys d) as [Hs Hk]. split; [by rewrite mapping_ids|].
  split.
  - intros i s. unfold save_art_id_mapping_csv. rewrite list_elem_of_fmap.
    split.
    + intros (j & [= -> ->] & Hj). apply Hk in Hj as [fs Hfs].
      exists fs. by rewrite Hfs.
    + intros (fs & Hfs & ->). exists i. rewrite Hfs. split; [done|].
      apply Hk. by rewrite Hfs.
  - intros fs. split; [apply (StronglySorted_merge_sort _)|].
    apply merge_sort_Permutation.
Qed.

Lemma folders_of_join fs :
  fs <> [] -> Forall clean fs ->
  strip (join ";" fs) = join ";" fs
  /\ folders_of (join ";" fs) = fs
  /\ contains semicolon (join ";" fs) = bool_decide (2 <= length fs)%nat.
Proof.
  intros Hne Hall.
  assert (Forall ascii_only fs) as H0
    by (eapply Forall_impl; [exact Hall|]; by intros f (? & ? & ?)).
  assert (Forall (fun f => strip f = f) fs) as H1
    by (eapply Forall_impl; [exact Hall|]; by intros f (? & ? & ?)).
  assert (Forall (fun f => contains semicolon f = false) fs) as H2
    by (eapply Forall_impl; [exact Hall|]; by intros f (? & ? & ?)).
  split; [|split; [|by apply (contains_join semicolon)]].
  - rewrite strip_ascii_only by (by apply ascii_only_join).
    apply strip_ascii_join. eapply Forall_impl; [exact Hall|].
    intros f (Ha & Hs & _). by rewrite <- (strip_ascii_only f Ha).
  - unfold folders_of. rewrite (split_join semicolon) by done.
    clear Hne Hall H0 H2. induction H1 as [|f fs Hf _ IH]; [done|].
    cbn. by rewrite Hf, IH.
Qed.

Lemma provenance_clean batches i :
  (forall b, b ∈ batches -> clean b.1) ->
  Forall clean (provenance (process_search_folders batches) i).
Proof.
  intros Hclean. apply Forall_forall. intros f Hf.
  unfold process_search_folders in Hf.
  apply process_folders_provenance in Hf as [Hf|(l & a & Hb & _)].
  - unfold provenance in Hf. cbn in Hf. rewrite lookup_empty in Hf.
    by apply elem_of_nil in Hf.
  - apply (Hclean (f, l) Hb).
Qed.

(** X7. When the folder names (which start with [search_]) are ASCII and
    neither end with white space nor hold a semicolon, the selection script
    reads the mapping file back as it was meant: the rows carry distinct
    art ids, the folder names it splits a row into are those of the folders
    whose results held the art id, in ascending order, and it takes a row
    for a multi-folder artwork exactly when the art id was found in at
    least two folders. *)
Theorem mapping_read_back batches :
  (forall b, b ∈ batches ->
     String.prefix "search_" b.1 = true /\ ascii_only b.1
     /\ strip b.1 = b.1 /\ contains semicolon b.1 = false) ->
  let t := process_search_folders batches in
  let rows := read_mapping (save_art_id_mapping_csv (art_id_to_folders t)) in
  NoDup (row_art_id <$> rows)
  /\ forall r, r ∈ rows ->
       let fs := folders_of (strip (row_search_folders r)) in
       fs = sorted_strings (provenance t (row_art_id r))
       /\ (forall f, f ∈ fs <-> appears batches f (row_art_id r))
       /\ (contains semicolon (strip (row_search_folders r)) = true
           <-> (2 <= length (provenance t (row_art_id r)))%nat).
Proof.
  intros Hnames t rows.
  assert (forall b, b ∈ batches -> clean b.1) as Hclean
    by (intros b Hb; by destruct (Hnames b Hb) as (_ & ? & ? & ?)).
  split.
  { unfold rows, read_mapping. rewrite <- list_fmap_compose.
    change (row_art_id ∘ _) with (fst : Z * string -> Z).
    rewrite mapping_ids. apply StronglySorted_lt_NoDup, sorted_keys. }
  intros r Hr fs. unfold rows, read_mapping in Hr.
  apply list_elem_of_fmap in Hr as ([i s] & -> & His).
  unfold save_art_id_mapping_csv in His.
  apply list_elem_of_fmap in His as (j & [= -> ->] & Hj).
  apply sorted_keys in Hj as [gs Hgs].
  cbn [row_art_id row_search_folders fst snd] in *.
  assert (provenance t j = gs) as Hprov by (unfold provenance; by rewrite Hgs).
  unfold fs. rewrite Hgs. cbn [default]. rewrite Hprov.
  destruct (process_search_folders_tidy batches j gs Hgs) as [Hnd Hne].
  pose proof (provenance_clean batches j Hclean) as Hcl.
  fold t in Hcl. rewrite Hprov in Hcl.
  assert (sorted_strings gs ≡ₚ gs) as Hperm by apply merge_sort_Permutation.
  destruct (folders_of_join (sorted_strings gs)) as (E1 & E2 & E3).
  { intros Hnil. rewrite Hnil in Hperm. by apply Permutation_nil_l in Hperm. }
  { by rewrite Hperm. }
  unfold id. rewrite E1, E2, E3. split; [done|]. split.
  - intros f. rewrite Hperm, <- Hprov. unfold t, process_search_folders.
    rewrite process_folders_provenance. unfold provenance at 1. cbn.
    rewrite lookup_empty. cbn. rewrite elem_of_nil. naive_solver.
  - rewrite bool_decide_eq_true. by rewrite Hperm.
Qed.

End MappingFile.

(** ** Reconciliation from the directory listing on *)

Section InputFolder.

Import Process ProcessOut.

Context {payload : Type}.

Implicit Types (entries : list (string * bool)).
Implicit Types (load : string -> list (artwork payload)).

Lemma search_folders_of_spec entries :
  StronglySorted String.le (search_folders_of entries)
  /\ forall f, f ∈ search_folders_of entries
               <-> (f, true) ∈ entries /\ String.prefix "search_" f = true.
Proof.
  unfold search_folders_of, sorted_strings. split.
  - apply (StronglySorted_merge_sort _).
  - intros f. rewrite merge_sort_Permutation, list_elem_of_fmap. split.
    + intros ([g b] & -> & [[Hb Hp] Hin]%list_elem_of_filter).
      cbn in *. by subst b.
    + intros [Hin Hp]. exists (f, true). split; [done|].
      by apply list_elem_of_filter.
Qed.

Lemma visited_loads load (fs : list string) :
  visited ((fun f => (f, load f)) <$> fs) = concat (load <$> fs).
Proof.
  unfold visited. f_equal. rewrite <- list_fmap_compose. done.
Qed.

Lemma first_with_loads load i (fs : list string) a :
  first_with i (concat (load <$> fs)) = Some a ->
  exists pre f post,
    fs = pre ++ f :: post /\ first_with i (load f) = Some a
    /\ forall f', f' ∈ pre -> first_with i (load f') = None.
Proof.
  induction fs as [|f fs IH]; [done|].
  cbn [fmap list_fmap concat]. rewrite first_with_app.
  destruct (first_with i (load f)) as [b|] eqn:Hf.
  - intros [= ->]. exists [], f, fs. split; [done|]. split; [done|].
    by intros f' ?%elem_of_nil.
  - intros (pre & g & post & -> & Hg & Hpre)%IH.
    exists (f :: pre), g, post. split; [done|]. split; [done|].
    intros f' [->|Hin]%elem_of_cons; [done|by apply Hpre].
Qed.

Lemma unique_artworks_first
    (batches : list (string * list (artwork payload))) i :
  unique_artworks (process_search_folders batches) !! i
  = first_with i (visited batches).
Proof.
  unfold process_search_folders. rewrite process_folders_lookup. cbn.
  by rewrite lookup_empty.
Qed.

(** X8. From the directory listing on, a folder is recorded for an art id
    exactly when it is a directory of the input folder whose name starts
    with [search_] and whose results hold an artwork with that art id:
    files and other directories leave no trace in the tables. *)
Theorem input_folder_provenance entries load (i : Z) (f : string) :
  f ∈ provenance (process_input_folder entries load) i
  <-> (f, true) ∈ entries /\ String.prefix "search_" f = true
      /\ exists a, a ∈ load f /\ art_id a = Some i.
Proof.
  unfold process_input_folder, process_search_folders.
  rewrite process_folders_provenance. unfold provenance at 1. cbn.
  rewrite lookup_empty. cbn. rewrite elem_of_nil. unfold appears.
  destruct (search_folders_of_spec entries) as [_ Hin]. split.
  - intros [[]|(l & a & Hb & Ha & Hi)].
    apply list_elem_of_fmap in Hb as (g & [= -> ->] & Hg).
    apply Hin in Hg as [? ?]. eauto.
  - intros (He & Hp & a & Ha & Hi). right. exists (load f), a.
    split; [|done]. apply list_elem_of_fmap. exists f. split; [done|].
    by apply Hin.
Qed.

(** X9. The artwork kept for an art id is the first one with that id in
    the results of the least folder, in the order of the names, that holds
    the id at all. *)
Theorem least_folder_wins entries load (i : Z) (a : artwork payload) :
  unique_artworks (process_input_folder entries load) !! i = Some a ->
  exists f, f ∈ search_folders_of entries
    /\ first_with i (load f) = Some a
    /\ forall f', f' ∈ search_folders_of entries ->
                  is_Some (first_with i (load f')) -> String.le f f'.
Proof.
  unfold process_input_folder.
  rewrite unique_artworks_first, visited_loads.
  intros (pre & f & post & Hfs & Hf & Hpre)%first_with_loads.
  destruct (search_folders_of_spec entries) as [Hsorted _].
  rewrite Hfs in Hsorted |- *.
  exists f. split; [set_solver|]. split; [done|].
  intros f' Hin [b Hb].
  apply elem_of_app in Hin as [Hin|Hin].
  { rewrite (Hpre f' Hin) in Hb. done. }
  apply StronglySorted_app_1_r in Hsorted.
  apply StronglySorted_cons in Hsorted as [Hall _].
  apply elem_of_cons in Hin as [->|Hin]; [done|].
  rewrite Forall_forall in Hall. by apply Hall.
Qed.

End InputFolder.

(** ** Selection: where the returned records come from *)

Section SelectorFacts.

Import Py Prune.

Context {G : Type} `{Random G}.

Implicit Types (st : state G) (single : list (string * list Z)).
Implicit Types (rows : list row).

Lemma analyze_multi_rows an rows :
  multi_folder_artworks (foldl analyze_row an rows)
  = multi_folder_artworks an ++ (item_of <$> filter multi_row rows).
Proof.
  revert an. induction rows as [|r rows IH]; intros an; cbn [foldl].
  - by rewrite app_nil_r.
  - rewrite IH, filter_cons. unfold analyze_row.
    destruct (decide (multi_row r)) as [Hc|Hc]; unfold multi_row in Hc.
    + rewrite Hc. cbn. by rewrite <- app_assoc.
    + apply not_true_is_false in Hc. by rewrite Hc.
Qed.

Lemma multi_rows rows :
  multi_folder_artworks (analyze rows) = item_of <$> filter multi_row rows.
Proof. unfold analyze. by rewrite analyze_multi_rows. Qed.

Lemma append_to_elem d k v f ids i :
  (f, ids) ∈ append_to d k v -> i ∈ ids ->
  (exists ids0, (f, ids0) ∈ d /\ i ∈ ids0) \/ (f = k /\ i = v).
Proof.
  induction d as [|[k' vs] d IH]; cbn [append_to].
  - intros [= -> ->]%list_elem_of_singleton Hi.
    apply list_elem_of_singleton in Hi. auto.
  - destruct (String.eqb k' k) eqn:Hk.
    + apply String.eqb_eq in Hk as ->.
      intros [[= -> ->]|Hin]%elem_of_cons Hi.
      * apply elem_of_app in Hi as [Hi|Hi%list_elem_of_singleton]; [|auto].
        left. exists vs. split; [by left|done].
      * left. exists ids. split; [by right|done].
    + intros [[= -> ->]|Hin]%elem_of_cons Hi.
      * left. exists vs. split; [by left|done].
      * destruct (IH Hin Hi) as [(ids0 & H0 & Hi0)|?]; [|auto].
        left. exists ids0. split; [by right|done].
Qed.

Lemma analyze_single_rows an rows f ids i :
  (f, ids) ∈ single_folder_artworks (foldl analyze_row an rows) -> i ∈ ids ->
  (exists ids0, (f, ids0) ∈ single_folder_artworks an /\ i ∈ ids0)
  \/ exists r, r ∈ rows /\ ~ multi_row r /\ item_of r = (i, f).
Proof.
  revert an. induction rows as [|r rows IH]; intros an; cbn [foldl].
  - eauto.
  - intros Hin Hi. destruct (IH _ Hin Hi) as [(ids0 & H0 & Hi0)|(r' & ? & ?)].
    2:{ right. exists r'. split; [by right|done]. }
    unfold analyze_row in H0.
    destruct (contains semicolon (strip (row_search_folders r))) eqn:Hc;
      cbn [single_folder_artworks] in H0.
    + eauto.
    + destruct (append_to_elem _ _ _ _ _ _ H0 Hi0) as [?|[-> ->]]; [by left|].
      right. exists r. split; [by left|]. split; [|done].
      unfold multi_row. by rewrite Hc.
Qed.

Lemma pool_elem single (ids : gset Z) it :
  it ∈ all_remaining_artworks single ids ->
  exists l, (it.2, l) ∈ single /\ it.1 ∈ l.
Proof.
  unfold all_remaining_artworks. rewrite list_elem_of_bind.
  intros ([k vs] & Hit & Hin). apply list_elem_of_fmap in Hit as (i & -> & Hi).
  apply list_elem_of_filter in Hi as [_ Hi]. by exists vs.
Qed.

Lemma pool_rows rows (ids : gset Z) it :
  it ∈ all_remaining_artworks (single_folder_artworks (analyze rows)) ids ->
  exists r, r ∈ rows /\ ~ multi_row r /\ item_of r = it.
Proof.
  intros (l & Hl & Hi)%pool_elem.
  destruct (analyze_single_rows _ _ _ _ _ Hl Hi) as [(? & []%elem_of_nil & _)|Hr].
  by destruct it.
Qed.

(** Every returned record was appended in step 1 for a multi-folder row or
    later for an art id of the single-folder pool. *)
Lemma run_all (Q : artwork -> Prop) (g : G) rows target_size min_per_search out :
  (forall r, r ∈ rows -> multi_row r -> Q (entry multi_folder (item_of r))) ->
  (forall reason r, reason ∈ later_reasons -> r ∈ rows -> ~ multi_row r ->
                    Q (entry reason (item_of r))) ->
  analyze_and_create_subset g rows target_size min_per_search = Ok out ->
  forall a, a ∈ returned out -> Q a.
Proof.
  intros Hmulti Hlater Hrun. apply Forall_forall.
  assert (Forall Q (entry multi_folder <$> multi_folder_artworks (analyze rows)))
    as H1.
  { rewrite multi_rows. apply Forall_fmap, Forall_fmap, Forall_forall.
    intros r [? ?]%list_elem_of_filter. by apply Hmulti. }
  destruct (decide (remaining_slots (after_step1 g rows target_size) <= 0))
    as [Hle|Hgt].
  - destruct (run_early g rows target_size min_per_search Hle)
      as (l & g' & Heq & Hperm).
    rewrite Heq in Hrun. injection Hrun as <-. cbn.
    rewrite <- Hperm in H1. rewrite Forall_forall in H1.
    apply Forall_forall. intros a Ha. apply H1.
    eapply elem_of_sublist; [done|]. apply slice_to_sublist.
  - destruct (run_late (fun st => Forall Q (selected_artworks st))
                g rows target_size min_per_search out)
      as (st3 & st4 & _ & _ & H4 & Hperm); [lia| |done|done|].
    { intros st st' Hst (new & reason & Hr & Hsub & _ & Hsel & _).
      rewrite Hsel. apply Forall_app. split; [done|].
      apply Forall_fmap, Forall_forall. intros it Hit.
      apply (elem_of_submseteq _ _ _ Hit) in Hsub.
      apply pool_rows in Hsub as (r & Hr1 & Hr2 & <-). by apply Hlater. }
    by rewrite Hperm.
Qed.

(** X10. Every returned record stems from a row of the mapping: it carries
    the art id of a row and that row's folder string, stripped; and it
    carries the reason [multi_folder] exactly when that folder string holds
    a semicolon. *)
Theorem selection_from_rows (g : G) rows (target_size min_per_search : Z)
    (out : outcome G) :
  analyze_and_create_subset g rows target_size min_per_search = Ok out ->
  forall a, a ∈ returned out ->
    (exists r, r ∈ rows /\ art_id a = row_art_id r
               /\ search_folders a = strip (row_search_folders r))
    /\ (selection_reason a = multi_folder
        <-> contains semicolon (search_folders a) = true).
Proof.
  apply run_all.
  - intros r Hr Hm. split; [by exists r|]. cbn. by split.
  - intros reason r Hreason Hr Hm. split; [by exists r|]. cbn.
    unfold multi_row in Hm. unfold later_reasons in Hreason.
    rewrite !elem_of_cons, elem_of_nil in Hreason.
    split; [|done]. intros ->. by destruct Hreason as [|[|[|]]].
Qed.

Lemma slice_to_all {A} (l : list A) : slice_to l (len l) = l.
Proof.
  unfold slice_to. pose proof (len_nonneg l).
  replace (len l <? 0) with false by lia.
  unfold len. rewrite Nat2Z.id. apply firstn_all.
Qed.

(** X11. When the rows carry distinct art ids and the multi-folder rows
    are no more than [target_size], each of them is in the returned list,
    with the reason [multi_folder]. *)
Theorem multi_folder_rows_selected (g : G) rows (target_size min_per_search : Z)
    (out : outcome G) :
  NoDup (row_art_id <$> rows) ->
  len (filter multi_row rows) <= target_size ->
  analyze_and_create_subset g rows target_size min_per_search = Ok out ->
  forall r, r ∈ rows ->
    contains semicolon (strip (row_search_folders r)) = true ->
    Artwork (row_art_id r) (strip (row_search_folders r)) multi_folder
      ∈ returned out.
Proof.
  intros Hnd Hlen Hrun r Hr Hm.
  set (sel := entry multi_folder <$> multi_folder_artworks (analyze rows)).
  assert (entry multi_folder (item_of r) ∈ sel) as Hin.
  { unfold sel. rewrite multi_rows. apply list_elem_of_fmap_2, list_elem_of_fmap_2.
    by apply list_elem_of_filter. }
  assert (len sel = len (filter multi_row rows)) as Hsel.
  { unfold sel. by rewrite multi_rows, !len_fmap. }
  assert (len (filter multi_row rows) <= clamped rows target_size) as Hcl.
  { rewrite clamped_distinct by done.
    pose proof (length_filter multi_row rows). unfold len in *. lia. }
  change (entry multi_folder (item_of r) ∈ returned out).
  destruct (decide (remaining_slots (after_step1 g rows target_size) <= 0))
    as [Hle|Hgt].
  - destruct (run_early g rows target_size min_per_search Hle)
      as (l & g' & Heq & Hperm).
    rewrite Heq in Hrun. injection Hrun as <-. cbn [returned].
    fold sel in Hperm. cbn [after_step1 remaining_slots] in Hle.
    rewrite multi_rows, len_fmap in Hle.
    assert (clamped rows target_size = len l) as ->.
    { pose proof (Permutation_length Hperm) as Hp. unfold len in *. lia. }
    rewrite slice_to_all. by rewrite Hperm.
  - destruct (run_late (fun st => entry multi_folder (item_of r)
                                  ∈ selected_artworks st)
                g rows target_size min_per_search out)
      as (st3 & st4 & _ & _ & H4 & Hperm); [lia| |done|done|].
    { intros st st' Hst (new & reason & _ & _ & _ & Hsel' & _).
      rewrite Hsel'. apply elem_of_app. by left. }
    by rewrite Hperm.
Qed.

End SelectorFacts.

(** ** Selection: the warnings of a run *)

Section SelectorWarnings.

Import Py Prune.

Context {G : Type} `{Random G}.

Implicit Types (st : state G) (single : list (string * list Z)).
Implicit Types (rows : list row).

(** X12. When the rows carry distinct art ids (and [target_size] is not
    negative, and there are fewer than 2^53 rows), the call returns, and
    the only warning it can print is the one of the clamp, when there are
    fewer rows than [target_size]: it never reports that the target cannot
    be reached. *)
Theorem no_shortfall_warning (g : G) rows (target_size min_per_search : Z) :
  NoDup (row_art_id <$> rows) -> 0 <= target_size -> len rows < 2 ^ 53 ->
  exists out,
    analyze_and_create_subset g rows target_size min_per_search = Ok out
    /\ printed out
       = if len rows <? target_size
         then [OnlyAvailable (len rows) target_size] else [].
Proof.
  intros Hnd Ht Hsmall.
  destruct (run_length g rows target_size min_per_search Hnd Ht Hsmall)
    as (out & Hrun & _).
  exists out. split; [exact Hrun|].
  assert (warnings (after_step1 g rows target_size)
          = if len rows <? target_size
            then [OnlyAvailable (len rows) target_size] else []) as H1.
  { cbn [after_step1 warnings]. unfold clamp.
    rewrite total_available_distinct by done.
    by destruct (len rows <? target_size). }
  rewrite run_unfold in Hrun. cbn zeta in Hrun.
  set (single := single_folder_artworks (analyze rows)) in *.
  destruct (remaining_slots (after_step1 g rows target_size) <=? 0) eqn:Hrem.
  { injection Hrun as <-. exact H1. }
  destruct (step2 single min_per_search _) as [st2|] eqn:E2; [|done].
  cbn [bind] in Hrun.
  destruct (step3 single st2) as [st3|] eqn:E3; [|done]. cbn [bind] in Hrun.
  destruct (step4 single st3) as [st4|] eqn:E4; [|done]. cbn [bind] in Hrun.
  injection Hrun as <-. cbn [printed].
  pose proof (Inv_kept (G:=G) rows (clamped rows target_size) Hnd) as Hkept.
  fold single in Hkept.
  assert (Inv rows (clamped rows target_size) st3) as H3.
  { eapply step3_preserves; [exact Hkept| |exact E3].
    eapply step2_preserves; [exact Hkept| |exact E2].
    apply after_step1_Inv; [done|lia]. }
  rewrite (step4_warnings single st3 st4); [|
    |exact E4].
  - by rewrite (step3_warnings _ _ _ E3), (step2_warnings _ _ _ _ E2).
  - apply (step4_pool_suffices rows (clamped rows target_size)); [done|done|].
    rewrite clamped_distinct by done. lia.
Qed.

(** X13. When the multi-folder rows are at least [target_size], the call
    returns whatever the other arguments are, and every returned record is
    the record of a multi-folder row, with the reason [multi_folder]. *)
Theorem multi_folder_rows_fill_target (g : G) rows
    (target_size min_per_search : Z) :
  target_size <= len (filter multi_row rows) ->
  exists out,
    analyze_and_create_subset g rows target_size min_per_search = Ok out
    /\ forall a, a ∈ returned out ->
         exists r, r ∈ rows
           /\ contains semicolon (strip (row_search_folders r)) = true
           /\ a = Artwork (row_art_id r) (strip (row_search_folders r))
                          multi_folder.
Proof.
  intros Hle.
  destruct (run_early g rows target_size min_per_search)
    as (l & g' & Heq & Hperm).
  { cbn [after_step1 remaining_slots]. rewrite multi_rows, len_fmap.
    unfold clamped, clamp. destruct (_ <? target_size) eqn:Hlt; cbn [fst]; lia. }
  eexists. split; [exact Heq|]. cbn [returned]. intros a Ha.
  assert (a ∈ l) as Hal
    by (eapply elem_of_sublist; [exact Ha|apply slice_to_sublist]).
  rewrite Hperm, multi_rows in Hal.
  apply list_elem_of_fmap in Hal as (it & -> & Hit).
  apply list_elem_of_fmap in Hit as (r & -> & Hr).
  apply list_elem_of_filter in Hr as [Hm Hr]. by exists r.
Qed.

End SelectorWarnings.

(** ** The subset of the catalog written by [create_subset_json] *)

Section SubsetFacts.

Import Py Prune Subset.

Context {payload : Type}.

Implicit Types (a : Process.artwork payload).
Implicit Types (catalog : list (Process.artwork payload)).
Implicit Types (ids : gset Z) (selected : list artwork).

Lemma keep_selected_fold ids catalog
    (acc : list (Process.artwork payload) * gset Z) :
  foldl (keep_selected ids) acc catalog
  = (acc.1 ++ filter (wanted ids) catalog,
     acc.2 ∪ list_to_set (ids_of (filter (wanted ids) catalog))).
Proof.
  revert acc. induction catalog as [|a catalog IH]; intros [l found];
    cbn [foldl fst snd].
  - rewrite filter_nil, app_nil_r. cbn. f_equal. set_solver.
  - rewrite IH, filter_cons.
    assert (keep_selected ids (l, found) a
            = if decide (wanted ids a)
              then (l ++ [a], found ∪ list_to_set (ids_of [a]))
              else (l, found)) as ->.
    { destruct (decide (wanted ids a)) as [Hw|Hw];
        unfold wanted in Hw; unfold keep_selected, ids_of; cbn [omap fst snd];
        destruct (Process.art_id a) as [i|] eqn:Ha; try done.
      - rewrite decide_True by done. cbn [omap list_omap]. rewrite Ha.
        cbn [list_to_set]. by rewrite (right_id_L ∅ (∪)).
      - by rewrite decide_False. }
    destruct (decide (wanted ids a)) as [Hw|Hw]; cbn [fst snd]; [|done].
    rewrite <- app_assoc. cbn [app]. f_equal.
    change (a :: filter (wanted ids) catalog)
      with ([a] ++ filter (wanted ids) catalog).
    unfold ids_of. rewrite omap_app, list_to_set_app_L.
    by rewrite (assoc_L (∪)).
Qed.

Lemma ids_of_wanted ids catalog i :
  i ∈ ids_of (filter (wanted ids) catalog)
  <-> i ∈ ids /\ exists a, a ∈ catalog /\ Process.art_id a = Some i.
Proof.
  unfold ids_of. rewrite list_elem_of_omap. split.
  - intros (a & [Hw Ha]%list_elem_of_filter & Hi). unfold wanted in Hw.
    rewrite Hi in Hw. eauto.
  - intros (Hi & a & Ha & Hai). exists a. split; [|done].
    apply list_elem_of_filter. split; [|done]. unfold wanted. by rewrite Hai.
Qed.

Lemma create_subset_json_eq selected (od : original_data payload) :
  let ids : gset Z := list_to_set (art_id <$> selected) in
  let kept := filter (wanted ids) (default [] (od_artworks od)) in
  let found : gset Z := list_to_set (ids_of kept) in
  create_subset_json selected od
  = (SubsetData (len kept)
       (SelectionMetadata
          (default (len (default [] (od_artworks od))) (od_total od))
          (len selected) (Z.of_nat (size found))
          (Z.of_nat (size (ids ∖ found))))
       kept,
     ids ∖ found).
Proof.
  intros ids kept found. unfold create_subset_json. fold ids.
  destruct (od_artworks od) as [catalog|] eqn:Hod; cbn [default] in *.
  - rewrite keep_selected_fold. cbn [fst snd app]. fold kept.
    replace (∅ ∪ list_to_set (ids_of kept)) with found by set_solver.
    done.
  - unfold found, kept. rewrite filter_nil. cbn.
    replace (ids ∖ ∅) with ids by set_solver. done.
Qed.

(** X14. The subset file holds, in the order of the catalog, the artworks
    of the catalog that carry a selected art id, and its count is their
    number; the art ids reported missing are the selected ones that no
    artwork of the catalog carries; [found_count] and [missing_count] add
    up to the number of distinct selected art ids, which is at most
    [selected_count]; and [found_count] is at most the number of artworks
    in the subset. *)
Theorem subset_accounting selected (od : original_data payload) :
  let sd := (create_subset_json selected od).1 in
  let missing := (create_subset_json selected od).2 in
  let ids : gset Z := list_to_set (art_id <$> selected) in
  let catalog := default [] (od_artworks od) in
  artworks sd = filter (wanted ids) catalog
  /\ total_unique_artworks sd = len (artworks sd)
  /\ (forall i, i ∈ missing
        <-> i ∈ ids /\ forall a, a ∈ catalog -> Process.art_id a <> Some i)
  /\ missing_count (metadata sd) = Z.of_nat (size missing)
  /\ found_count (metadata sd) + missing_count (metadata sd)
     = Z.of_nat (size ids)
  /\ Z.of_nat (size ids) <= selected_count (metadata sd)
  /\ found_count (metadata sd) <= total_unique_artworks sd.
Proof.
  intros sd missing ids catalog. unfold sd, missing.
  rewrite create_subset_json_eq. cbn zeta. fold ids catalog.
  cbn [fst snd artworks total_unique_artworks metadata found_count
       missing_count selected_count].
  set (kept := filter (wanted ids) catalog).
  set (found := list_to_set (ids_of kept) : gset Z).
  assert (found ⊆ ids) as Hsub.
  { intros i Hi. apply elem_of_list_to_set in Hi.
    by apply ids_of_wanted in Hi as [? _]. }
  split; [done|]. split; [done|]. split.
  { intros i. rewrite elem_of_difference. unfold found.
    rewrite elem_of_list_to_set. unfold kept. rewrite ids_of_wanted.
    split.
    - intros [Hi Hno]. split; [done|]. intros a Ha Hai. apply Hno. eauto.
    - intros [Hi Hno]. split; [done|]. intros [_ (a & Ha & Hai)].
      by apply (Hno a Ha). }
  split; [done|]. split.
  { rewrite size_difference by done. pose proof (subseteq_size _ _ Hsub). lia. }
  split.
  { pose proof (size_list_to_set_length (art_id <$> selected)) as Hle.
    rewrite length_fmap in Hle. fold ids in Hle. unfold len. lia. }
  pose proof (size_list_to_set_length (ids_of kept)) as Hle. fold found in Hle.
  assert (length (ids_of kept) <= length kept)%nat.
  { unfold ids_of. clear. induction kept as [|a l IH]; [done|].
    cbn. destruct (Process.art_id a); cbn; lia. }
  unfold len. lia.
Qed.

(** X15. Nothing is reported missing exactly when every selected art id is
    carried by an artwork of the catalog. *)
Theorem nothing_missing_iff selected (od : original_data payload) :
  missing_count (metadata (create_subset_json selected od).1) = 0
  <-> forall s, s ∈ selected ->
        exists a, a ∈ default [] (od_artworks od)
                  /\ Process.art_id a = Some (art_id s).
Proof.
  rewrite create_subset_json_eq. cbn zeta.
  cbn [fst metadata missing_count].
  set (ids := list_to_set (art_id <$> selected) : gset Z).
  set (catalog := default [] (od_artworks od)).
  set (found := list_to_set (ids_of (filter (wanted ids) catalog)) : gset Z).
  assert (forall i, i ∈ found
            <-> i ∈ ids /\ exists a, a ∈ catalog /\ Process.art_id a = Some i)
    as Hfound.
  { intros i. unfold found. rewrite elem_of_list_to_set. apply ids_of_wanted. }
  assert (forall i, i ∈ ids <-> exists s, s ∈ selected /\ art_id s = i) as Hids.
  { intros i. unfold ids. rewrite elem_of_list_to_set, list_elem_of_fmap.
    naive_solver. }
  split.
  - intros Hz s Hs. assert (size (ids ∖ found) = 0%nat) as Hz' by lia.
    apply size_empty_iff in Hz'.
    assert (art_id s ∈ ids) as Hi by (apply Hids; eauto).
    destruct (decide (art_id s ∈ found)) as [Hf|Hf].
    + by apply Hfound in Hf as [_ ?].
    + exfalso. apply (not_elem_of_empty (C:=gset Z) (art_id s)).
      rewrite <- Hz'. by apply elem_of_difference.
  - intros Hall. assert (ids ∖ found ≡ ∅) as Hempty.
    { apply equiv_empty. intros i [Hi Hno]%elem_of_difference. destruct Hno.
      apply Hfound. split; [done|].
      apply Hids in Hi as (s & Hs & <-). by apply Hall. }
    apply size_empty_iff in Hempty. lia.
Qed.

End SubsetFacts.

(** ** The two scripts in sequence *)

Section Pipeline.

Import Py Prune Subset.

Context {payload : Type} {G : Type} `{Random G}.

Implicit Types (a : Process.artwork payload).
Implicit Types (catalog : list (Process.artwork payload)).
Implicit Types (rows : list row).

Lemma run_ids (g : G) rows (target_size min_per_search : Z) (out : outcome G) :
  NoDup (row_ids rows) ->
  analyze_and_create_subset g rows target_size min_per_search = Ok out ->
  NoDup (art_id <$> returned out)
  /\ forall i, i ∈ art_id <$> returned out -> i ∈ row_ids rows.
Proof.
  intros Hnd Hrun. split.
  - destruct (decide (remaining_slots (after_step1 g rows target_size) <= 0))
      as [Hle|Hgt].
    + destruct (run_early g rows target_size min_per_search Hle)
        as (l & g' & Heq & Hperm).
      rewrite Heq in Hrun. injection Hrun as <-. cbn.
      eapply sublist_NoDup; [|apply fmap_sublist, slice_to_sublist].
      rewrite Hperm, ids_entry. by apply multi_ids_NoDup.
    + destruct (run_late (Inv rows (clamped rows target_size))
                  g rows target_size min_per_search out)
        as (st3 & st4 & _ & _ & H4 & Hperm); [lia| | |done|].
      { by apply Inv_kept. }
      { apply after_step1_Inv; [done|lia]. }
      rewrite Hperm. apply H4.
  - intros i (a & -> & Ha)%list_elem_of_fmap. revert a Ha.
    apply (run_all (fun s => art_id s ∈ row_ids rows) g rows target_size
             min_per_search out); [| |done].
    + intros r Hr _. by apply (list_elem_of_fmap_2 row_art_id).
    + intros reason r _ Hr _. by apply (list_elem_of_fmap_2 row_art_id).
Qed.

Lemma ids_of_Some catalog (order : list Z) :
  Process.art_id <$> catalog = Some <$> order -> ids_of catalog = order.
Proof.
  revert order. induction catalog as [|a catalog IH]; intros [|i order];
    try done.
  cbn. intros [= Ha Hrest]. unfold ids_of. cbn. rewrite Ha. cbn. f_equal.
  by apply IH.
Qed.

Lemma ids_of_filter_sublist (P : Process.artwork payload -> Prop)
    `{forall a, Decision (P a)} catalog :
  ids_of (filter P catalog) `sublist_of` ids_of catalog.
Proof.
  induction catalog as [|a catalog IH]; [done|].
  rewrite filter_cons. unfold ids_of in *. cbn [omap list_omap].
  destruct (decide (P a)); cbn [omap list_omap];
    destruct (Process.art_id a); try done.
  - by apply sublist_skip.
  - by apply sublist_cons.
Qed.

Lemma ids_of_wanted_length (ids : gset Z) catalog :
  length (ids_of (filter (wanted ids) catalog))
  = length (filter (wanted ids) catalog).
Proof.
  induction catalog as [|a catalog IH]; [done|].
  rewrite filter_cons. destruct (decide (wanted ids a)) as [Hw|Hw]; [|done].
  unfold ids_of in *. cbn [omap list_omap]. unfold wanted in Hw.
  destruct (Process.art_id a); [|done]. cbn. by rewrite IH.
Qed.

Lemma main_outputs (batches : list (string * list (Process.artwork payload)))
    u lines :
  ProcessOut.main batches = Some (u, lines) ->
  let t := Process.process_search_folders batches in
  exists order,
    ordered t order (Process.visited batches)
    /\ u = ProcessOut.save_unique_artworks_json (Process.unique_artworks t) order
    /\ lines = ProcessOut.save_art_id_mapping_csv (Process.art_id_to_folders t).
Proof.
  unfold ProcessOut.main.
  destruct (process_search_folders_ordered batches) as [Et Ho].
  destruct (ProcessOut.process_search_folders_order batches) as [t order].
  cbn [fst snd] in Et, Ho. subst t.
  case_decide; [done|]. intros [= <- <-]. by exists order.
Qed.

Lemma main_exits_empty
    (batches : list (string * list (Process.artwork payload))) :
  Process.unique_artworks (Process.process_search_folders batches) = ∅ ->
  ProcessOut.main batches = None.
Proof.
  unfold ProcessOut.main.
  destruct (process_search_folders_ordered batches) as [Et _].
  destruct (ProcessOut.process_search_folders_order batches) as [t order].
  cbn [fst] in Et. subst t. intros He. by rewrite decide_True.
Qed.

(** X16. The two scripts agree with each other.  When the first script has
    written its two files for an input folder (of fewer than 2^53 art ids)
    and the second is run on them, the selection succeeds, no selected art
    id is reported missing, and the counts of the subset file all equal the
    number of selected records, which is 100 or, when there are fewer, the
    number of unique artworks. *)
Theorem scripts_agree (entries : list (string * bool))
    (load : string -> list (Process.artwork payload)) (seed_value : Z)
    (u : ProcessOut.unique_json payload) (lines : list (Z * string)) :
  ProcessOut.main ((fun f => (f, load f)) <$> ProcessOut.search_folders_of entries)
    = Some (u, lines) ->
  len lines < 2 ^ 53 ->
  exists out : outcome G,
    Prune.main seed_value (read_mapping lines) = Ok out
    /\ let sd := (create_subset_json (returned out) (read_unique_json u)).1 in
       (create_subset_json (returned out) (read_unique_json u)).2 = ∅
       /\ missing_count (metadata sd) = 0
       /\ selected_count (metadata sd)
          = Z.min 100 (ProcessOut.total_unique_artworks u)
       /\ found_count (metadata sd) = selected_count (metadata sd)
       /\ total_unique_artworks sd = selected_count (metadata sd)
       /\ original_total (metadata sd) = ProcessOut.total_unique_artworks u.
Proof.
  generalize ((fun f => (f, load f)) <$> ProcessOut.search_folders_of entries).
  intros batches Hmain Hsmall.
  destruct (main_outputs batches u lines Hmain) as (order & Ho & -> & ->).
  set (t := Process.process_search_folders batches) in *.
  set (rows := read_mapping
                 (ProcessOut.save_art_id_mapping_csv (Process.art_id_to_folders t))).
  assert (row_ids rows
          = merge_sort Z.le (elements (dom (Process.art_id_to_folders t))))
    as Hrows.
  { unfold rows, read_mapping, row_ids. rewrite <- list_fmap_compose.
    change (row_art_id ∘ _) with (fst : Z * string -> Z). apply mapping_ids. }
  destruct (sorted_keys (Process.art_id_to_folders t)) as [Hsorted Hkeys].
  rewrite <- Hrows in Hsorted, Hkeys.
  assert (NoDup (row_ids rows)) as Hnd by by apply StronglySorted_lt_NoDup.
  assert (forall i, i ∈ row_ids rows <-> i ∈ order) as Hin.
  { intros i. rewrite Hkeys, (ord_keys _ _ _ Ho), <- !elem_of_dom.
    pose proof (process_search_folders_same_keys batches) as Hsame.
    unfold same_keys in Hsame. fold t in Hsame. by rewrite Hsame. }
  assert (len rows = Z.of_nat (size (Process.unique_artworks t))) as Hlen.
  { destruct (ordered_size _ _ _ Ho) as [-> _].
    unfold len. f_equal. rewrite <- (length_fmap row_art_id).
    apply Permutation_length, NoDup_Permutation; [exact Hnd|apply Ho|exact Hin]. }
  assert (len rows < 2 ^ 53) as Hsmall'.
  { unfold rows, read_mapping. by rewrite len_fmap. }
  destruct (run_length (seed seed_value) rows 100 10 Hnd) as (out & Hrun & Hout);
    [lia|exact Hsmall'|].
  exists out. split; [exact Hrun|].
  destruct (run_ids _ _ _ _ _ Hnd Hrun) as [Hsel Hsub].
  cbn zeta. rewrite create_subset_json_eq. cbn zeta.
  cbn [fst snd metadata missing_count selected_count found_count
       total_unique_artworks original_total read_unique_json od_artworks
       od_total default ProcessOut.artworks ProcessOut.total_unique_artworks
       ProcessOut.save_unique_artworks_json].
  set (ids := list_to_set (art_id <$> returned out) : gset Z).
  set (catalog := ProcessOut.values (Process.unique_artworks t) order).
  set (kept := filter (wanted ids) catalog).
  assert (ids_of catalog = order) as Hcat
    by (apply ids_of_Some, (values_ids _ _ _ Ho)).
  assert (list_to_set (ids_of kept) = ids) as Hfound.
  { apply set_eq. intros i. rewrite elem_of_list_to_set. unfold kept.
    rewrite ids_of_wanted. split; [by intros [? _]|]. intros Hi.
    split; [done|]. unfold ids in Hi. apply elem_of_list_to_set in Hi.
    apply Hsub, Hin in Hi. rewrite <- Hcat in Hi. unfold ids_of in Hi.
    apply list_elem_of_omap in Hi as (a & Ha & Hai). eauto. }
  assert (size ids = length (returned out)) as Hsize.
  { unfold ids. rewrite size_list_to_set by done. by rewrite length_fmap. }
  assert (length kept = length (returned out)) as Hkept.
  { rewrite <- Hsize, <- Hfound. unfold kept.
    rewrite <- ids_of_wanted_length. symmetry. apply size_list_to_set.
    eapply sublist_NoDup; [|apply ids_of_filter_sublist].
    rewrite Hcat. apply Ho. }
  unfold id. fold kept. rewrite Hfound.
  replace (ids ∖ ids) with (∅ : gset Z) by set_solver.
  rewrite size_empty, Hsize. unfold len in *. rewrite Hkept.
  repeat split; lia.
Qed.

End Pipeline.

(** ** Reconciliation: what does not matter *)

Section ProcessOrder.

Import Process ProcessOut.

Context {payload : Type}.

Implicit Types (t : tables payload) (a : artwork payload).
Implicit Types (batches : list (string * list (artwork payload))).

Lemma process_artworks_with_art_id folder (l : list (artwork payload)) t :
  foldl (process_artwork folder) t (filter (fun a => is_Some (art_id a)) l)
  = foldl (process_artwork folder) t l.
Proof.
  revert t. induction l as [|a l IH]; intros t; [done|].
  rewrite filter_cons. destruct (decide (is_Some (art_id a))) as [Ha|Ha].
  - cbn [foldl]. apply IH.
  - cbn [foldl]. rewrite IH. f_equal. unfold process_artwork.
    destruct (art_id a); [|done]. destruct Ha. eauto.
Qed.

(** X17. Artworks without an art id are skipped: the tables are those of
    the batches with these artworks left out. *)
Theorem artworks_without_art_id_skipped batches :
  process_search_folders batches
  = process_search_folders (with_art_id batches).
Proof.
  unfold process_search_folders. generalize (Tables (payload:=payload) ∅ ∅).
  induction batches as [|[f l] batches IH]; intros t; [done|].
  change (with_art_id ((f, l) :: batches))
    with ((f, filter (fun a => is_Some (art_id a)) l) :: with_art_id batches).
  cbn [foldl].
  change (process_folder t (f, filter (fun a => is_Some (art_id a)) l))
    with (foldl (process_artwork f) t (filter (fun a => is_Some (art_id a)) l)).
  rewrite process_artworks_with_art_id. apply IH.
Qed.

Lemma appears_Permutation batches batches' f i :
  batches ≡ₚ batches' -> appears batches f i -> appears batches' f i.
Proof.
  intros Hp (l & a & Hb & Ha). exists l, a. by rewrite <- Hp.
Qed.

Lemma provenance_NoDup batches i :
  NoDup (provenance (process_search_folders batches) i).
Proof.
  unfold provenance.
  destruct (art_id_to_folders (process_search_folders batches) !! i)
    as [fs|] eqn:Hfs; cbn; [|apply NoDup_nil_2].
  by destruct (process_search_folders_tidy batches i fs Hfs).
Qed.

Lemma provenance_elem batches i f :
  f ∈ provenance (process_search_folders batches) i <-> appears batches f i.
Proof.
  unfold process_search_folders. rewrite process_folders_provenance.
  unfold provenance at 1. cbn. rewrite lookup_empty. cbn.
  rewrite elem_of_nil. tauto.
Qed.

Lemma folders_key batches i :
  is_Some (art_id_to_folders (process_search_folders batches) !! i)
  <-> exists f, appears batches f i.
Proof.
  split.
  - intros [fs Hfs].
    destruct (process_search_folders_tidy batches i fs Hfs) as [_ Hne].
    destruct fs as [|f fs]; [done|]. exists f. apply provenance_elem.
    unfold provenance. rewrite Hfs. by left.
  - intros [f Hf%provenance_elem]. unfold provenance in Hf.
    destruct (art_id_to_folders _ !! i) as [fs|]; [eauto|].
    by apply elem_of_nil in Hf.
Qed.

(** X18. The mapping file does not depend on the order in which the
    folders are processed: batches that are permutations of each other give
    the same lines. *)
Theorem mapping_file_order_independent batches batches' :
  batches ≡ₚ batches' ->
  save_art_id_mapping_csv (art_id_to_folders (process_search_folders batches))
  = save_art_id_mapping_csv (art_id_to_folders (process_search_folders batches')).
Proof.
  intros Hp. unfold save_art_id_mapping_csv.
  assert (dom (art_id_to_folders (process_search_folders batches))
          = dom (art_id_to_folders (process_search_folders batches'))) as ->.
  { apply set_eq. intros i. rewrite !elem_of_dom, !folders_key.
    split; intros [f Hf]; exists f.
    - by apply (appears_Permutation batches batches').
    - by apply (appears_Permutation batches' batches). }
  apply Forall_fmap_ext_1, Forall_forall. intros i _. f_equal. f_equal.
  change (sorted_strings (provenance (process_search_folders batches) i)
          = sorted_strings (provenance (process_search_folders batches') i)).
  unfold sorted_strings.
  apply (StronglySorted_unique String.le);
    [apply (StronglySorted_merge_sort _)..|].
  rewrite !merge_sort_Permutation.
  apply NoDup_Permutation; [apply provenance_NoDup..|].
  intros f. rewrite !provenance_elem.
  split; apply appears_Permutation; [done|by symmetry].
Qed.

End ProcessOrder.

(** ** Selection: a target that takes everything, and the six folders *)

Section SelectorReach.

Import Py Prune.

Context {G : Type} `{Random G}.

Implicit Types (st : state G) (single : list (string * list Z)).
Implicit Types (rows : list row).

(** X19. When the rows carry distinct art ids and there are no more of
    them than [target_size] (and fewer than 2^53), every art id of the
    mapping is selected, once. *)
Theorem small_mapping_selected_whole (g : G) rows
    (target_size min_per_search : Z) :
  NoDup (row_art_id <$> rows) -> len rows <= target_size ->
  len rows < 2 ^ 53 ->
  exists out,
    analyze_and_create_subset g rows target_size min_per_search = Ok out
    /\ art_id <$> returned out ≡ₚ row_art_id <$> rows.
Proof.
  intros Hnd Hle Hsmall. pose proof (len_nonneg rows) as H0.
  destruct (run_length g rows target_size min_per_search Hnd) as (out & Hrun & Hlen);
    [lia|done|].
  exists out. split; [exact Hrun|].
  destruct (run_ids g rows target_size min_per_search out Hnd Hrun)
    as [Hsel Hsub].
  apply submseteq_length_Permutation.
  - by apply NoDup_submseteq.
  - rewrite !length_fmap. unfold len in *. lia.
Qed.

End SelectorReach.

(** ** Selection: steps 2 and 3 know six folders only *)

Section SelectorFolders.

Import Py Prune.

Context {G : Type} `{Random G}.

Implicit Types (st : state G) (single : list (string * list Z)).
Implicit Types (rows : list row).

Lemma for_each_preserves_in {X S} (P : S -> Prop) (body : X -> S -> result S)
    xs s s' :
  (forall x s s', x ∈ xs -> P s -> body x s = Ok s' -> P s') ->
  P s -> for_each body xs s = Ok s' -> P s'.
Proof.
  revert s. induction xs as [|x xs IH]; intros s Hbody Hs; cbn [for_each].
  - by intros [= <-].
  - destruct (body x s) as [s1|] eqn:Hx; [|done]. cbn [bind].
    apply IH.
    + intros y t t' Hy. apply Hbody. by right.
    + eapply Hbody; [by left|exact Hs|exact Hx].
Qed.

Lemma add_from_folder_named reason folder avail to_add st st' :
  folder ∈ search_folders_list ->
  Forall quota_named (selected_artworks st) ->
  add_from_folder reason folder avail to_add st = Ok st' ->
  Forall quota_named (selected_artworks st').
Proof.
  intros Hf Hst. unfold add_from_folder.
  destruct (0 <? to_add); [|by intros [= <-]].
  destruct (sample _ _ _) as [[chosen g']|]; [|done]. cbn [bind].
  intros [= <-]. cbn [selected_artworks]. rewrite foldl_select.
  cbn [selected_artworks]. apply Forall_app. split; [done|].
  apply Forall_fmap, Forall_fmap, Forall_forall. by intros i _ _.
Qed.

Lemma step2_named single min_per_search st st' :
  Forall quota_named (selected_artworks st) ->
  step2 single min_per_search st = Ok st' ->
  Forall quota_named (selected_artworks st').
Proof.
  unfold step2.
  apply (for_each_preserves_in (fun s => Forall quota_named (selected_artworks s))).
  intros folder s s' Hf Hs. unfold step2_folder.
  destruct (_ && _); [|by intros [= <-]].
  by apply add_from_folder_named.
Qed.

Lemma step3_named single st st' :
  Forall quota_named (selected_artworks st) ->
  step3 single st = Ok st' ->
  Forall quota_named (selected_artworks st').
Proof.
  unfold step3.
  destruct (0 <? remaining_slots st); [|by intros ? [= <-]].
  destruct (0 <? len _); [|by intros ? [= <-]].
  destruct (0 <? sum_values _); [|by intros ? [= <-]].
  apply (for_each_preserves_in (fun s => Forall quota_named (selected_artworks s))).
  intros folder s s' Hf Hs. unfold step3_folder.
  destruct (_ !! folder) as [p|]; [|done].
  destruct (0 <? p); [|by intros [= <-]].
  destruct (target_to_add _ _ _) as [target|]; [|done]. cbn [bind].
  by apply add_from_folder_named.
Qed.

Lemma step4_named single st st' :
  Forall quota_named (selected_artworks st) ->
  step4 single st = Ok st' ->
  Forall quota_named (selected_artworks st').
Proof.
  intros Hst. unfold step4.
  destruct (0 <? remaining_slots st); [|by intros [= <-]].
  destruct (remaining_slots st <=? len _); [|by intros [= <-]].
  destruct (sample _ _ _) as [[l g']|]; [|done]. cbn [bind].
  intros [= <-]. cbn [selected_artworks]. rewrite foldl_select.
  cbn [selected_artworks]. apply Forall_app. split; [done|].
  apply Forall_fmap, Forall_forall. intros it _ [Hr|Hr]; discriminate Hr.
Qed.

(** X20. A returned record with the reason [min_requirement] or
    [proportional] names one of the six folders [search_1] to [search_6]:
    the artworks of any other folder are selected in step 1 or in step 4
    only. *)
Theorem quota_steps_six_folders (g : G) rows (target_size min_per_search : Z)
    (out : outcome G) :
  analyze_and_create_subset g rows target_size min_per_search = Ok out ->
  forall a, a ∈ returned out ->
    selection_reason a = min_requirement \/ selection_reason a = proportional ->
    search_folders a ∈ search_folders_list.
Proof.
  intros Hrun. change (forall a, a ∈ returned out -> quota_named a).
  apply Forall_forall.
  assert (Forall quota_named
            (selected_artworks (after_step1 g rows target_size))) as H1.
  { cbn [after_step1 selected_artworks]. apply Forall_fmap, Forall_forall.
    intros it _ [Hr|Hr]; discriminate Hr. }
  rewrite run_unfold in Hrun. cbn zeta in Hrun.
  destruct (remaining_slots (after_step1 g rows target_size) <=? 0).
  { injection Hrun as <-. cbn [returned].
    pose proof (shuffle_gen_perm _ g
                  (selected_artworks (after_step1 g rows target_size))) as Hp.
    rewrite <- Hp in H1. rewrite Forall_forall in H1.
    apply Forall_forall. intros a Ha. apply H1.
    eapply elem_of_sublist; [exact Ha|]. apply slice_to_sublist. }
  destruct (step2 _ min_per_search _) as [st2|] eqn:E2; [|done].
  cbn [bind] in Hrun.
  destruct (step3 _ st2) as [st3|] eqn:E3; [|done]. cbn [bind] in Hrun.
  destruct (step4 _ st3) as [st4|] eqn:E4; [|done]. cbn [bind] in Hrun.
  injection Hrun as <-. cbn [returned].
  pose proof (shuffle_gen_perm _ (rng st4) (selected_artworks st4)) as Hp.
  unfold shuffle. rewrite Hp.
  eapply step4_named; [|exact E4]. eapply step3_named; [|exact E3].
  eapply step2_named; [|exact E2]. exact H1.
Qed.

End SelectorFolders.

(** ** Selection: step 2 takes no more than the minimum *)

Section SelectorQuota.

Import Py Prune.

Context {G : Type} `{Random G}.

Implicit Types (st : state G) (single : list (string * list Z)).
Implicit Types (rows : list row) (sel : list artwork).

Lemma filter_sublist_mono {A} (P : A -> Prop) `{forall x, Decision (P x)}
    (l k : list A) :
  l `sublist_of` k -> filter P l `sublist_of` filter P k.
Proof.
  induction 1 as [|x l k Hs IH|x l k Hs IH]; [done| |].
  - rewrite !filter_cons. destruct (decide (P x)); [by apply sublist_skip|done].
  - rewrite filter_cons. destruct (decide (P x)); [by apply sublist_cons|done].
Qed.

Lemma count_tagged_app reason folder sel1 sel2 :
  count_tagged reason folder (sel1 ++ sel2)
  = count_tagged reason folder sel1 + count_tagged reason folder sel2.
Proof. unfold count_tagged. by rewrite filter_app, len_app. Qed.

Lemma count_tagged_perm reason folder sel1 sel2 :
  sel1 ≡ₚ sel2 ->
  count_tagged reason folder sel1 = count_tagged reason folder sel2.
Proof.
  intros Hp. unfold count_tagged, len. f_equal.
  apply Permutation_length. by rewrite Hp.
Qed.

Lemma count_tagged_nonneg reason folder sel :
  0 <= count_tagged reason folder sel.
Proof. apply len_nonneg. Qed.

Lemma count_tagged_drawn reason folder reason' folder' (chosen : list Z) :
  count_tagged reason folder (drawn reason' folder' chosen)
  = if decide (reason' = reason /\ folder' = folder) then len chosen else 0.
Proof.
  unfold count_tagged, drawn. case_decide as Hd.
  - rewrite filter_all; [by rewrite !len_fmap|].
    intros a (it & -> & (i & -> & _)%list_elem_of_fmap)%list_elem_of_fmap.
    exact Hd.
  - rewrite filter_none; [done|].
    intros a (it & -> & (i & -> & _)%list_elem_of_fmap)%list_elem_of_fmap.
    exact Hd.
Qed.

Lemma count_tagged_entries reason folder reason' (items : list (Z * string)) :
  reason' <> reason ->
  count_tagged reason folder (entry reason' <$> items) = 0.
Proof.
  intros Hne. unfold count_tagged. rewrite filter_none; [done|].
  intros a (it & -> & _)%list_elem_of_fmap [Hr _]. by apply Hne.
Qed.

Lemma add_from_folder_shape reason folder avail to_add st st' :
  add_from_folder reason folder avail to_add st = Ok st' ->
  exists chosen,
    selected_artworks st' = selected_artworks st ++ drawn reason folder chosen.
Proof.
  unfold add_from_folder. destruct (0 <? to_add).
  - destruct (sample _ _ _) as [[chosen g']|]; [|done]. cbn [bind].
    intros [= <-]. exists chosen. cbn [selected_artworks].
    by rewrite foldl_select.
  - intros [= <-]. exists []. by rewrite app_nil_r.
Qed.

Lemma count_folders_nonneg sel f :
  0 <= default 0 (count_folders sel !! f).
Proof.
  unfold count_folders.
  assert (0 <= default 0 ((∅ : gmap string Z) !! f)) as H0
    by (by rewrite lookup_empty).
  revert H0. generalize (∅ : gmap string Z).
  induction sel as [|a sel IH]; intros c Hc; cbn [foldl]; [done|].
  apply IH. rewrite foldl_incr_lookup.
  pose proof (len_nonneg (filter (fun x => x = f)
                            (folders_of (search_folders a)))). lia.
Qed.

Lemma step2_folder_quota single min_per_search folder visited st st' :
  folder ∉ visited -> quota_kept min_per_search visited st ->
  step2_folder single min_per_search folder st = Ok st' ->
  quota_kept min_per_search (visited ++ [folder]) st'.
Proof.
  intros Hnew [Hc Hq] Hstep.
  destruct (step2_folder_state single min_per_search folder st)
    as (chosen & g' & _ & Hlen & Heq).
  rewrite Heq in Hstep. injection Hstep as <-.
  pose proof (to_add2_le_shortfall single min_per_search folder st) as Hle.
  unfold shortfall in Hle. split; cbn [current_folder_counts selected_artworks].
  - intros f. destruct (0 <? to_add2 _ _ _ _) eqn:Hpos; [|apply Hc].
    rewrite incr_lookup. specialize (Hc f). case_decide; lia.
  - intros f. rewrite count_tagged_app, count_tagged_drawn.
    specialize (Hq f). specialize (Hc folder).
    destruct (decide (f = folder)) as [->|Hne].
    + rewrite decide_False in Hq by done.
      rewrite decide_True by done.
      rewrite decide_True by (apply elem_of_app; right; by left).
      pose proof (count_tagged_nonneg min_requirement folder
                    (selected_artworks st)). lia.
    + rewrite (decide_False (P := _ /\ folder = f)) by (intros [_ ?]; congruence).
      destruct (decide (f ∈ visited)) as [Hin|Hnin].
      * rewrite decide_True by (apply elem_of_app; by left). lia.
      * rewrite decide_False; [lia|].
        intros [?|?%list_elem_of_singleton]%elem_of_app; done.
Qed.

Lemma step2_loop_quota single min_per_search l visited st st' :
  NoDup (visited ++ l) -> quota_kept min_per_search visited st ->
  for_each (step2_folder single min_per_search) l st = Ok st' ->
  quota_kept min_per_search (visited ++ l) st'.
Proof.
  revert visited st. induction l as [|x l IH]; intros visited st Hnd Hq;
    cbn [for_each].
  - intros [= <-]. by rewrite app_nil_r.
  - destruct (step2_folder single min_per_search x st) as [s1|] eqn:Hx; [|done].
    cbn [bind]. rewrite (cons_middle x visited l), app_assoc in Hnd |- *.
    apply IH; [exact Hnd|].
    eapply step2_folder_quota; [|exact Hq|exact Hx].
    apply NoDup_app in Hnd as (Hnd & _ & _).
    apply NoDup_app in Hnd as (_ & Hdis & _).
    intros Hin. apply (Hdis x Hin). by left.
Qed.

Lemma step3_count single reason folder st st' :
  reason <> proportional ->
  step3 single st = Ok st' ->
  count_tagged reason folder (selected_artworks st')
  = count_tagged reason folder (selected_artworks st).
Proof.
  intros Hne. unfold step3.
  destruct (0 <? remaining_slots st); [|by intros [= <-]].
  destruct (0 <? len _); [|by intros [= <-]].
  destruct (0 <? sum_values _); [|by intros [= <-]].
  apply (for_each_preserves
           (fun s => count_tagged reason folder (selected_artworks s)
                     = count_tagged reason folder (selected_artworks st)));
    [|done].
  intros x s s' Hs. unfold step3_folder.
  destruct (_ !! x) as [p|]; [|done].
  destruct (0 <? p); [|by intros [= <-]].
  destruct (target_to_add _ _ _) as [target|]; [|done]. cbn [bind].
  intros (chosen & ->)%add_from_folder_shape.
  rewrite count_tagged_app, count_tagged_drawn.
  rewrite decide_False by (intros [? _]; by apply Hne). lia.
Qed.

Lemma step4_count single reason folder st st' :
  reason <> fill_to_target ->
  step4 single st = Ok st' ->
  count_tagged reason folder (selected_artworks st')
  = count_tagged reason folder (selected_artworks st).
Proof.
  intros Hne. unfold step4.
  destruct (0 <? remaining_slots st); [|by intros [= <-]].
  destruct (remaining_slots st <=? len _); [|by intros [= <-]].
  destruct (sample _ _ _) as [[l g']|]; [|done]. cbn [bind].
  intros [= <-]. cbn [selected_artworks]. rewrite foldl_select.
  cbn [selected_artworks].
  rewrite count_tagged_app, count_tagged_entries by done. lia.
Qed.

(** X21. Step 2 takes no more than the minimum: for every folder, the
    returned list holds at most [min_per_search] records drawn for it with
    the reason [min_requirement] (none when [min_per_search] is not
    positive). *)
Theorem min_requirement_at_most_minimum (g : G) rows
    (target_size min_per_search : Z) (out : outcome G) (folder : string) :
  analyze_and_create_subset g rows target_size min_per_search = Ok out ->
  len (filter (fun a => selection_reason a = min_requirement
                        /\ search_folders a = folder) (returned out))
  <= Z.max 0 min_per_search.
Proof.
  intros Hrun.
  change (count_tagged min_requirement folder (returned out)
          <= Z.max 0 min_per_search).
  assert (forall f, count_tagged min_requirement f
                      (selected_artworks (after_step1 g rows target_size)) = 0)
    as H1.
  { intros f. cbn [after_step1 selected_artworks].
    by apply count_tagged_entries. }
  rewrite run_unfold in Hrun. cbn zeta in Hrun.
  destruct (remaining_slots (after_step1 g rows target_size) <=? 0).
  { injection Hrun as <-. cbn [returned].
    pose proof (shuffle_gen_perm _ g
                  (selected_artworks (after_step1 g rows target_size))) as Hp.
    pose proof (slice_to_sublist (shuffle g
                  (selected_artworks (after_step1 g rows target_size))).1
                  (clamped rows target_size)) as Hsub.
    apply (filter_sublist_mono (tagged min_requirement folder)) in Hsub.
    apply sublist_length in Hsub.
    assert (length (filter (tagged min_requirement folder)
                      (shuffle g (selected_artworks
                                    (after_step1 g rows target_size))).1)
            = length (filter (tagged min_requirement folder)
                        (selected_artworks (after_step1 g rows target_size))))
      as Hl by (unfold shuffle; by rewrite Hp).
    specialize (H1 folder). unfold count_tagged, len in *.
    cbn [after_step1 selected_artworks] in *. lia. }
  destruct (step2 _ min_per_search _) as [st2|] eqn:E2; [|done].
  cbn [bind] in Hrun.
  destruct (step3 _ st2) as [st3|] eqn:E3; [|done]. cbn [bind] in Hrun.
  destruct (step4 _ st3) as [st4|] eqn:E4; [|done]. cbn [bind] in Hrun.
  injection Hrun as <-. cbn [returned].
  pose proof (shuffle_gen_perm _ (rng st4) (selected_artworks st4)) as Hp.
  rewrite (count_tagged_perm _ _ _ _ Hp).
  assert (min_requirement <> fill_to_target) as Hn4 by (cbv; discriminate).
  assert (min_requirement <> proportional) as Hn3 by (cbv; discriminate).
  rewrite (step4_count _ _ _ _ _ Hn4 E4), (step3_count _ _ _ _ _ Hn3 E3).
  unfold step2 in E2.
  assert (quota_kept min_per_search ([] ++ search_folders_list) st2)
    as [_ Hq].
  { eapply step2_loop_quota; [| |exact E2].
    - apply (bool_decide_unpack (NoDup search_folders_list)).
      vm_compute. exact I.
    - split.
      + intros f. cbn [after_step1 current_folder_counts].
        apply count_folders_nonneg.
      + intros f. rewrite (H1 f).
        rewrite decide_False by apply not_elem_of_nil. lia. }
  specialize (Hq folder). case_decide; lia.
Qed.

End SelectorQuota.

(** ** The two output files of the first script, and a catalog of distinct ids *)

Section Outputs.

Import Py Prune Subset.

Context {payload : Type}.

Implicit Types (a : Process.artwork payload).
Implicit Types (catalog : list (Process.artwork payload)).

(** X22. When [main] writes its two files, they hold the same art ids: the
    art ids of the artworks in the catalog are, up to order, those of the
    lines of the mapping, the catalog's count is the number of lines, and
    there is at least one. *)
Theorem outputs_same_art_ids
    (batches : list (string * list (Process.artwork payload)))
    (u : ProcessOut.unique_json payload) (lines : list (Z * string)) :
  ProcessOut.main batches = Some (u, lines) ->
  Process.art_id <$> ProcessOut.artworks u ≡ₚ Some <$> lines.*1
  /\ ProcessOut.total_unique_artworks u = len lines
  /\ 0 < len lines.
Proof.
  intros Hmain.
  assert (Process.unique_artworks (Process.process_search_folders batches) <> ∅)
    as Hne.
  { intros He. apply (main_exits_empty batches) in He. by rewrite He in Hmain. }
  destruct (main_outputs batches u lines Hmain) as (order & Ho & -> & ->).
  set (t := Process.process_search_folders batches) in *.
  cbn [ProcessOut.save_unique_artworks_json ProcessOut.artworks
       ProcessOut.total_unique_artworks].
  rewrite (values_ids _ _ _ Ho), mapping_ids.
  destruct (sorted_keys (Process.art_id_to_folders t)) as [Hsorted Hkeys].
  assert (order ≡ₚ merge_sort Z.le (elements (dom (Process.art_id_to_folders t))))
    as Hperm.
  { apply NoDup_Permutation; [apply Ho|by apply StronglySorted_lt_NoDup|].
    intros i. rewrite Hkeys, (ord_keys _ _ _ Ho), <- !elem_of_dom.
    pose proof (process_search_folders_same_keys batches) as Hsame.
    unfold same_keys in Hsame. fold t in Hsame. by rewrite Hsame. }
  split; [by rewrite Hperm|].
  destruct (ordered_size _ _ _ Ho) as [Hsize _].
  assert (len (ProcessOut.save_art_id_mapping_csv (Process.art_id_to_folders t))
          = Z.of_nat (size (Process.unique_artworks t))) as Hlen.
  { unfold len. rewrite <- (length_fmap fst), mapping_ids, <- Hperm. lia. }
  split; [lia|]. rewrite Hlen.
  destruct (size (Process.unique_artworks t)) eqn:Hz; [|lia].
  by apply map_size_empty_inv in Hz.
Qed.

(** X23. For a catalog in which no art id occurs twice, [found_count] is
    the number of artworks in the subset. *)
Theorem found_count_of_distinct_catalog (selected : list artwork)
    (od : original_data payload) :
  NoDup (omap Process.art_id (default [] (od_artworks od))) ->
  found_count (metadata (create_subset_json selected od).1)
  = total_unique_artworks (create_subset_json selected od).1.
Proof.
  intros Hnd. rewrite create_subset_json_eq. cbn zeta.
  cbn [fst metadata found_count total_unique_artworks].
  set (ids := list_to_set (art_id <$> selected) : gset Z).
  set (catalog := default [] (od_artworks od)) in *.
  unfold len. f_equal. rewrite <- ids_of_wanted_length.
  apply size_list_to_set.
  eapply sublist_NoDup; [exact Hnd|]. apply ids_of_filter_sublist.
Qed.

End Outputs.

(** ** The further properties on the concrete inputs *)

Section MoreExamples.

Import Py Prune Rot.

Lemma provenance_tidy_witness :
  Process.art_id_to_folders (Process.process_search_folders batches_ab) !! 2
    = Some ["search_1"; "search_2"]%string
  /\ NoDup ["search_1"; "search_2"]%string
  /\ ["search_1"; "search_2"]%string <> [].
Proof.
  split; [vm_compute; reflexivity|].
  apply (provenance_tidy batches_ab 2). vm_compute. reflexivity.
Defined.

Lemma reprocessing_changes_nothing_witness :
  (forall b, b ∈ extra_ab -> b ∈ batches_ab)
  /\ Process.process_search_folders (batches_ab ++ extra_ab)
     = Process.process_search_folders batches_ab.
Proof.
  assert (forall b, b ∈ extra_ab -> b ∈ batches_ab) as Hsub.
  { intros b Hb. eapply elem_of_sublist; [exact Hb|apply sublist_take]. }
  split; [exact Hsub|].
  apply (reprocessing_changes_nothing batches_ab extra_ab Hsub).
Defined.

Lemma names_ab :
  forall b, b ∈ batches_ab ->
    String.prefix "search_" b.1 = true /\ ascii_only b.1
    /\ strip b.1 = b.1 /\ contains Prune.semicolon b.1 = false.
Proof.
  apply Forall_forall. repeat constructor.
Qed.

Lemma mapping_read_back_witness :
  (forall b, b ∈ batches_ab ->
     String.prefix "search_" b.1 = true /\ ascii_only b.1
     /\ strip b.1 = b.1 /\ contains Prune.semicolon b.1 = false)
  /\ let t := Process.process_search_folders batches_ab in
     let rows := Subset.read_mapping
                   (ProcessOut.save_art_id_mapping_csv
                      (Process.art_id_to_folders t)) in
     NoDup (Prune.row_art_id <$> rows)
     /\ forall r, r ∈ rows ->
          let fs := Prune.folders_of (strip (Prune.row_search_folders r)) in
          fs = ProcessOut.sorted_strings (provenance t (Prune.row_art_id r))
          /\ (forall f, f ∈ fs <-> appears batches_ab f (Prune.row_art_id r))
          /\ (contains Prune.semicolon (strip (Prune.row_search_folders r)) = true
              <-> (2 <= length (provenance t (Prune.row_art_id r)))%nat).
Proof.
  split; [exact names_ab|]. apply (mapping_read_back batches_ab names_ab).
Defined.

Lemma least_folder_wins_witness :
  Process.unique_artworks (ProcessOut.process_input_folder entries_ab load_ab) !! 2
    = Some (Process.Artwork (Some 2) "b"%string)
  /\ exists f, f ∈ ProcessOut.search_folders_of entries_ab
       /\ first_with 2 (load_ab f) = Some (Process.Artwork (Some 2) "b"%string)
       /\ forall f', f' ∈ ProcessOut.search_folders_of entries_ab ->
                     is_Some (first_with 2 (load_ab f')) -> String.le f f'.
Proof.
  split; [vm_compute; reflexivity|].
  apply (least_folder_wins entries_ab load_ab 2). vm_compute. reflexivity.
Defined.

Lemma selection_from_rows_witness :
  analyze_and_create_subset 0%nat rows_ab 4 1 = Ok out_ab
  /\ forall a, a ∈ returned out_ab ->
       (exists r, r ∈ rows_ab /\ art_id a = row_art_id r
                  /\ search_folders a = strip (row_search_folders r))
       /\ (selection_reason a = multi_folder
           <-> contains semicolon (search_folders a) = true).
Proof.
  split; [exact run_ab|].
  apply (selection_from_rows 0%nat rows_ab 4 1 out_ab run_ab).
Defined.

Lemma multi_folder_rows_selected_witness :
  NoDup (row_art_id <$> rows_ab)
  /\ len (filter multi_row rows_ab) <= 4
  /\ analyze_and_create_subset 0%nat rows_ab 4 1 = Ok out_ab
  /\ forall r, r ∈ rows_ab ->
       contains semicolon (strip (row_search_folders r)) = true ->
       Artwork (row_art_id r) (strip (row_search_folders r)) multi_folder
         ∈ returned out_ab.
Proof.
  assert (len (filter multi_row rows_ab) <= 4) as Hlen by (vm_compute; discriminate).
  split; [exact rows_ab_distinct|]. split; [exact Hlen|].
  split; [exact run_ab|].
  apply (multi_folder_rows_selected 0%nat rows_ab 4 1 out_ab rows_ab_distinct
           Hlen run_ab).
Defined.

Lemma no_shortfall_warning_witness :
  NoDup (row_art_id <$> rows_ab) /\ 0 <= 4 /\ len rows_ab < 2 ^ 53
  /\ exists out,
       analyze_and_create_subset 0%nat rows_ab 4 1 = Ok out
       /\ printed out
          = if len rows_ab <? 4 then [OnlyAvailable (len rows_ab) 4] else [].
Proof.
  assert (len rows_ab < 2 ^ 53) as Hsmall by (vm_compute; reflexivity).
  split; [exact rows_ab_distinct|]. split; [lia|]. split; [exact Hsmall|].
  apply (no_shortfall_warning 0%nat rows_ab 4 1 rows_ab_distinct);
    [lia|exact Hsmall].
Defined.

Lemma multi_folder_rows_fill_target_witness :
  2 <= len (filter multi_row rows_ab)
  /\ exists out,
       analyze_and_create_subset 0%nat rows_ab 2 1 = Ok out
       /\ forall a, a ∈ returned out ->
            exists r, r ∈ rows_ab
              /\ contains semicolon (strip (row_search_folders r)) = true
              /\ a = Artwork (row_art_id r) (strip (row_search_folders r))
                             multi_folder.
Proof.
  assert (2 <= len (filter multi_row rows_ab)) as Hlen by (vm_compute; discriminate).
  split; [exact Hlen|].
  apply (multi_folder_rows_fill_target 0%nat rows_ab 2 1 Hlen).
Defined.

Lemma main_ab :
  ProcessOut.main ((fun f => (f, load_ab f)) <$> ProcessOut.search_folders_of entries_ab)
  = Some (unique_ab, lines_ab).
Proof. vm_compute. reflexivity. Qed.

Lemma scripts_agree_witness :
  ProcessOut.main ((fun f => (f, load_ab f)) <$> ProcessOut.search_folders_of entries_ab)
    = Some (unique_ab, lines_ab)
  /\ len lines_ab < 2 ^ 53
  /\ exists out : outcome gen,
       Prune.main 42 (Subset.read_mapping lines_ab) = Ok out
       /\ let sd := (Subset.create_subset_json (returned out)
                       (Subset.read_unique_json unique_ab)).1 in
          (Subset.create_subset_json (returned out)
             (Subset.read_unique_json unique_ab)).2 = ∅
          /\ Subset.missing_count (Subset.metadata sd) = 0
          /\ Subset.selected_count (Subset.metadata sd)
             = Z.min 100 (ProcessOut.total_unique_artworks unique_ab)
          /\ Subset.found_count (Subset.metadata sd)
             = Subset.selected_count (Subset.metadata sd)
          /\ Subset.total_unique_artworks sd
             = Subset.selected_count (Subset.metadata sd)
          /\ Subset.original_total (Subset.metadata sd)
             = ProcessOut.total_unique_artworks unique_ab.
Proof.
  assert (len lines_ab < 2 ^ 53) as Hsmall by (vm_compute; reflexivity).
  split; [exact main_ab|]. split; [exact Hsmall|].
  apply (scripts_agree entries_ab load_ab 42 unique_ab lines_ab main_ab Hsmall).
Defined.

Lemma mapping_file_order_independent_witness :
  batches_ab ≡ₚ batches_ba
  /\ ProcessOut.save_art_id_mapping_csv
       (Process.art_id_to_folders (Process.process_search_folders batches_ab))
     = ProcessOut.save_art_id_mapping_csv
         (Process.art_id_to_folders (Process.process_search_folders batches_ba)).
Proof.
  assert (batches_ab ≡ₚ batches_ba) as Hp
    by (symmetry; apply reverse_Permutation).
  split; [exact Hp|].
  apply (mapping_file_order_independent batches_ab batches_ba Hp).
Defined.

Lemma small_mapping_selected_whole_witness :
  NoDup (row_art_id <$> rows_ab) /\ len rows_ab <= 4 /\ len rows_ab < 2 ^ 53
  /\ exists out,
       analyze_and_create_subset 0%nat rows_ab 4 1 = Ok out
       /\ art_id <$> returned out ≡ₚ row_art_id <$> rows_ab.
Proof.
  assert (len rows_ab <= 4) as Hle by (vm_compute; discriminate).
  assert (len rows_ab < 2 ^ 53) as Hsmall by (vm_compute; reflexivity).
  split; [exact rows_ab_distinct|]. split; [exact Hle|]. split; [exact Hsmall|].
  apply (small_mapping_selected_whole 0%nat rows_ab 4 1 rows_ab_distinct Hle Hsmall).
Defined.

Lemma quota_steps_six_folders_witness :
  analyze_and_create_subset 0%nat rows_ab 4 1 = Ok out_ab
  /\ forall a, a ∈ returned out_ab ->
       selection_reason a = min_requirement \/ selection_reason a = proportional ->
       search_folders a ∈ search_folders_list.
Proof.
  split; [exact run_ab|].
  apply (quota_steps_six_folders 0%nat rows_ab 4 1 out_ab run_ab).
Defined.

Lemma outputs_same_art_ids_witness :
  ProcessOut.main ((fun f => (f, load_ab f)) <$> ProcessOut.search_folders_of entries_ab)
    = Some (unique_ab, lines_ab)
  /\ Process.art_id <$> ProcessOut.artworks unique_ab ≡ₚ Some <$> lines_ab.*1
  /\ ProcessOut.total_unique_artworks unique_ab = len lines_ab
  /\ 0 < len lines_ab.
Proof.
  split; [exact main_ab|].
  apply (outputs_same_art_ids _ unique_ab lines_ab main_ab).
Defined.

Lemma unique_ab_distinct :
  NoDup (omap Process.art_id
           (default [] (Subset.od_artworks (Subset.read_unique_json unique_ab)))).
Proof.
  apply (bool_decide_unpack
           (NoDup (omap Process.art_id
                     (default [] (Subset.od_artworks
                                    (Subset.read_unique_json unique_ab)))))).
  vm_compute. exact I.
Qed.

Lemma found_count_of_distinct_catalog_witness :
  NoDup (omap Process.art_id
           (default [] (Subset.od_artworks (Subset.read_unique_json unique_ab))))
  /\ Subset.found_count
       (Subset.metadata
          (Subset.create_subset_json (returned out_ab)
             (Subset.read_unique_json unique_ab)).1)
     = Subset.total_unique_artworks
         (Subset.create_subset_json (returned out_ab)
            (Subset.read_unique_json unique_ab)).1.
Proof.
  split; [exact unique_ab_distinct|].
  apply (found_count_of_distinct_catalog (returned out_ab)
           (Subset.read_unique_json unique_ab) unique_ab_distinct).
Defined.

Lemma run_three :
  analyze_and_create_subset 0%nat rows_three 3 3 = Ok out_three.
Proof. vm_compute. reflexivity. Qed.

Lemma min_requirement_at_most_minimum_witness :
  analyze_and_create_subset 0%nat rows_three 3 3 = Ok out_three
  /\ len (filter (fun a => selection_reason a = min_requirement
                           /\ search_folders a = "search_2"%string)
             (returned out_three))
     <= Z.max 0 3.
Proof.
  split; [exact run_three|].
  apply (min_requirement_at_most_minimum 0%nat rows_three 3 3 out_three
           "search_2"%string run_three).
Defined.

End MoreExamples.
